(** * StockSense: stock-health calculator and settings lookup

    A shallow embedding of [app/lib/settings.server.ts] (the calculator
    [getStockStatus] / [calculateSuggestedQuantity] and the settings lookup
    [getAppSettings]) and of the settings part of the [loader] in
    [app/routes/app.settings.tsx]; then of the code around them: the [action]
    of the settings page, the aggregation of inventory and sales and the
    reorder list of the purchase orders page, and the analytics of the
    dashboard in [app/routes/app._index.tsx].

    A JavaScript [number] is an IEEE 754 binary64 value, modelled by Rocq's
    primitive [float]; [+], [-], [*], [/], [<], [<=] are the primitive
    binary64 operations.  General facts are proved through the standard
    library's specification of those operations ([SpecFloat]), by giving
    every number its exact value as an integer multiple of 2^-1074. *)

From Stdlib Require Import QArith Qround Qminmax.
From stdpp Require Import gmap strings.
From Stdlib Require Import ZArith Lia Bool Floats Sorted Permutation.

Close Scope Q_scope.
Set Warnings "-inexact-float".

(** ** Part I: definitions *)

(** *** Exact values of binary64 numbers *)

Local Open Scope Z_scope.

(** Values are counted in units of 2^-1074, the smallest positive binary64
    number, so every finite number has an integer value.  [unit_val] is the
    value of 1.0, and [inf_val], the value of 2^1024, stands for infinity: it
    is the first power of two that is too large for a finite binary64
    number. *)
Definition unit_val : Z := 2 ^ 1074.

Definition inf_val : Z := 2 ^ 2098.

(** [rne m n] is [m / 2^n] rounded to the nearest integer, ties to even. *)
Definition rne (m n : Z) : Z :=
  let q := m / 2 ^ n in
  match 2 * (m mod 2 ^ n) ?= 2 ^ n with
  | Lt => q
  | Eq => if Z.even q then q else q + 1
  | Gt => q + 1
  end.

(** [RN m e] is the value of the binary64 number nearest to [m * 2^e]
    (for [m >= 0]): 53 significant bits, gradual underflow, overflow to
    infinity. *)
Definition RN (m e : Z) : Z :=
  let E := fexp prec emax (Zdigits2 m + e) in
  Z.min inf_val (rne m (E - e) * 2 ^ (E + 1074)).

(** Rounding of a signed quantity. *)
Definition sRN (z e : Z) : Z := if z <? 0 then - RN (- z) e else RN z e.

(** The least multiple of [unit_val] (the least integer) not below [V]. *)
Definition ceilZ (V : Z) : Z := - ((- V) / unit_val) * unit_val.

(** The shift register of [SpecFloat] after [k] right shifts of [M]. *)
Definition mk_rec (M k : Z) : shr_record :=
  {| shr_m := M / 2 ^ k;
     shr_r := 2 ^ k <=? 2 * (M mod 2 ^ k);
     shr_s := negb (M mod 2 ^ k =? 0) && negb (2 * (M mod 2 ^ k) =? 2 ^ k) |}.

Definition SFval (x : spec_float) : Z :=
  match x with
  | S754_zero _ => 0
  | S754_infinity s => cond_Zopp s inf_val
  | S754_nan => 0
  | S754_finite s m e => cond_Zopp s (Zpos m * 2 ^ (e + 1074))
  end.

Definition is_number (x : spec_float) : Prop := x <> S754_nan.

Definition valid_number (x : spec_float) : Prop :=
  valid_binary x = true /\ is_number x.

(** [r] is a valid number of sign [s] and magnitude [V]. *)
Definition rounds_to (s : bool) (V : Z) (r : spec_float) : Prop :=
  valid_binary r = true /\
  match r with
  | S754_zero s' => s' = s /\ V = 0
  | S754_finite s' m e => s' = s /\ V = Zpos m * 2 ^ (e + 1074)
  | S754_infinity s' => s' = s /\ V = inf_val
  | S754_nan => False
  end.

(** *** The JavaScript built-ins used by the source *)

(** [Math.ceil]: NaN, infinities and zeros are returned as they are, a number
    with no fractional bits too; otherwise the ceiling of the quotient is
    converted back, keeping the sign for a zero result (so that
    [Math.ceil(-0.5)] is [-0]). *)
Definition SFceil (x : spec_float) : spec_float :=
  match x with
  | S754_finite s m e =>
      if 0 <=? e then x
      else binary_normalize prec emax (- (cond_Zopp (negb s) (Zpos m) / 2 ^ (- e))) 0 s
  | _ => x
  end.

Local Close Scope Z_scope.
Local Open Scope float_scope.

Definition Math_ceil (x : float) : float := SF2Prim (SFceil (Prim2SF x)).

(** [Math.max] of two arguments: NaN if either is NaN, and [+0] is larger
    than [-0]. *)
Definition Math_max (x y : float) : float :=
  if is_nan x || is_nan y then nan
  else if x <? y then y
  else if y <? x then x
  else if get_sign x then y else x.

Definition Infinity : float := infinity.

(** JavaScript's [x > y]. *)
Notation "x >? y" := (ltb y x) (at level 70, only parsing) : float_scope.

(** [x] is not NaN; its exact value; [x] is neither NaN nor infinite. *)
Definition is_num (x : float) : Prop := is_number (Prim2SF x).

Definition val (x : float) : Z := SFval (Prim2SF x).

Definition is_fin (x : float) : Prop :=
  is_num x /\ (- inf_val < val x < inf_val)%Z.

(** [y] is [x] rounded up: the least integer-valued number not below [x]. *)
Definition rounded_up (x y : float) : Prop :=
  (val x <= val y < val x + unit_val)%Z /\ (unit_val | val y)%Z.

(** *** app/lib/settings.server.ts: the calculator *)

Record AppSettingsType := {
  stockCoverageDays : float;
  lowStockThreshold : float;
  mediumStockThreshold : float;
  reorderPoint : float;
  emailNotifications : bool
}.

(** The local constant [daysOfStock] of [getStockStatus]. *)
Definition daysOfStock (currentStock salesVelocity : float) : float :=
  if salesVelocity >? 0 then currentStock / salesVelocity else Infinity.

Definition getStockStatus (currentStock salesVelocity : float)
    (settings : AppSettingsType) : string :=
  let daysOfStock :=
    if salesVelocity >? 0 then currentStock / salesVelocity else Infinity in
  if daysOfStock <? lowStockThreshold settings then "low"
  else if daysOfStock <? mediumStockThreshold settings then "medium"
  else "good".

Definition calculateSuggestedQuantity (currentStock salesVelocity : float)
    (settings : AppSettingsType) : float :=
  if salesVelocity <=? 0 then 0
  else
    let targetStock := Math_ceil (salesVelocity * stockCoverageDays settings) in
    let suggestedQuantity := Math_max 0 (targetStock - currentStock) in
    (* Apply safety buffer *)
    Math_ceil (suggestedQuantity * (1 + reorderPoint settings)).

(** The default values written by [getAppSettings]. *)
Definition defaultSettings : AppSettingsType :=
  {| stockCoverageDays := 30;
     lowStockThreshold := 7;
     mediumStockThreshold := 14;
     reorderPoint := 0.1;
     emailNotifications := true |}.

(** *** The calculator as the specification words it *)

(** The exact value of a binary64 number, as a rational. *)
Definition exact_value (x : float) : Q := Qmake (val x) (Z.to_pos unit_val).

(** Steps 2 to 4 of the reorder computation in exact rational arithmetic, the
    way the worked reorder example of the specification evaluates them. *)
Definition exact_suggestedQuantity
    (currentStock salesVelocity stockCoverageDays reorderPoint : Q) : Z :=
  let targetStock := Qceiling (salesVelocity * stockCoverageDays)%Q in
  let rawSuggestion := Qmax 0 (inject_Z targetStock - currentStock)%Q in
  let finalSuggestion := Qceiling (rawSuggestion * (1 + reorderPoint))%Q in
  finalSuggestion.

(** The classification in exact rational arithmetic: the days of stock are the
    quotient for a positive velocity and infinite for a zero velocity, which is
    good whatever the thresholds. *)
Definition exact_stockStatus
    (currentStock salesVelocity lowStockThreshold mediumStockThreshold : Q) : string :=
  if Qle_bool salesVelocity 0 then "good"
  else
    let daysOfStock := (currentStock / salesVelocity)%Q in
    if negb (Qle_bool lowStockThreshold daysOfStock) then "low"
    else if negb (Qle_bool mediumStockThreshold daysOfStock) then "medium"
    else "good".

(** The constraints of the data model on a settings record. *)
Definition valid_settings (s : AppSettingsType) : bool :=
  (1 <=? stockCoverageDays s) && (stockCoverageDays s <=? 365) &&
  (0 <? lowStockThreshold s) &&
  (lowStockThreshold s <? mediumStockThreshold s) &&
  (0 <=? reorderPoint s) && (reorderPoint s <=? 1).

(** *** app/lib/settings.server.ts: the settings lookup *)

Module Prisma.

(** [model AppSettings] of the Prisma schema.  JavaScript reads every numeric
    column as a [number]. *)
Record AppSettings := {
  id : string;
  shop : string;
  stockCoverageDays : float;
  lowStockThreshold : float;
  mediumStockThreshold : float;
  reorderPoint : float;
  emailNotifications : bool;
  createdAt : Z;
  updatedAt : Z
}.

(** The [data] argument of [db.appSettings.create]. *)
Record AppSettingsCreateInput := {
  data_shop : string;
  data_stockCoverageDays : float;
  data_lowStockThreshold : float;
  data_mediumStockThreshold : float;
  data_reorderPoint : float;
  data_emailNotifications : bool
}.

End Prisma.

(** Modelled from the spec: [db] of app/db.server.ts, the Prisma client, is
    not among the sources; it is the settings-configuration store of the
    specification, with at most one record per shop.  The store holds the
    [AppSettings] table indexed by its unique column [shop], the clock behind
    [now()] and the generator behind [cuid()]. *)
Record Db := {
  appSettings : gmap string Prisma.AppSettings;
  clock : Z;
  cuid : nat -> string;
  serial : nat
}.

(** An [async] function: it reads and writes the store, and its promise is
    resolved with a value or rejected with an error. *)
Inductive outcome (A : Type) : Type :=
  | Resolved (a : A)
  | Rejected (reason : string).

Arguments Resolved {A} a.
Arguments Rejected {A} reason.

Definition Async (A : Type) : Type := Db -> outcome A * Db.

Definition ret {A} (a : A) : Async A := fun db => (Resolved a, db).

Definition bind {A B} (m : Async A) (k : A -> Async B) : Async B :=
  fun db =>
    match m db with
    | (Resolved a, db') => k a db'
    | (Rejected e, db') => (Rejected e, db')
    end.

Definition try_catch {A} (m : Async A) (handler : string -> Async A) : Async A :=
  fun db =>
    match m db with
    | (Resolved a, db') => (Resolved a, db')
    | (Rejected e, db') => handler e db'
    end.

Notation "'await' x <- m ; k" := (bind m (fun x => k))
  (at level 10, x name, m at level 100, k at level 200).

(** Modelled from the spec: [db.appSettings.findUnique({ where: { shop } })]
    of the missing client is the lookup of the record of a shop. *)
Definition findUnique (where_shop : string) : Async (option Prisma.AppSettings) :=
  fun db => (Resolved (appSettings db !! where_shop), db).

(** Modelled from the spec: [db.appSettings.create({ data })] of the missing
    client is rejected when the unique column [shop] is taken; otherwise the
    new row, completed with its defaults [id], [createdAt] and [updatedAt],
    is stored and returned. *)
Definition create (data : Prisma.AppSettingsCreateInput) : Async Prisma.AppSettings :=
  fun db =>
    match appSettings db !! Prisma.data_shop data with
    | Some _ => (Rejected "Unique constraint failed on the fields: (shop)", db)
    | None =>
        let row :=
          {| Prisma.id := cuid db (serial db);
             Prisma.shop := Prisma.data_shop data;
             Prisma.stockCoverageDays := Prisma.data_stockCoverageDays data;
             Prisma.lowStockThreshold := Prisma.data_lowStockThreshold data;
             Prisma.mediumStockThreshold := Prisma.data_mediumStockThreshold data;
             Prisma.reorderPoint := Prisma.data_reorderPoint data;
             Prisma.emailNotifications := Prisma.data_emailNotifications data;
             Prisma.createdAt := clock db;
             Prisma.updatedAt := clock db |} in
        (Resolved row,
         {| appSettings := <[Prisma.data_shop data := row]> (appSettings db);
            clock := clock db;
            cuid := cuid db;
            serial := S (serial db) |})
    end.

Definition getAppSettings (shop : string) : Async Prisma.AppSettings :=
  await settings <- findUnique shop;
  (* If no settings exist, create default ones *)
  match settings with
  | None =>
      create {| Prisma.data_shop := shop;
                Prisma.data_stockCoverageDays := 30;
                Prisma.data_lowStockThreshold := 7;
                Prisma.data_mediumStockThreshold := 14;
                Prisma.data_reorderPoint := 0.1;
                Prisma.data_emailNotifications := true |}
  | Some settings => ret settings
  end.

(** A settings row read where the calculator expects an [AppSettingsType]. *)
Definition asSettings (row : Prisma.AppSettings) : AppSettingsType :=
  {| stockCoverageDays := Prisma.stockCoverageDays row;
     lowStockThreshold := Prisma.lowStockThreshold row;
     mediumStockThreshold := Prisma.mediumStockThreshold row;
     reorderPoint := Prisma.reorderPoint row;
     emailNotifications := Prisma.emailNotifications row |}.

(** *** app/routes/app.settings.tsx: the settings part of [loader] *)

Record LoaderData := {
  settings : AppSettingsType;
  error : option string
}.

Definition loader (shop : string) : Async LoaderData :=
  try_catch
    (await found <- findUnique shop;
     await settings <-
       match found with
       | None =>
           create {| Prisma.data_shop := shop;
                     Prisma.data_stockCoverageDays := 30;
                     Prisma.data_lowStockThreshold := 7;
                     Prisma.data_mediumStockThreshold := 14;
                     Prisma.data_reorderPoint := 0.1;
                     Prisma.data_emailNotifications := true |}
       | Some settings => ret settings
       end;
     ret {| settings := asSettings settings; error := None |})
    (fun e =>
       ret {| settings :=
                {| stockCoverageDays := 30;
                   lowStockThreshold := 7;
                   mediumStockThreshold := 14;
                   reorderPoint := 0.1;
                   emailNotifications := true |};
              error := Some ("Failed to load settings: " +:+ e) |}).

(** *** The rounding of a quotient *)

(** [rneq a b] is the quotient [a / b] rounded to the nearest integer, ties
    to even. *)
Definition rneq (a b : Z) : Z :=
  let q := (a / b)%Z in
  match (2 * (a mod b) ?= b)%Z with
  | Lt => q
  | Eq => if Z.even q then q else (q + 1)%Z
  | Gt => (q + 1)%Z
  end.

(** The shift register of [SpecFloat] holding the quotient [a / b]. *)
Definition mk_recq (a b : Z) : shr_record :=
  {| shr_m := (a / b)%Z;
     shr_r := (b <=? 2 * (a mod b))%Z;
     shr_s := negb (a mod b =? 0)%Z && negb (2 * (a mod b) =? b)%Z |}.

(** [sticky A B] is twice the quotient [A / B], plus one when the division
    leaves a remainder: it rounds as the exact quotient does. *)
Definition sticky (A B : Z) : Z :=
  (2 * (A / B) + (if A mod B =? 0 then 0 else 1))%Z.

(** The quotient of two values, in units of 2^-2076. *)
Definition quo_scale : Z := (2 ^ 2075)%Z.

Definition sticky_quotient (x y : Z) : Z := sticky (x * quo_scale) y.

(** *** More JavaScript built-ins *)

(** [Math.round]: the nearest integer, a tie going up; NaN, infinities,
    zeros and numbers with no fractional bits are returned as they are, and a
    zero result keeps the sign of the argument. *)
Definition SFround (x : spec_float) : spec_float :=
  match x with
  | S754_finite s m e =>
      if (0 <=? e)%Z then x
      else
        let n := ((2 * cond_Zopp s (Zpos m) + 2 ^ (- e)) / 2 ^ (- e + 1))%Z in
        if (n =? 0)%Z then S754_zero s else binary_normalize prec emax n 0 s
  | _ => x
  end.

Definition Math_round (x : float) : float := SF2Prim (SFround (Prim2SF x)).

(** [value || fallback] on a number or undefined: undefined, NaN and the
    zeros are the falsy ones. *)
Definition or_number (value : option float) (fallback : float) : float :=
  match value with
  | None => fallback
  | Some n => if is_nan n || (n =? 0) then fallback else n
  end.

(** A JavaScript [Map] with string keys: the entries in insertion order.
    [set] on a key that is present replaces its value in place. *)
Definition JsMap (V : Type) : Type := list (string * V).

Fixpoint Map_get {V} (m : JsMap V) (key : string) : option V :=
  match m with
  | [] => None
  | (k, v) :: rest => if String.eqb k key then Some v else Map_get rest key
  end.

Fixpoint Map_set {V} (m : JsMap V) (key : string) (value : V) : JsMap V :=
  match m with
  | [] => [(key, value)]
  | (k, v) :: rest =>
      if String.eqb k key then (k, value) :: rest
      else (k, v) :: Map_set rest key value
  end.

(** [array.includes(x)] on strings. *)
Definition includes (array : list string) (x : string) : bool :=
  existsb (String.eqb x) array.

(** [array.sort(compareFn)]: the stable sort of ECMAScript, here by
    insertion.  An element goes before the first one that [compareFn] puts it
    strictly before (a result below 0); a result of 0, above 0 or NaN leaves
    it behind.  ECMAScript fixes the result when the comparator is consistent,
    as it is in the two uses below. *)
Fixpoint Array_insert {A} (compareFn : A -> A -> float) (x : A) (sorted : list A) : list A :=
  match sorted with
  | [] => [x]
  | y :: rest =>
      if compareFn x y <? 0 then x :: y :: rest
      else y :: Array_insert compareFn x rest
  end.

Definition Array_sort {A} (compareFn : A -> A -> float) (array : list A) : list A :=
  fold_left (fun sorted x => Array_insert compareFn x sorted) array [].

(** [array.slice(0, n)]. *)
Definition Array_slice0 {A} (n : nat) (array : list A) : list A := firstn n array.

(** *** app/routes/app.settings.tsx: [action] *)

Notation "x >=? y" := (leb y x) (at level 70, only parsing) : float_scope.

(** The submitted form, its fields in order.  [formData.get(name)] is the
    first value of that name, or null. *)
Definition FormData : Type := list (string * string).

Fixpoint FormData_get (formData : FormData) (name : string) : option string :=
  match formData with
  | [] => None
  | (key, value) :: rest =>
      if String.eqb key name then Some value else FormData_get rest name
  end.

(** [value || fallback] on a string or null: null and the empty string are
    the falsy ones. *)
Definition or_string (value : option string) (fallback : string) : string :=
  match value with
  | None => fallback
  | Some "" => fallback
  | Some s => s
  end.

(** [value === s] on a string or null. *)
Definition strict_eq (value : option string) (s : string) : bool :=
  match value with
  | None => false
  | Some v => String.eqb v s
  end.

Module ActionData.

(** The JSON answer of [action]; a key that is left out is [None]. *)
Record t := {
  success : bool;
  message : option string;
  error : option string
}.

End ActionData.

(** The columns a [create] input sets. *)
Definition columns (data : Prisma.AppSettingsCreateInput) : AppSettingsType :=
  {| stockCoverageDays := Prisma.data_stockCoverageDays data;
     lowStockThreshold := Prisma.data_lowStockThreshold data;
     mediumStockThreshold := Prisma.data_mediumStockThreshold data;
     reorderPoint := Prisma.data_reorderPoint data;
     emailNotifications := Prisma.data_emailNotifications data |}.

Section SettingsAction.

(** [parseInt] and [parseFloat] of the JavaScript runtime, on a string. *)
Variables parseInt parseFloat : string -> float.

(** Modelled from the spec: the column values the store accepts (the schema
    declares the day counts [Int], the reorder point [Float]); a write of
    other values is rejected by the missing client. *)
Variable storable : AppSettingsType -> bool.

(** Modelled from the spec: [db.appSettings.upsert({ where: { shop }, update,
    create })] of the missing client updates the columns of the record of the
    shop when there is one, keeping its [id] and [createdAt], and creates the
    record otherwise; it is rejected, and nothing is written, when the store
    does not accept the values. *)
Definition upsert (where_shop : string) (update : AppSettingsType)
    (create_data : Prisma.AppSettingsCreateInput) : Async Prisma.AppSettings :=
  fun db =>
    match appSettings db !! where_shop with
    | Some existing =>
        if storable update then
          let row :=
            {| Prisma.id := Prisma.id existing;
               Prisma.shop := Prisma.shop existing;
               Prisma.stockCoverageDays := stockCoverageDays update;
               Prisma.lowStockThreshold := lowStockThreshold update;
               Prisma.mediumStockThreshold := mediumStockThreshold update;
               Prisma.reorderPoint := reorderPoint update;
               Prisma.emailNotifications := emailNotifications update;
               Prisma.createdAt := Prisma.createdAt existing;
               Prisma.updatedAt := clock db |} in
          (Resolved row,
           {| appSettings := <[where_shop := row]> (appSettings db);
              clock := clock db;
              cuid := cuid db;
              serial := serial db |})
        else (Rejected "Invalid value provided", db)
    | None =>
        if storable (columns create_data) then create create_data db
        else (Rejected "Invalid value provided", db)
    end.

Definition action (shop : string) (formData : FormData) : Async ActionData.t :=
  let action := FormData_get formData "action" in
  if strict_eq action "update_settings" then
    try_catch
      (let stockCoverageDays :=
         parseInt (or_string (FormData_get formData "stockCoverageDays") "30") in
       let lowStockThreshold :=
         parseInt (or_string (FormData_get formData "lowStockThreshold") "7") in
       let mediumStockThreshold :=
         parseInt (or_string (FormData_get formData "mediumStockThreshold") "14") in
       let reorderPoint :=
         parseFloat (or_string (FormData_get formData "reorderPoint") "0.1") in
       let emailNotifications :=
         strict_eq (FormData_get formData "emailNotifications") "true" in
       (* Validate inputs *)
       if (stockCoverageDays <? 1) || (stockCoverageDays >? 365) then
         ret {| ActionData.success := false;
                ActionData.message := None;
                ActionData.error :=
                  Some "Stock coverage days must be between 1 and 365" |}
       else if lowStockThreshold >=? mediumStockThreshold then
         ret {| ActionData.success := false;
                ActionData.message := None;
                ActionData.error :=
                  Some "Low stock threshold must be less than medium stock threshold" |}
       else
         (* Update settings in database *)
         await _ <-
           upsert shop
             {| stockCoverageDays := stockCoverageDays;
                lowStockThreshold := lowStockThreshold;
                mediumStockThreshold := mediumStockThreshold;
                reorderPoint := reorderPoint;
                emailNotifications := emailNotifications |}
             {| Prisma.data_shop := shop;
                Prisma.data_stockCoverageDays := stockCoverageDays;
                Prisma.data_lowStockThreshold := lowStockThreshold;
                Prisma.data_mediumStockThreshold := mediumStockThreshold;
                Prisma.data_reorderPoint := reorderPoint;
                Prisma.data_emailNotifications := emailNotifications |};
         ret {| ActionData.success := true;
                ActionData.message := Some "Settings updated successfully!";
                ActionData.error := None |})
      (fun _ =>
         ret {| ActionData.success := false;
                ActionData.message := None;
                ActionData.error := Some "Failed to update settings" |})
  else
    ret {| ActionData.success := false;
           ActionData.message := None;
           ActionData.error := None |}.

(** The settings a form asks for, as [action] reads them. *)
Definition submitted (formData : FormData) : AppSettingsType :=
  {| stockCoverageDays :=
       parseInt (or_string (FormData_get formData "stockCoverageDays") "30");
     lowStockThreshold :=
       parseInt (or_string (FormData_get formData "lowStockThreshold") "7");
     mediumStockThreshold :=
       parseInt (or_string (FormData_get formData "mediumStockThreshold") "14");
     reorderPoint :=
       parseFloat (or_string (FormData_get formData "reorderPoint") "0.1");
     emailNotifications :=
       strict_eq (FormData_get formData "emailNotifications") "true" |}.

End SettingsAction.

(** *** The purchase orders page (src/unnamed/part_000): [loader] *)

Module Variant.
Record t := {
  id : string;
  sku : option string;
  price : option string;
  inventoryQuantity : option float
}.
End Variant.

Module Product.
Record t := {
  id : string;
  title : option string;
  vendor : option string;
  variants : list Variant.t
}.
End Product.

Module InventoryInfo.
Record t := {
  available : float;
  price : float;
  title : string;
  vendor : string;
  variantId : string;
  productId : string
}.
End InventoryInfo.

Module LineItem.
Record t := {
  sku : option string;
  quantity : float
}.
End LineItem.

Module Order.
(** [createdAt] is the time value of [new Date(order.createdAt)]. *)
Record t := {
  createdAt : float;
  lineItems : list LineItem.t
}.
End Order.

Module ProductData.
Record t := {
  id : string;
  sku : string;
  title : string;
  vendor : string;
  currentStock : float;
  salesVelocity : float;
  suggestedQuantity : float;
  selected : bool;
  orderQuantity : float;
  stockStatus : string
}.
End ProductData.

Section PurchaseOrders.

Variable parseFloat : string -> float.

(** Process products and inventory levels: the body of the inner [forEach],
    on [inventoryMap] and [allSkus]. *)
Definition addVariant (product : Product.t)
    (state : JsMap InventoryInfo.t * list string) (variant : Variant.t)
    : JsMap InventoryInfo.t * list string :=
  let '(inventoryMap, allSkus) := state in
  match Variant.sku variant with
  | Some sku =>
      if negb (String.eqb sku "") then
        let available := or_number (Variant.inventoryQuantity variant) 0 in
        let price := parseFloat (or_string (Variant.price variant) "0") in
        (Map_set inventoryMap sku
           {| InventoryInfo.available := available;
              InventoryInfo.price := price;
              InventoryInfo.title := or_string (Product.title product) "Unknown Product";
              InventoryInfo.vendor := or_string (Product.vendor product) "Unknown Vendor";
              InventoryInfo.variantId := Variant.id variant;
              InventoryInfo.productId := Product.id product |},
         allSkus ++ [sku])
      else state
  | None => state
  end.

Definition processProducts (products : list Product.t)
    : JsMap InventoryInfo.t * list string :=
  fold_left
    (fun state product => fold_left (addVariant product) (Product.variants product) state)
    products ([], []).

(** Sales of the last three months: the body of the inner [forEach], on
    [salesMap]. *)
Definition addLineItem (allSkus : list string) (salesMap : JsMap float)
    (lineItem : LineItem.t) : JsMap float :=
  match LineItem.sku lineItem with
  | Some sku =>
      if negb (String.eqb sku "") && includes allSkus sku then
        Map_set salesMap sku
          (or_number (Map_get salesMap sku) 0 + LineItem.quantity lineItem)
      else salesMap
  | None => salesMap
  end.

Definition processOrders (threeMonthsAgo : float) (allSkus : list string)
    (orders : list Order.t) : JsMap float :=
  fold_left
    (fun salesMap order =>
       if Order.createdAt order >=? threeMonthsAgo then
         fold_left (addLineItem allSkus) (Order.lineItems order) salesMap
       else salesMap)
    orders [].

(** Combine data into final format: the body of [inventoryMap.forEach]. *)
Definition productForPurchase (settings : AppSettingsType) (salesMap : JsMap float)
    (entry : string * InventoryInfo.t) : ProductData.t :=
  let '(sku, inventoryInfo) := entry in
  let salesLast90Days := or_number (Map_get salesMap sku) 0 in
  let salesVelocity := salesLast90Days / 90 in
  (* Calculate suggested quantity using configurable settings *)
  let suggestedQuantity :=
    calculateSuggestedQuantity (InventoryInfo.available inventoryInfo) salesVelocity settings in
  (* Get stock status using configurable thresholds *)
  let stockStatus :=
    getStockStatus (InventoryInfo.available inventoryInfo) salesVelocity settings in
  {| ProductData.id := sku;
     ProductData.sku := or_string (Some sku) "N/A";
     ProductData.title := InventoryInfo.title inventoryInfo;
     ProductData.vendor := InventoryInfo.vendor inventoryInfo;
     ProductData.currentStock := InventoryInfo.available inventoryInfo;
     ProductData.salesVelocity := Math_round (salesVelocity * 100) / 100;
     ProductData.suggestedQuantity := suggestedQuantity;
     ProductData.selected := false;
     ProductData.orderQuantity := suggestedQuantity;
     ProductData.stockStatus := stockStatus |}.

(** [productsForPurchase] of the loader as it stands before it is sorted by
    vendor: from the settings record of the shop, the products and the orders
    that the two queries return and the date three months back.  The orders
    are asked for only when there is a SKU. *)
Definition productsForPurchase (settings : Prisma.AppSettings)
    (products : list Product.t) (threeMonthsAgo : float) (orders : list Order.t)
    : list ProductData.t :=
  let '(inventoryMap, allSkus) := processProducts products in
  let salesMap :=
    if (0 <? length allSkus)%nat then processOrders threeMonthsAgo allSkus orders
    else [] in
  map (productForPurchase (asSettings settings) salesMap) inventoryMap.

End PurchaseOrders.

(** *** The purchase orders page: the component *)

(** Filter products based on selected vendor. *)
Definition filteredProducts (selectedVendor : string) (products : list ProductData.t)
    : list ProductData.t :=
  if String.eqb selectedVendor "all" then products
  else List.filter (fun item => String.eqb (ProductData.vendor item) selectedVendor) products.

(** Only show products that have suggested quantities > 0 or are low/medium
    stock. *)
Definition productsNeedingReorder (filteredProducts : list ProductData.t)
    : list ProductData.t :=
  List.filter
    (fun item =>
       (ProductData.suggestedQuantity item >? 0) ||
       negb (String.eqb (ProductData.stockStatus item) "good"))
    filteredProducts.

(** *** The purchase orders page: what the loader is given *)

(** A variant with a SKU that counts: present and not empty. *)
Definition listed (products : list Product.t) (sku : string) : Prop :=
  sku <> "" /\
  exists product variant,
    In product products /\ In variant (Product.variants product) /\
    Variant.sku variant = Some sku.

(** A line item of an order placed since [threeMonthsAgo] carries the SKU. *)
Definition sold_since (threeMonthsAgo : float) (orders : list Order.t) (sku : string) : Prop :=
  exists order lineItem,
    In order orders /\ (Order.createdAt order >=? threeMonthsAgo) = true /\
    In lineItem (Order.lineItems order) /\ LineItem.sku lineItem = Some sku.

(** The quantities of the line items that carry the SKU, in the orders placed
    since [threeMonthsAgo], in the order of the answer. *)
Definition quantitiesSold (threeMonthsAgo : float) (orders : list Order.t) (sku : string)
    : list float :=
  flat_map
    (fun order =>
       if Order.createdAt order >=? threeMonthsAgo then
         map LineItem.quantity
           (List.filter (fun lineItem => strict_eq (LineItem.sku lineItem) sku)
              (Order.lineItems order))
       else [])
    orders.

(** One step of the running total of a SKU: [(salesMap.get(sku) || 0) + quantity]. *)
Definition addQuantity (total : option float) (quantity : float) : option float :=
  Some (or_number total 0 + quantity).

(** The exact sum of the values of a list of numbers. *)
Definition sum_vals (quantities : list float) : Z :=
  fold_right Z.add 0%Z (map val quantities).

(** A list of counts: whole numbers that are not negative. *)
Definition counts (quantities : list float) : bool :=
  forallb (fun q => (0 <=? q) && (Math_ceil q =? q)) quantities.

(** *** The dashboard (app/routes/app._index.tsx): analytics of [loader] *)

Module InventoryData.
Record t := {
  id : string;
  sku : string;
  title : string;
  vendor : string;
  currentStock : float;
  salesLast90Days : float;
  salesValue90Days : float;
  salesVelocity : float;
  lastStockCheck : string
}.
End InventoryData.

Definition lowStockItems (combinedData : list InventoryData.t) : list InventoryData.t :=
  Array_sort
    (fun a b =>
       let aDays :=
         if InventoryData.salesVelocity a >? 0
         then InventoryData.currentStock a / InventoryData.salesVelocity a
         else Infinity in
       let bDays :=
         if InventoryData.salesVelocity b >? 0
         then InventoryData.currentStock b / InventoryData.salesVelocity b
         else Infinity in
       aDays - bDays)
    (List.filter
       (fun item =>
          let daysOfStock :=
            if InventoryData.salesVelocity item >? 0
            then InventoryData.currentStock item / InventoryData.salesVelocity item
            else Infinity in
          daysOfStock <? 14) (* Less than 14 days of stock *)
       combinedData).

Definition topSellingItems (combinedData : list InventoryData.t) : list InventoryData.t :=
  Array_slice0 5
    (Array_sort
       (fun a b => InventoryData.salesLast90Days b - InventoryData.salesLast90Days a)
       (List.filter (fun item => InventoryData.salesLast90Days item >? 0) combinedData)).

(* Calculate store health *)
Definition criticalItems (combinedData : list InventoryData.t) : nat :=
  length
    (List.filter
       (fun item =>
          let daysOfStock :=
            if InventoryData.salesVelocity item >? 0
            then InventoryData.currentStock item / InventoryData.salesVelocity item
            else Infinity in
          daysOfStock <? 7)
       combinedData).

Definition warningItems (combinedData : list InventoryData.t) : nat :=
  length
    (List.filter
       (fun item =>
          let daysOfStock :=
            if InventoryData.salesVelocity item >? 0
            then InventoryData.currentStock item / InventoryData.salesVelocity item
            else Infinity in
          (daysOfStock >=? 7) && (daysOfStock <? 14))
       combinedData).

Definition storeHealth (combinedData : list InventoryData.t) : string :=
  let criticalItems := criticalItems combinedData in
  let warningItems := warningItems combinedData in
  if (0 <? criticalItems)%nat then "critical"
  else if (3 <? warningItems)%nat then "warning"
  else if (0 <? warningItems)%nat then "good"
  else "excellent".

(** The days of stock of an item of the dashboard. *)
Definition itemDays (item : InventoryData.t) : float :=
  daysOfStock (InventoryData.currentStock item) (InventoryData.salesVelocity item).

(** *** Sample data for the examples *)

(** A form as the settings page submits it, and one with a threshold that is
    not a numeral. *)
Definition sample_form : FormData :=
  [("action", "update_settings"); ("stockCoverageDays", "45");
   ("lowStockThreshold", "10"); ("mediumStockThreshold", "20");
   ("reorderPoint", "0.25"); ("emailNotifications", "false")].

Definition sample_form_nan : FormData :=
  [("action", "update_settings"); ("stockCoverageDays", "45");
   ("lowStockThreshold", "ten"); ("mediumStockThreshold", "20");
   ("reorderPoint", "0.25"); ("emailNotifications", "false")].

(** What [parseInt] and [parseFloat] give on the strings of these forms. *)
Definition sample_parse (s : string) : float :=
  if String.eqb s "45" then 45
  else if String.eqb s "10" then 10
  else if String.eqb s "20" then 20
  else if String.eqb s "0.25" then 0.25
  else nan.

(** A store that takes every number but NaN. *)
Definition sample_storable (s : AppSettingsType) : bool :=
  negb (is_nan (stockCoverageDays s) || is_nan (lowStockThreshold s) ||
        is_nan (mediumStockThreshold s) || is_nan (reorderPoint s)).

Definition sample_db : Db :=
  {| appSettings := ∅; clock := 0; cuid := fun _ => "c0"; serial := 0 |}.

Definition sample_settings : Prisma.AppSettings :=
  {| Prisma.id := "c0"; Prisma.shop := "demo.myshopify.com";
     Prisma.stockCoverageDays := 30; Prisma.lowStockThreshold := 7;
     Prisma.mediumStockThreshold := 14; Prisma.reorderPoint := 0.1;
     Prisma.emailNotifications := true; Prisma.createdAt := 0; Prisma.updatedAt := 0 |}.

(** One product with a sold and an unsold variant, and an order of 90 units. *)
Definition sample_products : list Product.t :=
  [{| Product.id := "p1"; Product.title := Some "Widget"; Product.vendor := Some "Acme";
      Product.variants :=
        [{| Variant.id := "v1"; Variant.sku := Some "W-1"; Variant.price := Some "0.25";
            Variant.inventoryQuantity := Some 5 |};
         {| Variant.id := "v2"; Variant.sku := Some "W-2"; Variant.price := None;
            Variant.inventoryQuantity := None |}] |}].

Definition sample_orders : list Order.t :=
  [{| Order.createdAt := 2000;
      Order.lineItems :=
        [{| LineItem.sku := Some "W-1"; LineItem.quantity := 60 |};
         {| LineItem.sku := Some "W-1"; LineItem.quantity := 30 |}] |}].

(** ** Part II: the binary64 rounding function *)

Local Open Scope Z_scope.

(** *** Powers of two *)

Lemma pow2_pos n : 0 <= n -> 0 < 2 ^ n.
Proof. intros; apply Z.pow_pos_nonneg; lia. Qed.

Lemma inf_val_pos : 0 < inf_val.
Proof. unfold inf_val. apply pow2_pos. lia. Qed.

Lemma pow2_le a b : 0 <= a <= b -> 2 ^ a <= 2 ^ b.
Proof. intros; apply Z.pow_le_mono_r; lia. Qed.

Lemma pow2_add a b : 0 <= a -> 0 <= b -> 2 ^ (a + b) = 2 ^ a * 2 ^ b.
Proof. intros; apply Z.pow_add_r; lia. Qed.

Lemma pow2_succ a : 0 <= a -> 2 ^ (a + 1) = 2 * 2 ^ a.
Proof. intros; rewrite pow2_add by lia; change (2 ^ 1) with 2; lia. Qed.

(** *** Rounding a quotient to the nearest integer, ties to even *)

Lemma rne_0 m : rne m 0 = m.
Proof.
  unfold rne. change (2 ^ 0) with 1. rewrite Z.mod_1_r, Z.div_1_r. reflexivity.
Qed.

Lemma rne_bounds m n : 0 <= n -> m / 2 ^ n <= rne m n <= m / 2 ^ n + 1.
Proof.
  intros Hn. unfold rne.
  destruct (2 * (m mod 2 ^ n) ?= 2 ^ n); [destruct (Z.even _)|..]; lia.
Qed.

Lemma rne_mono m1 m2 n : 0 <= n -> m1 <= m2 -> rne m1 n <= rne m2 n.
Proof.
  intros Hn Hm.
  pose proof (pow2_pos n Hn) as HB.
  pose proof (Z.div_le_mono m1 m2 (2 ^ n) HB Hm) as Hq.
  pose proof (rne_bounds m1 n Hn) as H1.
  pose proof (rne_bounds m2 n Hn) as H2.
  destruct (Z.eq_dec (m1 / 2 ^ n) (m2 / 2 ^ n)) as [Heq|Hne]; [|lia].
  assert (Hr : m1 mod 2 ^ n <= m2 mod 2 ^ n).
  { pose proof (Z.div_mod m1 (2 ^ n)). pose proof (Z.div_mod m2 (2 ^ n)). nia. }
  unfold rne. rewrite <- Heq.
  destruct (Z.compare_spec (2 * (m1 mod 2 ^ n)) (2 ^ n));
    destruct (Z.compare_spec (2 * (m2 mod 2 ^ n)) (2 ^ n));
    destruct (Z.even (m1 / 2 ^ n)); lia.
Qed.

Lemma rne_upper m n j : 0 <= n -> 0 <= j -> m < 2 ^ (n + j) -> rne m n <= 2 ^ j.
Proof.
  intros Hn Hj Hm. pose proof (rne_bounds m n Hn).
  rewrite pow2_add in Hm by lia.
  assert (m / 2 ^ n < 2 ^ j).
  { apply Z.div_lt_upper_bound; [apply pow2_pos; lia | lia]. }
  lia.
Qed.

Lemma rne_lower m n j : 0 <= n -> 0 <= j -> 2 ^ (n + j) <= m -> 2 ^ j <= rne m n.
Proof.
  intros Hn Hj Hm. pose proof (rne_bounds m n Hn).
  rewrite pow2_add in Hm by lia.
  assert (2 ^ j <= m / 2 ^ n).
  { apply Z.div_le_lower_bound; [apply pow2_pos; lia | lia]. }
  lia.
Qed.

Lemma rne_scale m n j : 0 <= n -> 0 <= j -> rne (m * 2 ^ j) (n + j) = rne m n.
Proof.
  intros Hn Hj. unfold rne.
  pose proof (pow2_pos n Hn). pose proof (pow2_pos j Hj).
  rewrite pow2_add by lia.
  rewrite Z.div_mul_cancel_r by lia.
  rewrite Z.mul_mod_distr_r by lia.
  assert (Hc : (2 * (m mod 2 ^ n * 2 ^ j) ?= 2 ^ n * 2 ^ j) = (2 * (m mod 2 ^ n) ?= 2 ^ n)).
  { destruct (Z.compare_spec (2 * (m mod 2 ^ n)) (2 ^ n)) as [E|E|E];
      [apply Z.compare_eq_iff | apply Z.compare_lt_iff | apply Z.compare_gt_iff]; nia. }
  rewrite Hc. reflexivity.
Qed.

(** *** The number of binary digits *)

Lemma Zdigits2_log2 p : Zdigits2 (Zpos p) = Z.log2 (Zpos p) + 1.
Proof.
  simpl. induction p; simpl; try lia.
  - destruct p; simpl in *; lia.
  - destruct p; simpl in *; lia.
Qed.

Lemma Zdigits2_bounds m : 0 < m -> 2 ^ (Zdigits2 m - 1) <= m < 2 ^ Zdigits2 m.
Proof.
  intros Hm. destruct m as [|p|p]; try lia.
  rewrite Zdigits2_log2. pose proof (Z.log2_spec (Zpos p) Hm).
  replace (Z.log2 (Z.pos p) + 1 - 1) with (Z.log2 (Z.pos p)) by lia.
  replace (Z.log2 (Z.pos p) + 1) with (Z.succ (Z.log2 (Z.pos p))) by lia. lia.
Qed.

Lemma Zdigits2_pos m : 0 < m -> 0 < Zdigits2 m.
Proof. destruct m; simpl; lia. Qed.

Lemma Zdigits2_unique m d : 2 ^ (d - 1) <= m < 2 ^ d -> 0 < m -> Zdigits2 m = d.
Proof.
  intros H Hm. destruct m as [|p|p]; try lia.
  assert (Hd : 0 < d).
  { destruct (Z_lt_le_dec 0 d) as [|Hle]; [assumption | exfalso].
    destruct (Z.eq_dec d 0) as [->|Hne]; [simpl in H; lia|].
    rewrite (Z.pow_neg_r 2 d) in H by lia. lia. }
  rewrite Zdigits2_log2.
  pose proof (Z.log2_unique (Zpos p) (d - 1)) as Hu.
  replace (Z.succ (d - 1)) with d in Hu by lia. lia.
Qed.

Lemma Zdigits2_mono m1 m2 : 0 < m1 <= m2 -> Zdigits2 m1 <= Zdigits2 m2.
Proof.
  intros H. destruct m1 as [|p1|p1], m2 as [|p2|p2]; try lia.
  rewrite !Zdigits2_log2. pose proof (Z.log2_le_mono (Zpos p1) (Zpos p2)). lia.
Qed.

Lemma Zdigits2_scale m j : 0 < m -> 0 <= j -> Zdigits2 (m * 2 ^ j) = Zdigits2 m + j.
Proof.
  intros Hm Hj. pose proof (Zdigits2_bounds m Hm) as Hb.
  pose proof (Zdigits2_pos m Hm).
  pose proof (pow2_pos j Hj).
  apply Zdigits2_unique; [|nia].
  replace (Zdigits2 m + j - 1) with ((Zdigits2 m - 1) + j) by lia.
  rewrite !pow2_add by lia. nia.
Qed.

(** *** The rounding function is monotone and scale invariant *)

Lemma fexp64 x : fexp prec emax x = Z.max (x - 53) (-1074).
Proof. reflexivity. Qed.

Lemma rne_nonneg m n : 0 <= m -> 0 <= n -> 0 <= rne m n.
Proof.
  intros Hm Hn. pose proof (rne_bounds m n Hn).
  pose proof (Z.div_pos m (2 ^ n) Hm (pow2_pos n Hn)). lia.
Qed.

Lemma rne_0_l n : rne 0 n = 0.
Proof.
  unfold rne. rewrite Zmod_0_l, Zdiv_0_l.
  pose proof (Z.pow_nonneg 2 n ltac:(lia)).
  destruct (Z.compare_spec (2 * 0) (2 ^ n)); try reflexivity; lia.
Qed.

Lemma RN_0 e : RN 0 e = 0.
Proof.
  unfold RN. rewrite rne_0_l.
  assert (0 < inf_val) by (first [exact inf_val_pos | apply pow2_pos; lia]). lia.
Qed.

Lemma RN_nonneg m e : 0 <= m -> e <= fexp prec emax (Zdigits2 m + e) -> 0 <= RN m e.
Proof.
  intros Hm He. unfold RN.
  assert (0 < inf_val) by (first [exact inf_val_pos | apply pow2_pos; lia]).
  pose proof (rne_nonneg m (fexp prec emax (Zdigits2 m + e) - e) Hm ltac:(lia)).
  assert (0 <= 2 ^ (fexp prec emax (Zdigits2 m + e) + 1074)) by (apply Z.pow_nonneg; lia).
  apply Z.min_glb; nia.
Qed.

Lemma RN_le_inf m e : RN m e <= inf_val.
Proof. unfold RN. apply Z.le_min_l. Qed.

Lemma rne_le_53 m e :
  0 < m -> e <= fexp prec emax (Zdigits2 m + e) ->
  rne m (fexp prec emax (Zdigits2 m + e) - e) <= 2 ^ 53.
Proof.
  intros Hm He. rewrite fexp64 in *.
  pose proof (Zdigits2_bounds m Hm) as [_ Hb]. pose proof (Zdigits2_pos m Hm).
  apply rne_upper; try lia.
  eapply Z.lt_le_trans; [exact Hb|]. apply pow2_le. lia.
Qed.

Lemma rne_ge_52 m e :
  0 < m -> e <= fexp prec emax (Zdigits2 m + e) ->
  -1074 < fexp prec emax (Zdigits2 m + e) ->
  2 ^ 52 <= rne m (fexp prec emax (Zdigits2 m + e) - e).
Proof.
  intros Hm He Hn. rewrite fexp64 in *.
  pose proof (Zdigits2_bounds m Hm) as [Hb _]. pose proof (Zdigits2_pos m Hm).
  apply rne_lower; try lia.
  replace (Z.max (Zdigits2 m + e - 53) (-1074) - e + 52) with (Zdigits2 m - 1) by lia.
  exact Hb.
Qed.

Lemma RN_mono m1 m2 e :
  0 < m1 <= m2 -> e <= fexp prec emax (Zdigits2 m1 + e) -> RN m1 e <= RN m2 e.
Proof.
  intros Hm He.
  pose proof (Zdigits2_mono m1 m2 Hm) as Hd.
  assert (HE : fexp prec emax (Zdigits2 m1 + e) <= fexp prec emax (Zdigits2 m2 + e))
    by (rewrite !fexp64; lia).
  assert (He2 : e <= fexp prec emax (Zdigits2 m2 + e)) by lia.
  pose proof (rne_le_53 m1 e ltac:(lia) He) as H53.
  unfold RN. apply Z.min_le_compat_l.
  set (E1 := fexp prec emax (Zdigits2 m1 + e)) in *.
  set (E2 := fexp prec emax (Zdigits2 m2 + e)) in *.
  assert (HE1 : -1074 <= E1) by (unfold E1; rewrite fexp64; lia).
  destruct (Z.eq_dec E1 E2) as [Heq|Hne].
  - rewrite <- Heq. apply Z.mul_le_mono_nonneg_r; [apply Z.pow_nonneg; lia|].
    apply rne_mono; lia.
  - assert (Hlt : E1 < E2) by lia.
    pose proof (rne_ge_52 m2 e ltac:(lia) He2 ltac:(fold E2; lia)) as H52. fold E2 in H52.
    pose proof (pow2_pos (E1 + 1074) ltac:(lia)) as Hp1.
    pose proof (pow2_pos (E2 + 1074) ltac:(lia)) as Hp2.
    apply Z.le_trans with (2 ^ 53 * 2 ^ (E1 + 1074)); [nia|].
    apply Z.le_trans with (2 ^ 52 * 2 ^ (E2 + 1074)); [|nia].
    rewrite <- !pow2_add by lia. apply pow2_le. lia.
Qed.

Lemma RN_scale m e j :
  0 < m -> 0 <= j -> e <= fexp prec emax (Zdigits2 m + e) ->
  RN (m * 2 ^ j) (e - j) = RN m e.
Proof.
  intros Hm Hj He. unfold RN.
  rewrite Zdigits2_scale by lia.
  replace (Zdigits2 m + j + (e - j)) with (Zdigits2 m + e) by lia.
  set (E := fexp prec emax (Zdigits2 m + e)) in *.
  replace (E - (e - j)) with ((E - e) + j) by lia.
  rewrite rne_scale by lia. reflexivity.
Qed.

Lemma RN_mono0 m1 m2 e : 0 <= m1 <= m2 -> e <= -1074 -> RN m1 e <= RN m2 e.
Proof.
  intros Hm He.
  destruct (Z.eq_dec m1 0) as [->|Hne].
  - rewrite RN_0. apply RN_nonneg; [lia | rewrite fexp64; lia].
  - apply RN_mono; [lia | rewrite fexp64; lia].
Qed.

Lemma sRN_mono z1 z2 e : z1 <= z2 -> e <= -1074 -> sRN z1 e <= sRN z2 e.
Proof.
  intros Hz He. unfold sRN.
  destruct (Z.ltb_spec z1 0), (Z.ltb_spec z2 0); try lia.
  - pose proof (RN_mono0 (- z2) (- z1) e ltac:(lia) He). lia.
  - pose proof (RN_nonneg (- z1) e ltac:(lia) ltac:(rewrite fexp64; lia)).
    pose proof (RN_nonneg z2 e ltac:(lia) ltac:(rewrite fexp64; lia)). lia.
  - apply RN_mono0; lia.
Qed.

(** *** The shift register of [SpecFloat] computes [rne] *)

Lemma mk_rec_0 M : mk_rec M 0 = {| shr_m := M; shr_r := false; shr_s := false |}.
Proof.
  unfold mk_rec. change (2 ^ 0) with 1. rewrite Z.div_1_r, Z.mod_1_r. reflexivity.
Qed.

Lemma shr_1_nonneg m r s :
  0 <= m ->
  shr_1 {| shr_m := m; shr_r := r; shr_s := s |} =
  {| shr_m := m / 2; shr_r := Z.odd m; shr_s := r || s |}.
Proof.
  intros Hm. rewrite <- Z.div2_div.
  destruct m as [|[p|p|]|p]; try reflexivity. lia.
Qed.

Lemma shr_1_mk_rec M k : 0 <= M -> 0 <= k -> shr_1 (mk_rec M k) = mk_rec M (k + 1).
Proof.
  intros HM Hk. unfold mk_rec.
  pose proof (pow2_pos k Hk) as HB.
  rewrite shr_1_nonneg by (apply Z.div_pos; lia).
  rewrite pow2_succ by lia.
  replace (2 * 2 ^ k) with (2 ^ k * 2) by ring.
  rewrite Z.rem_mul_r by lia.
  rewrite <- Z.div_div by lia.
  pose proof (Z.mod_pos_bound M (2 ^ k) HB) as Hr.
  rewrite (Zmod_odd (M / 2 ^ k)).
  set (q := M / 2 ^ k). set (r := M mod 2 ^ k) in *.
  f_equal.
  - destruct (Z.odd q);
      [destruct (Z.leb_spec (2 ^ k * 2) (2 * (r + 2 ^ k * 1)))
      |destruct (Z.leb_spec (2 ^ k * 2) (2 * (r + 2 ^ k * 0)))];
      try reflexivity; lia.
  - destruct (Z.odd q).
    + destruct (Z.leb_spec (2 ^ k) (2 * r));
        destruct (Z.eqb_spec r 0); destruct (Z.eqb_spec (2 * r) (2 ^ k));
        destruct (Z.eqb_spec (r + 2 ^ k * 1) 0);
        destruct (Z.eqb_spec (2 * (r + 2 ^ k * 1)) (2 ^ k * 2));
        simpl; try reflexivity; lia.
    + destruct (Z.leb_spec (2 ^ k) (2 * r));
        destruct (Z.eqb_spec r 0); destruct (Z.eqb_spec (2 * r) (2 ^ k));
        destruct (Z.eqb_spec (r + 2 ^ k * 0) 0);
        destruct (Z.eqb_spec (2 * (r + 2 ^ k * 0)) (2 ^ k * 2));
        simpl; try reflexivity; lia.
Qed.

Lemma iter_pos_shr_1 p M k :
  0 <= M -> 0 <= k -> iter_pos shr_1 p (mk_rec M k) = mk_rec M (k + Zpos p).
Proof.
  intros HM. revert k. induction p as [p IH|p IH|]; intros k Hk; cbn [iter_pos].
  - rewrite shr_1_mk_rec, !IH by lia. f_equal. lia.
  - rewrite !IH by lia. f_equal. lia.
  - apply shr_1_mk_rec; lia.
Qed.

Lemma shr_mk_rec M e n :
  0 <= M -> shr (mk_rec M 0) e n = (mk_rec M (Z.max 0 n), e + Z.max 0 n).
Proof.
  intros HM. destruct n as [|p|p]; unfold shr.
  - rewrite Z.add_0_r. reflexivity.
  - rewrite iter_pos_shr_1 by lia. reflexivity.
  - rewrite Z.add_0_r. reflexivity.
Qed.

Lemma shr_fexp_exact M e :
  0 <= M ->
  shr_fexp prec emax M e loc_Exact =
  (mk_rec M (Z.max 0 (fexp prec emax (Zdigits2 M + e) - e)),
   e + Z.max 0 (fexp prec emax (Zdigits2 M + e) - e)).
Proof.
  intros HM. unfold shr_fexp. simpl shr_record_of_loc.
  rewrite <- mk_rec_0. apply shr_mk_rec; lia.
Qed.

Lemma rne_of_rec M n :
  0 <= n ->
  round_nearest_even (shr_m (mk_rec M n)) (loc_of_shr_record (mk_rec M n)) = rne M n.
Proof.
  intros Hn. unfold mk_rec, rne, loc_of_shr_record, round_nearest_even; simpl.
  pose proof (pow2_pos n Hn) as HB.
  pose proof (Z.mod_pos_bound M (2 ^ n) HB) as Hr.
  destruct (Z.leb_spec (2 ^ n) (2 * (M mod 2 ^ n)));
    destruct (Z.eqb_spec (M mod 2 ^ n) 0);
    destruct (Z.eqb_spec (2 * (M mod 2 ^ n)) (2 ^ n));
    destruct (Z.compare_spec (2 * (M mod 2 ^ n)) (2 ^ n)); simpl; try reflexivity; lia.
Qed.

(** *** Valid mantissas and exponents *)

Lemma Zdigits2_le m k : 0 < m < 2 ^ k -> 0 <= k -> Zdigits2 m <= k.
Proof.
  intros [Hm Hk] Hk0. pose proof (Zdigits2_bounds m Hm) as [Hb _].
  pose proof (Zdigits2_pos m Hm).
  destruct (Z_le_gt_dec (Zdigits2 m) k) as [|Hgt]; [assumption|exfalso].
  pose proof (pow2_le k (Zdigits2 m - 1) ltac:(lia)). lia.
Qed.

Lemma Zdigits2_gt m k : 2 ^ k <= m -> 0 <= k -> k < Zdigits2 m.
Proof.
  intros Hk Hk0. pose proof (pow2_pos k Hk0).
  pose proof (Zdigits2_bounds m ltac:(lia)) as [_ Hb].
  pose proof (Zdigits2_pos m ltac:(lia)).
  destruct (Z_lt_le_dec k (Zdigits2 m)) as [|Hle]; [assumption|exfalso].
  pose proof (pow2_le (Zdigits2 m) k ltac:(lia)). lia.
Qed.

Lemma valid_finite s p E :
  -1074 <= E <= 971 -> Zpos p < 2 ^ 53 -> (-1074 < E -> 2 ^ 52 <= Zpos p) ->
  valid_binary (S754_finite s p E) = true.
Proof.
  intros HE Hlt Hge. unfold valid_binary, bounded, canonical_mantissa.
  change (Z.pos (digits2_pos p)) with (Zdigits2 (Zpos p)).
  rewrite fexp64.
  pose proof (Zdigits2_le (Zpos p) 53 ltac:(lia) ltac:(lia)) as Hd.
  apply andb_true_intro; split; [apply Z.eqb_eq | apply Z.leb_le; change (emax - prec) with 971; lia].
  destruct (Z.eq_dec E (-1074)) as [->|Hne]; [lia|].
  pose proof (Zdigits2_gt (Zpos p) 52 ltac:(lia) ltac:(lia)). lia.
Qed.

Lemma valid_finite_inv s p E :
  valid_binary (S754_finite s p E) = true ->
  -1074 <= E <= 971 /\ Zpos p < 2 ^ 53 /\ (-1074 < E -> 2 ^ 52 <= Zpos p).
Proof.
  unfold valid_binary, bounded, canonical_mantissa.
  change (Z.pos (digits2_pos p)) with (Zdigits2 (Zpos p)).
  rewrite fexp64. intros H. apply andb_prop in H as [H1 H2].
  apply Z.eqb_eq in H1. apply Z.leb_le in H2. change (emax - prec) with 971 in H2.
  pose proof (Zdigits2_bounds (Zpos p) ltac:(lia)) as [Hb1 Hb2].
  pose proof (Zdigits2_pos (Zpos p) ltac:(lia)).
  repeat split; try lia.
  - eapply Z.lt_le_trans; [exact Hb2|]. apply pow2_le. lia.
  - intros HE. replace (Zdigits2 (Zpos p)) with 53 in Hb1 by lia. exact Hb1.
Qed.

Lemma finite_val_lt p E : Zpos p < 2 ^ 53 -> -1074 <= E <= 971 -> Zpos p * 2 ^ (E + 1074) < inf_val.
Proof.
  intros Hp HE. replace (inf_val) with (2 ^ 53 * 2 ^ 2045) by (unfold inf_val; rewrite <- pow2_add by lia; reflexivity).
  pose proof (pow2_le (E + 1074) 2045 ltac:(lia)).
  pose proof (pow2_pos (E + 1074) ltac:(lia)).
  generalize dependent (2 ^ 2045). generalize dependent (2 ^ 53). generalize dependent (2 ^ (E + 1074)).
  intros; nia.
Qed.

Lemma overflow_val_ge M E : 2 ^ 52 <= M -> 971 < E -> inf_val <= M * 2 ^ (E + 1074).
Proof.
  intros HM HE. replace (inf_val) with (2 ^ 52 * 2 ^ 2046) by (unfold inf_val; rewrite <- pow2_add by lia; reflexivity).
  pose proof (pow2_le 2046 (E + 1074) ltac:(lia)).
  pose proof (pow2_pos 2046 ltac:(lia)). pose proof (pow2_pos 52 ltac:(lia)).
  generalize dependent (2 ^ 2046). generalize dependent (2 ^ 52). generalize dependent (2 ^ (E + 1074)).
  intros; nia.
Qed.

(** *** [binary_round_aux], [binary_round] and [binary_normalize] round
    to nearest *)

Lemma binary_round_aux_spec s m e :
  e <= fexp prec emax (Zdigits2 (Zpos m) + e) ->
  rounds_to s (RN (Zpos m) e) (binary_round_aux prec emax s (Zpos m) e loc_Exact).
Proof.
  intros He.
  pose proof (rne_le_53 (Zpos m) e ltac:(lia) He) as H53.
  pose proof (rne_ge_52 (Zpos m) e ltac:(lia) He) as H52.
  pose proof (rne_nonneg (Zpos m) (fexp prec emax (Zdigits2 (Zpos m) + e) - e) ltac:(lia) ltac:(lia)) as H0.
  unfold binary_round_aux, RN.
  rewrite shr_fexp_exact by lia. cbv beta iota.
  set (E := fexp prec emax (Zdigits2 (Zpos m) + e)) in *.
  assert (HE : -1074 <= E) by (unfold E; rewrite fexp64; lia).
  rewrite Z.max_r by lia. replace (e + (E - e)) with E by lia.
  rewrite rne_of_rec by lia.
  set (M1 := rne (Zpos m) (E - e)) in *.
  rewrite shr_fexp_exact by lia. cbv beta iota.
  clearbody M1 E. clear He.
  destruct (Z.eq_dec M1 0) as [->|HM0].
  - (* rounds to zero *)
    change (Zdigits2 0) with 0. rewrite fexp64, Z.max_l by lia. rewrite mk_rec_0.
    cbn [shr_m]. split; [reflexivity|]. split; [reflexivity|].
    pose proof inf_val_pos. lia.
  - destruct (Z.eq_dec M1 (2 ^ 53)) as [->|HM53].
    + (* carry into the next binade *)
      change (Zdigits2 (2 ^ 53)) with 54. rewrite fexp64.
      replace (Z.max 0 (Z.max (54 + E - 53) (-1074) - E)) with 1 by lia.
      change (shr_m (mk_rec (2 ^ 53) 1)) with (Zpos (Z.to_pos (2 ^ 52))).
      change (emax - prec) with 971.
      pose proof (pow2_pos (E + 1074) ltac:(lia)).
      destruct (Z.leb_spec (E + 1) 971).
      * split; [apply valid_finite; change (Zpos (Z.to_pos (2 ^ 52))) with (2 ^ 52); lia|].
        split; [reflexivity|].
        change (Zpos (Z.to_pos (2 ^ 52))) with (2 ^ 52).
        replace (E + 1 + 1074) with ((E + 1074) + 1) by lia. rewrite pow2_succ by lia.
        change (2 ^ 53) with (2 * 2 ^ 52).
        assert (Hlt : 2 ^ 52 * (2 * 2 ^ (E + 1074)) < inf_val).
        { replace (2 * 2 ^ (E + 1074)) with (2 ^ ((E + 1) + 1074))
            by (replace (E + 1 + 1074) with ((E + 1074) + 1) by lia; rewrite pow2_succ by lia; reflexivity).
          apply (finite_val_lt (Z.to_pos (2 ^ 52))); [reflexivity | lia]. }
        lia.
      * split; [reflexivity|]. split; [reflexivity|].
        pose proof (overflow_val_ge (2 ^ 52) (E + 1) ltac:(lia) ltac:(lia)) as Hov.
        replace (E + 1 + 1074) with ((E + 1074) + 1) in Hov by lia.
        rewrite pow2_succ in Hov by lia. change (2 ^ 53) with (2 * 2 ^ 52). lia.
    + (* the mantissa fits *)
      assert (HM1 : 0 < M1 < 2 ^ 53) by lia.
      pose proof (Zdigits2_le M1 53 HM1 ltac:(lia)) as Hd.
      rewrite fexp64. rewrite Z.max_l by lia. rewrite mk_rec_0. cbn [shr_m].
      rewrite Z.add_0_r.
      destruct M1 as [|p|p]; try lia.
      change (emax - prec) with 971.
      destruct (Z.leb_spec E 971).
      * split; [apply valid_finite; lia|]. split; [reflexivity|].
        pose proof (finite_val_lt p E ltac:(lia) ltac:(lia)). lia.
      * split; [reflexivity|]. split; [reflexivity|].
        pose proof (overflow_val_ge (Zpos p) E ltac:(lia) ltac:(lia)). lia.
Qed.

Lemma iter_xO_val m d : Zpos (Pos.iter xO m d) = Zpos m * 2 ^ Zpos d.
Proof.
  induction d as [|d IH] using Pos.peano_ind.
  - simpl. lia.
  - rewrite Pos.iter_succ, Pos2Z.inj_xO, IH, Pos2Z.inj_succ.
    rewrite <- Z.add_1_r, pow2_succ by lia. ring.
Qed.

Lemma shl_align_spec mx ex ex' :
  Zpos (fst (shl_align mx ex ex')) = Zpos mx * 2 ^ (ex - Z.min ex ex') /\
  snd (shl_align mx ex ex') = Z.min ex ex'.
Proof.
  unfold shl_align. destruct (ex' - ex) as [|d|d] eqn:Hd; cbn [fst snd].
  - rewrite Z.min_l by lia. rewrite Z.sub_diag. simpl. lia.
  - rewrite Z.min_l by lia. rewrite Z.sub_diag. simpl. lia.
  - rewrite Z.min_r by lia. rewrite iter_xO_val.
    replace (ex - ex') with (Zpos d) by lia. auto.
Qed.

Lemma binary_round_spec s m e e0 :
  e0 <= e -> e0 <= -1074 ->
  rounds_to s (RN (Zpos m * 2 ^ (e - e0)) e0) (binary_round prec emax s m e).
Proof.
  intros He0 Hmin. unfold binary_round.
  pose proof (shl_align_spec m e (fexp prec emax (Zpos (digits2_pos m) + e))) as [Hm He].
  destruct (shl_align m e _) as [mz ez]. cbn [fst snd] in Hm, He.
  change (Zpos (digits2_pos m)) with (Zdigits2 (Zpos m)) in *.
  set (E := fexp prec emax (Zdigits2 (Zpos m) + e)) in *.
  assert (HE : -1074 <= E) by (unfold E; rewrite fexp64; lia).
  assert (Hd : Zdigits2 (Zpos mz) = Zdigits2 (Zpos m) + (e - ez)).
  { rewrite Hm, He. apply Zdigits2_scale; lia. }
  assert (Hpre : ez <= fexp prec emax (Zdigits2 (Zpos mz) + ez)).
  { rewrite Hd. replace (Zdigits2 (Zpos m) + (e - ez) + ez) with (Zdigits2 (Zpos m) + e) by lia.
    fold E. lia. }
  pose proof (binary_round_aux_spec s mz ez Hpre) as Hr.
  rewrite <- (RN_scale (Zpos mz) ez (ez - e0)) in Hr by lia.
  replace (ez - (ez - e0)) with e0 in Hr by lia.
  replace (Zpos mz * 2 ^ (ez - e0)) with (Zpos m * 2 ^ (e - e0)) in Hr; [exact Hr|].
  rewrite Hm, <- He, <- Z.mul_assoc, <- pow2_add by lia.
  f_equal. f_equal. lia.
Qed.

Lemma binary_normalize_spec z e e0 sz :
  e0 <= e -> e0 <= -1074 ->
  match z with
  | 0 => binary_normalize prec emax z e sz = S754_zero sz
  | Zpos p => rounds_to false (RN (z * 2 ^ (e - e0)) e0) (binary_normalize prec emax z e sz)
  | Zneg p => rounds_to true (RN (- z * 2 ^ (e - e0)) e0) (binary_normalize prec emax z e sz)
  end.
Proof.
  intros He Hmin. destruct z as [|p|p]; cbn [binary_normalize].
  - reflexivity.
  - apply binary_round_spec; assumption.
  - change (- Zneg p) with (Zpos p). apply binary_round_spec; assumption.
Qed.

Lemma RN_canonical m e :
  0 < m -> e = fexp prec emax (Zdigits2 m + e) -> e <= 971 ->
  RN (m * 2 ^ (e + 1074)) (-1074) = m * 2 ^ (e + 1074).
Proof.
  intros Hm He Hmax.
  assert (He' : -1074 <= e) by (rewrite He, fexp64; lia).
  pose proof (RN_scale m e (e + 1074) Hm ltac:(lia) ltac:(lia)) as Hs.
  replace (e - (e + 1074)) with (-1074) in Hs by lia. rewrite Hs.
  unfold RN. rewrite <- He, Z.sub_diag, rne_0.
  assert (Hlt : m < 2 ^ 53).
  { pose proof (Zdigits2_bounds m Hm) as [_ Hb]. pose proof (Zdigits2_pos m Hm).
    eapply Z.lt_le_trans; [exact Hb|]. apply pow2_le. rewrite fexp64 in He. lia. }
  destruct m as [|p|p]; try lia.
  pose proof (finite_val_lt p e Hlt ltac:(lia)). lia.
Qed.

(** *** Comparison of valid numbers is comparison of their values *)
Lemma val_lt_exp m1 e1 m2 e2 :
  m1 < 2 ^ 53 -> 2 ^ 52 <= m2 -> -1074 <= e1 < e2 ->
  m1 * 2 ^ (e1 + 1074) < m2 * 2 ^ (e2 + 1074).
Proof.
  intros H1 H2 He.
  pose proof (pow2_pos (e1 + 1074) ltac:(lia)) as Hp.
  pose proof (pow2_le (e1 + 1074 + 1) (e2 + 1074) ltac:(lia)) as Hle.
  rewrite pow2_succ in Hle by lia.
  change (2 ^ 53) with (2 * 2 ^ 52) in H1.
  pose proof (pow2_pos 52 ltac:(lia)) as Ha.
  generalize dependent (2 ^ 52). generalize dependent (2 ^ (e1 + 1074)).
  generalize dependent (2 ^ (e2 + 1074)). intros q p Hp Hle a H1 H2 Ha.
  apply Z.lt_le_trans with (2 * a * p); [nia|].
  apply Z.le_trans with (a * q); nia.
Qed.

Lemma finite_cmp m1 e1 m2 e2 s1 s2 :
  valid_binary (S754_finite s1 m1 e1) = true ->
  valid_binary (S754_finite s2 m2 e2) = true ->
  match e1 ?= e2 with
  | Lt => Lt
  | Gt => Gt
  | Eq => Pos.compare_cont Eq m1 m2
  end = (Zpos m1 * 2 ^ (e1 + 1074) ?= Zpos m2 * 2 ^ (e2 + 1074)).
Proof.
  intros H1 H2.
  apply valid_finite_inv in H1 as (He1 & Hm1 & Hn1).
  apply valid_finite_inv in H2 as (He2 & Hm2 & Hn2).
  destruct (Z.compare_spec e1 e2) as [Heq|Hlt|Hgt].
  - subst e2. change (Pos.compare_cont Eq m1 m2) with (Zpos m1 ?= Zpos m2).
    pose proof (pow2_pos (e1 + 1074) ltac:(lia)).
    destruct (Z.compare_spec (Zpos m1) (Zpos m2));
      symmetry; [apply Z.compare_eq_iff | apply Z.compare_lt_iff | apply Z.compare_gt_iff]; nia.
  - symmetry. apply Z.compare_lt_iff. apply val_lt_exp; lia.
  - symmetry. apply Z.compare_gt_iff. apply val_lt_exp; lia.
Qed.

Lemma SFval_bounds x :
  valid_binary x = true -> - inf_val <= SFval x <= inf_val.
Proof.
  intros Hv. pose proof inf_val_pos.
  destruct x as [s|s| |s m e]; simpl; try lia.
  - destruct s; simpl; lia.
  - apply valid_finite_inv in Hv as (He & Hm & _).
    pose proof (finite_val_lt m e Hm He).
    pose proof (pow2_pos (e + 1074) ltac:(lia)).
    destruct s; simpl; nia.
Qed.

Lemma SFval_finite s m e :
  valid_binary (S754_finite s m e) = true ->
  0 < Zpos m * 2 ^ (e + 1074) < inf_val.
Proof.
  intros Hv. apply valid_finite_inv in Hv as (He & Hm & _).
  pose proof (finite_val_lt m e Hm He).
  pose proof (pow2_pos (e + 1074) ltac:(lia)). nia.
Qed.

Lemma SFcompare_val x y :
  valid_binary x = true -> valid_binary y = true ->
  is_number x -> is_number y ->
  SFcompare x y = Some (SFval x ?= SFval y).
Proof.
  intros Hx Hy Nx Ny. pose proof inf_val_pos as Hinf.
  destruct x as [s1|s1| |s1 m1 e1]; [| |exfalso; apply Nx; reflexivity|];
  destruct y as [s2|s2| |s2 m2 e2]; try (exfalso; apply Ny; reflexivity);
  try pose proof (SFval_finite _ _ _ Hx) as Hvx;
  try pose proof (SFval_finite _ _ _ Hy) as Hvy;
  try pose proof (finite_cmp _ _ _ _ _ _ Hx Hy) as Hc;
  cbn [SFcompare SFval]; f_equal; symmetry.
  all: try (destruct s1; destruct s2; cbn [cond_Zopp];
       first [ apply Z.compare_eq_iff; lia | apply Z.compare_lt_iff; lia
             | apply Z.compare_gt_iff; lia ]; fail).
  all: try (destruct s1; cbn [cond_Zopp];
       first [ apply Z.compare_eq_iff; lia | apply Z.compare_lt_iff; lia
             | apply Z.compare_gt_iff; lia ]; fail).
  all: try (destruct s2; cbn [cond_Zopp];
       first [ apply Z.compare_eq_iff; lia | apply Z.compare_lt_iff; lia
             | apply Z.compare_gt_iff; lia ]; fail).
  destruct s1, s2; cbn [cond_Zopp].
  - rewrite Z.compare_opp, (Z.compare_antisym (Zpos m1 * 2 ^ (e1 + 1074))), <- Hc.
    destruct (e1 ?= e2); reflexivity.
  - apply Z.compare_lt_iff; lia.
  - apply Z.compare_gt_iff; lia.
  - rewrite <- Hc. reflexivity.
Qed.

(** *** Multiplication *)

Lemma rounds_to_valid s V r : rounds_to s V r -> valid_number r /\ SFval r = cond_Zopp s V.
Proof.
  intros [Hv Hr]. destruct r as [s'|s'| |s' m e]; try contradiction;
    destruct Hr as [-> HV]; (split; [split; [assumption | discriminate]|]);
    cbn [SFval]; rewrite HV; destruct s; reflexivity.
Qed.

Lemma valid_number_finite s m e :
  valid_number (S754_finite s m e) ->
  -1074 <= e <= 971 /\ e = fexp prec emax (Zdigits2 (Zpos m) + e) /\
  0 < Zpos m * 2 ^ (e + 1074) < inf_val.
Proof.
  intros [Hv _]. pose proof (SFval_finite _ _ _ Hv). 
  pose proof (valid_finite_inv _ _ _ Hv) as (He & _ & _).
  repeat split; try lia.
  unfold valid_binary, bounded, canonical_mantissa in Hv.
  apply andb_prop in Hv as [Hc _]. apply Z.eqb_eq in Hc. symmetry. exact Hc.
Qed.

Lemma mul_precondition mx ex my ey sx sy :
  valid_number (S754_finite sx mx ex) -> valid_number (S754_finite sy my ey) ->
  ex + ey <= fexp prec emax (Zdigits2 (Zpos (mx * my)) + (ex + ey)).
Proof.
  intros Hx Hy.
  apply valid_number_finite in Hx as (Hex & Hcx & _).
  apply valid_number_finite in Hy as (Hey & Hcy & _).
  rewrite fexp64 in *.
  pose proof (Zdigits2_bounds (Zpos mx) ltac:(lia)) as [Hbx _].
  pose proof (Zdigits2_bounds (Zpos my) ltac:(lia)) as [Hby _].
  pose proof (Zdigits2_pos (Zpos mx) ltac:(lia)).
  pose proof (Zdigits2_pos (Zpos my) ltac:(lia)).
  assert (Hd : Zdigits2 (Zpos mx) + Zdigits2 (Zpos my) - 2 < Zdigits2 (Zpos (mx * my))).
  { apply Zdigits2_gt; [|lia].
    replace (Zdigits2 (Zpos mx) + Zdigits2 (Zpos my) - 2)
      with ((Zdigits2 (Zpos mx) - 1) + (Zdigits2 (Zpos my) - 1)) by lia.
    rewrite pow2_add, Pos2Z.inj_mul by lia.
    apply Z.mul_le_mono_nonneg; try lia; apply Z.pow_nonneg; lia. }
  lia.
Qed.

Lemma SFmul_finite sx mx ex sy my ey :
  valid_number (S754_finite sx mx ex) -> valid_number (S754_finite sy my ey) ->
  rounds_to (xorb sx sy)
    (RN ((Zpos mx * 2 ^ (ex + 1074)) * (Zpos my * 2 ^ (ey + 1074))) (-2148))
    (SFmul prec emax (S754_finite sx mx ex) (S754_finite sy my ey)).
Proof.
  intros Hx Hy. cbn [SFmul].
  pose proof (mul_precondition _ _ _ _ _ _ Hx Hy) as Hpre.
  pose proof (binary_round_aux_spec (xorb sx sy) (mx * my) (ex + ey) Hpre) as Hr.
  apply valid_number_finite in Hx as (Hex & _ & _).
  apply valid_number_finite in Hy as (Hey & _ & _).
  rewrite <- (RN_scale _ _ (ex + ey + 2148)) in Hr by lia.
  replace (ex + ey - (ex + ey + 2148)) with (-2148) in Hr by lia.
  replace (ex + ey + 2148) with ((ex + 1074) + (ey + 1074)) in Hr by lia.
  rewrite pow2_add, Pos2Z.inj_mul in Hr by lia.
  replace (Z.pos mx * 2 ^ (ex + 1074) * (Z.pos my * 2 ^ (ey + 1074)))
    with (Z.pos mx * Z.pos my * (2 ^ (ex + 1074) * 2 ^ (ey + 1074))) by ring.
  exact Hr.
Qed.

(** Product of two non-negative finite numbers. *)
Lemma SFmul_nonneg x y :
  valid_number x -> valid_number y ->
  0 <= SFval x < inf_val -> 0 <= SFval y < inf_val ->
  valid_number (SFmul prec emax x y) /\
  SFval (SFmul prec emax x y) = RN (SFval x * SFval y) (-2148).
Proof.
  intros Hx Hy Vx Vy. pose proof inf_val_pos.
  destruct x as [sx|sx| |sx mx ex]; [| |destruct Hx as [_ Hx]; exfalso; apply Hx; reflexivity|].
  1,2,3: destruct y as [sy|sy| |sy my ey]; [| |destruct Hy as [_ Hy]; exfalso; apply Hy; reflexivity|].
  all: cbn [SFval] in *.
  all: try (destruct sx; cbn [cond_Zopp] in Vx; lia).
  all: try (destruct sy; cbn [cond_Zopp] in Vy; lia).
  - cbn [SFmul SFval]. rewrite RN_0. split; [split; [reflexivity|discriminate]|reflexivity].
  - cbn [SFmul SFval]. rewrite RN_0. split; [split; [reflexivity|discriminate]|reflexivity].
  - cbn [SFmul SFval]. rewrite Z.mul_0_r, RN_0. split; [split; [reflexivity|discriminate]|reflexivity].
  - pose proof (valid_number_finite _ _ _ Hx) as (_ & _ & Px).
    pose proof (valid_number_finite _ _ _ Hy) as (_ & _ & Py).
    destruct sx; cbn [cond_Zopp] in *; [lia|].
    destruct sy; cbn [cond_Zopp] in *; [lia|].
    exact (rounds_to_valid _ _ _ (SFmul_finite false mx ex false my ey Hx Hy)).
Qed.

(** *** Addition and subtraction *)

Lemma sRN_0 e : sRN 0 e = 0.
Proof. unfold sRN. simpl. apply RN_0. Qed.

Lemma aligned_val s m e ez :
  ez <= e -> -1074 <= ez ->
  cond_Zopp s (Zpos (fst (shl_align m e ez))) * 2 ^ (ez + 1074) =
  cond_Zopp s (Zpos m * 2 ^ (e + 1074)).
Proof.
  intros He Hz. pose proof (shl_align_spec m e ez) as [Hm _]. rewrite Hm.
  rewrite Z.min_r by lia.
  replace (e + 1074) with ((e - ez) + (ez + 1074)) by lia.
  rewrite (pow2_add (e - ez) (ez + 1074)) by lia. destruct s; cbn [cond_Zopp]; ring.
Qed.

Lemma normalize_val z e sz :
  -1074 <= e ->
  valid_number (binary_normalize prec emax z e sz) /\
  SFval (binary_normalize prec emax z e sz) = sRN (z * 2 ^ (e + 1074)) (-1074).
Proof.
  intros He. pose proof (binary_normalize_spec z e (-1074) sz ltac:(lia) ltac:(lia)) as Hs.
  replace (e - -1074) with (e + 1074) in Hs by lia.
  pose proof (pow2_pos (e + 1074) ltac:(lia)) as Hp.
  destruct z as [|p|p].
  - rewrite Hs. simpl. rewrite sRN_0. split; [split; [reflexivity|discriminate]|reflexivity].
  - apply rounds_to_valid in Hs as [Hg Hv]. split; [assumption|]. rewrite Hv.
    unfold sRN. destruct (Z.ltb_spec (Zpos p * 2 ^ (e + 1074)) 0); [nia|reflexivity].
  - apply rounds_to_valid in Hs as [Hg Hv]. split; [assumption|]. rewrite Hv.
    unfold sRN. destruct (Z.ltb_spec (Zneg p * 2 ^ (e + 1074)) 0); [|nia].
    cbn [cond_Zopp]. f_equal. f_equal. ring.
Qed.

Lemma sRN_valid x :
  valid_number x -> - inf_val < SFval x < inf_val -> sRN (SFval x) (-1074) = SFval x.
Proof.
  intros Hx Vx. pose proof inf_val_pos.
  destruct x as [s|s| |s m e]; cbn [SFval] in *.
  - apply sRN_0.
  - destruct s; cbn [cond_Zopp] in *; lia.
  - apply sRN_0.
  - apply valid_number_finite in Hx as (He & Hc & Hp).
    pose proof (RN_canonical (Zpos m) e ltac:(lia) Hc ltac:(lia)) as Hr.
    unfold sRN. destruct s; cbn [cond_Zopp].
    + destruct (Z.ltb_spec (- (Zpos m * 2 ^ (e + 1074))) 0); [|lia].
      rewrite Z.opp_involutive, Hr. reflexivity.
    + destruct (Z.ltb_spec (Zpos m * 2 ^ (e + 1074)) 0); [lia|]. exact Hr.
Qed.

Lemma sRN_opp z e : sRN (- z) e = - sRN z e.
Proof.
  unfold sRN. destruct (Z.ltb_spec z 0), (Z.ltb_spec (- z) 0); try lia.
  - rewrite Z.opp_involutive. lia.
  - assert (z = 0) by lia. subst. change (- 0) with 0. rewrite !RN_0. reflexivity.
Qed.

Lemma SFsub_finite x y :
  valid_number x -> valid_number y ->
  - inf_val < SFval x < inf_val -> - inf_val < SFval y < inf_val ->
  valid_number (SFsub prec emax x y) /\
  SFval (SFsub prec emax x y) = sRN (SFval x - SFval y) (-1074).
Proof.
  intros Hx Hy Vx Vy. pose proof inf_val_pos.
  pose proof (sRN_valid x Hx Vx) as Rx. pose proof (sRN_valid y Hy Vy) as Ry.
  destruct x as [sx|sx| |sx mx ex]; [| |destruct Hx as [_ Hx]; exfalso; apply Hx; reflexivity|].
  1,2,3: destruct y as [sy|sy| |sy my ey]; [| |destruct Hy as [_ Hy]; exfalso; apply Hy; reflexivity|].
  all: cbn [SFval] in *.
  all: try (destruct sx; cbn [cond_Zopp] in Vx; lia).
  all: try (destruct sy; cbn [cond_Zopp] in Vy; lia).
  - split; [destruct sx, sy; split; try reflexivity; discriminate|].
    rewrite Z.sub_0_r, sRN_0. destruct sx, sy; reflexivity.
  - cbn [SFsub SFval]. split.
    + destruct Hy as [Hv Hn]. split; [exact Hv | discriminate].
    + rewrite Z.sub_0_l, sRN_opp, Ry. destruct sy; cbn [cond_Zopp negb]; lia.
  - cbn [SFsub SFval]. split; [assumption|]. rewrite Z.sub_0_r, Rx. reflexivity.
  - cbn [SFsub].
    pose proof (valid_number_finite _ _ _ Hx) as (Hex & _ & _).
    pose proof (valid_number_finite _ _ _ Hy) as (Hey & _ & _).
    pose proof (normalize_val
      (cond_Zopp sx (Zpos (fst (shl_align mx ex (Z.min ex ey)))) -
       cond_Zopp sy (Zpos (fst (shl_align my ey (Z.min ex ey))))) (Z.min ex ey) false ltac:(lia)) as [Hg Hv].
    split; [exact Hg|]. rewrite Hv. f_equal.
    rewrite Z.mul_sub_distr_r, !aligned_val by lia. reflexivity.
Qed.

Lemma SFadd_finite x y :
  valid_number x -> valid_number y ->
  - inf_val < SFval x < inf_val -> - inf_val < SFval y < inf_val ->
  valid_number (SFadd prec emax x y) /\
  SFval (SFadd prec emax x y) = sRN (SFval x + SFval y) (-1074).
Proof.
  intros Hx Hy Vx Vy. pose proof inf_val_pos.
  pose proof (sRN_valid x Hx Vx) as Rx. pose proof (sRN_valid y Hy Vy) as Ry.
  destruct x as [sx|sx| |sx mx ex]; [| |destruct Hx as [_ Hx]; exfalso; apply Hx; reflexivity|].
  1,2,3: destruct y as [sy|sy| |sy my ey]; [| |destruct Hy as [_ Hy]; exfalso; apply Hy; reflexivity|].
  all: cbn [SFval] in *.
  all: try (destruct sx; cbn [cond_Zopp] in Vx; lia).
  all: try (destruct sy; cbn [cond_Zopp] in Vy; lia).
  - split; [destruct sx, sy; split; try reflexivity; discriminate|].
    rewrite Z.add_0_r, sRN_0. destruct sx, sy; reflexivity.
  - cbn [SFadd SFval]. split; [assumption|]. rewrite Z.add_0_l, Ry. reflexivity.
  - cbn [SFadd SFval]. split; [assumption|]. rewrite Z.add_0_r, Rx. reflexivity.
  - cbn [SFadd].
    pose proof (valid_number_finite _ _ _ Hx) as (Hex & _ & _).
    pose proof (valid_number_finite _ _ _ Hy) as (Hey & _ & _).
    pose proof (normalize_val
      (cond_Zopp sx (Zpos (fst (shl_align mx ex (Z.min ex ey)))) +
       cond_Zopp sy (Zpos (fst (shl_align my ey (Z.min ex ey))))) (Z.min ex ey) false ltac:(lia)) as [Hg Hv].
    split; [exact Hg|]. rewrite Hv. f_equal.
    rewrite Z.mul_add_distr_r, !aligned_val by lia. reflexivity.
Qed.

(** *** Ceiling *)

Lemma unit_val_pos : 0 < unit_val.
Proof. unfold unit_val. apply pow2_pos. lia. Qed.

Lemma inf_val_unit : inf_val = 2 ^ 1024 * unit_val.
Proof. unfold inf_val, unit_val. rewrite <- pow2_add by lia. reflexivity. Qed.

Lemma ceilZ_mult k : ceilZ (k * unit_val) = k * unit_val.
Proof.
  unfold ceilZ. pose proof unit_val_pos.
  rewrite <- Z.mul_opp_l, Z.div_mul by lia. lia.
Qed.

Lemma ceilZ_mono V1 V2 : V1 <= V2 -> ceilZ V1 <= ceilZ V2.
Proof.
  intros HV. unfold ceilZ. pose proof unit_val_pos as Hu.
  pose proof (Z.div_le_mono (- V2) (- V1) unit_val Hu ltac:(lia)). nia.
Qed.

Lemma ceilZ_0 : ceilZ 0 = 0.
Proof. apply (ceilZ_mult 0). Qed.

Lemma RN_int n : 0 < n < 2 ^ 53 -> RN (n * unit_val) (-1074) = n * unit_val.
Proof.
  intros Hn. unfold unit_val.
  pose proof (Zdigits2_pos n ltac:(lia)) as Hd0.
  pose proof (Zdigits2_le n 53 Hn ltac:(lia)) as Hd.
  set (d := Zdigits2 n) in *.
  pose proof (pow2_pos (53 - d) ltac:(lia)) as Hp.
  assert (Hdm : Zdigits2 (n * 2 ^ (53 - d)) = 53).
  { rewrite Zdigits2_scale by lia. fold d. lia. }
  pose proof (RN_canonical (n * 2 ^ (53 - d)) (d - 53) ltac:(nia)
                ltac:(rewrite Hdm, fexp64; lia) ltac:(lia)) as Hr.
  replace (n * 2 ^ (53 - d) * 2 ^ (d - 53 + 1074)) with (n * 2 ^ 1074) in Hr; [exact Hr|].
  rewrite <- Z.mul_assoc, <- pow2_add by lia. f_equal. f_equal. lia.
Qed.

Lemma SFceil_spec x :
  valid_number x -> valid_number (SFceil x) /\ SFval (SFceil x) = ceilZ (SFval x).
Proof.
  intros Hx. pose proof unit_val_pos as Hu.
  destruct x as [s|s| |s m e]; cbn [SFceil SFval].
  - split; [assumption|]. symmetry. apply ceilZ_0.
  - split; [assumption|]. rewrite inf_val_unit.
    destruct s; cbn [cond_Zopp]; [rewrite <- Z.mul_opp_l|]; symmetry; apply ceilZ_mult.
  - split; [assumption|]. symmetry. apply ceilZ_0.
  - pose proof (valid_number_finite _ _ _ Hx) as (He & _ & Hp).
    destruct (Z.leb_spec 0 e) as [Hpos|Hneg].
    + split; [assumption|]. cbn [SFval].
      rewrite (pow2_add e 1074) by lia. fold unit_val.
      destruct s; cbn [cond_Zopp]; symmetry.
      * replace (- (Zpos m * (2 ^ e * unit_val))) with ((- (Zpos m * 2 ^ e)) * unit_val) by ring.
        apply ceilZ_mult.
      * replace (Zpos m * (2 ^ e * unit_val)) with ((Zpos m * 2 ^ e) * unit_val) by ring.
        apply ceilZ_mult.
    + set (a' := cond_Zopp (negb s) (Zpos m)).
      set (n := - (a' / 2 ^ (- e))).
      pose proof (pow2_pos (- e) ltac:(lia)) as Hk.
      pose proof (pow2_pos (e + 1074) ltac:(lia)) as Hk'.
      assert (Hu' : unit_val = 2 ^ (- e) * 2 ^ (e + 1074)).
      { unfold unit_val. rewrite <- pow2_add by lia. f_equal. lia. }
      assert (HcV : ceilZ (cond_Zopp s (Zpos m * 2 ^ (e + 1074))) = n * unit_val).
      { unfold ceilZ, n. f_equal. f_equal.
        replace (- cond_Zopp s (Zpos m * 2 ^ (e + 1074))) with (a' * 2 ^ (e + 1074))
          by (unfold a'; destruct s; cbn [cond_Zopp negb]; ring).
        rewrite Hu'. apply Z.div_mul_cancel_r; lia. }
      rewrite HcV.
      assert (Hm53 : Zpos m < 2 ^ 53).
      { destruct Hx as [Hv _]. apply valid_finite_inv in Hv. tauto. }
      assert (Hn : - 2 ^ 53 < n < 2 ^ 53).
      { unfold n, a'. assert (1 < 2 ^ (- e)) by (apply Z.pow_gt_1; lia).
        destruct s; cbn [cond_Zopp negb].
        - pose proof (Z.div_pos (Zpos m) (2 ^ (- e)) ltac:(lia) Hk).
          pose proof (Z.div_le_upper_bound (Zpos m) (2 ^ (- e)) (Zpos m) Hk ltac:(nia)). lia.
        - pose proof (Z.div_le_lower_bound (- Zpos m) (2 ^ (- e)) (- Zpos m) Hk ltac:(nia)).
          pose proof (Z.div_lt_upper_bound (- Zpos m) (2 ^ (- e)) 0 Hk ltac:(lia)). lia. }
      pose proof (binary_normalize_spec n 0 (-1074) s ltac:(lia) ltac:(lia)) as Hs.
      change (0 - -1074) with 1074 in Hs. fold unit_val in Hs.
      destruct n as [|p|p].
      * rewrite Hs. split; [split; [reflexivity|discriminate]|reflexivity].
      * rewrite RN_int in Hs by lia. apply rounds_to_valid in Hs. exact Hs.
      * rewrite RN_int in Hs by lia. apply rounds_to_valid in Hs as [Hg Hv].
        split; [exact Hg|]. rewrite Hv. cbn [cond_Zopp]. lia.
Qed.

(** ** Part III: binary64 operations by value *)

Local Open Scope float_scope.

(** *** Comparisons *)

Lemma is_num_valid x : is_num x -> valid_number (Prim2SF x).
Proof. intros H. split; [apply Prim2SF_valid | exact H]. Qed.

Lemma SFcompare_Some x y c : SFcompare x y = Some c -> is_number x /\ is_number y.
Proof.
  destruct x, y; simpl; intros H; try discriminate; split; discriminate.
Qed.

Lemma compare_val x y :
  is_num x -> is_num y -> SFcompare (Prim2SF x) (Prim2SF y) = Some (val x ?= val y)%Z.
Proof.
  intros Hx Hy. apply SFcompare_val; try apply Prim2SF_valid; assumption.
Qed.

Lemma ltb_val x y : is_num x -> is_num y -> (x <? y) = (val x <? val y)%Z.
Proof.
  intros Hx Hy. rewrite ltb_spec. unfold SFltb. rewrite compare_val by assumption.
  unfold Z.ltb. destruct (val x ?= val y)%Z; reflexivity.
Qed.

Lemma leb_val x y : is_num x -> is_num y -> (x <=? y) = (val x <=? val y)%Z.
Proof.
  intros Hx Hy. rewrite leb_spec. unfold SFleb. rewrite compare_val by assumption.
  unfold Z.leb. destruct (val x ?= val y)%Z; reflexivity.
Qed.

Lemma eqb_val x y : is_num x -> is_num y -> (x =? y) = (val x =? val y)%Z.
Proof.
  intros Hx Hy. rewrite eqb_spec. unfold SFeqb. rewrite compare_val by assumption.
  destruct (Z.compare_spec (val x) (val y)); destruct (Z.eqb_spec (val x) (val y));
    try reflexivity; lia.
Qed.

Lemma ltb_is_num x y : (x <? y) = true -> is_num x /\ is_num y.
Proof.
  rewrite ltb_spec. unfold SFltb.
  destruct (SFcompare _ _) as [c|] eqn:Hc; [|discriminate].
  intros _. exact (SFcompare_Some _ _ _ Hc).
Qed.

Lemma leb_is_num x y : (x <=? y) = true -> is_num x /\ is_num y.
Proof.
  rewrite leb_spec. unfold SFleb.
  destruct (SFcompare _ _) as [c|] eqn:Hc; [|discriminate].
  intros _. exact (SFcompare_Some _ _ _ Hc).
Qed.

Lemma eqb_is_num x y : (x =? y) = true -> is_num x /\ is_num y.
Proof.
  rewrite eqb_spec. unfold SFeqb.
  destruct (SFcompare _ _) as [c|] eqn:Hc; [|discriminate].
  intros _. exact (SFcompare_Some _ _ _ Hc).
Qed.

Lemma ltb_true x y : (x <? y) = true -> is_num x /\ is_num y /\ (val x < val y)%Z.
Proof.
  intros H. destruct (ltb_is_num _ _ H) as [Hx Hy]. rewrite ltb_val in H by assumption.
  apply Z.ltb_lt in H. auto.
Qed.

Lemma leb_true x y : (x <=? y) = true -> is_num x /\ is_num y /\ (val x <= val y)%Z.
Proof.
  intros H. destruct (leb_is_num _ _ H) as [Hx Hy]. rewrite leb_val in H by assumption.
  apply Z.leb_le in H. auto.
Qed.

Lemma eqb_true x y : (x =? y) = true -> is_num x /\ is_num y /\ val x = val y.
Proof.
  intros H. destruct (eqb_is_num _ _ H) as [Hx Hy]. rewrite eqb_val in H by assumption.
  apply Z.eqb_eq in H. auto.
Qed.

Lemma is_nan_false x : is_nan x = false <-> is_num x.
Proof.
  unfold is_nan. split.
  - intros H. apply negb_false_iff in H. apply eqb_is_num in H. tauto.
  - intros H. rewrite eqb_val by assumption. rewrite Z.eqb_refl. reflexivity.
Qed.

Lemma val_0 : val 0 = 0%Z.
Proof. reflexivity. Qed.

Lemma val_1 : val 1 = unit_val.
Proof. vm_compute. reflexivity. Qed.

Lemma is_num_0 : is_num 0.
Proof. unfold is_num. simpl. discriminate. Qed.

Lemma is_num_1 : is_num 1.
Proof. unfold is_num. vm_compute. discriminate. Qed.

Lemma val_infinity : val infinity = inf_val.
Proof. reflexivity. Qed.

Lemma is_finite_is_fin x : is_finite x = true -> is_fin x.
Proof.
  unfold is_finite, is_infinity. intros H.
  apply negb_true_iff, orb_false_iff in H as [Hn Hi].
  apply is_nan_false in Hn. split; [exact Hn|].
  rewrite eqb_spec, abs_spec in Hi. unfold val.
  pose proof (Prim2SF_valid x) as Hv. red in Hn. pose proof inf_val_pos.
  change (Prim2SF infinity) with (S754_infinity false) in Hi.
  destruct (Prim2SF x) as [s|s| |s m e]; cbn [SFval].
  - lia.
  - discriminate Hi.
  - lia.
  - pose proof (SFval_finite _ _ _ Hv). destruct s; cbn [cond_Zopp]; lia.
Qed.

(** Shapes of numbers, from their values. *)
Lemma shape_inf x : valid_number x -> SFval x = inf_val -> x = S754_infinity false.
Proof.
  intros [Hv Hn] HV. pose proof inf_val_pos.
  destruct x as [s|s| |s m e]; cbn [SFval] in HV.
  - lia.
  - destruct s; cbn [cond_Zopp] in HV; [lia | reflexivity].
  - lia.
  - pose proof (SFval_finite _ _ _ Hv). destruct s; cbn [cond_Zopp] in HV; lia.
Qed.

Lemma shape_ninf x : valid_number x -> SFval x = (- inf_val)%Z -> x = S754_infinity true.
Proof.
  intros [Hv Hn] HV. pose proof inf_val_pos.
  destruct x as [s|s| |s m e]; cbn [SFval] in HV.
  - lia.
  - destruct s; cbn [cond_Zopp] in HV; [reflexivity | lia].
  - lia.
  - pose proof (SFval_finite _ _ _ Hv). destruct s; cbn [cond_Zopp] in HV; lia.
Qed.

Lemma shape_pos x :
  valid_number x -> (0 < SFval x < inf_val)%Z -> exists m e, x = S754_finite false m e.
Proof.
  intros [Hv Hn] HV. pose proof inf_val_pos.
  destruct x as [s|s| |s m e]; cbn [SFval] in HV.
  - lia.
  - destruct s; cbn [cond_Zopp] in HV; lia.
  - lia.
  - pose proof (SFval_finite _ _ _ Hv). destruct s; cbn [cond_Zopp] in HV; [lia|eauto].
Qed.

Lemma valid_number_inf s : valid_number (S754_infinity s).
Proof. split; [reflexivity | discriminate]. Qed.

Lemma SFmul_inf_r x :
  valid_number x -> (0 < SFval x)%Z -> SFmul prec emax x (S754_infinity false) = S754_infinity false.
Proof.
  intros Hx HV. pose proof (SFval_bounds x (proj1 Hx)).
  destruct (Z.eq_dec (SFval x) inf_val) as [Hi|Hi].
  - rewrite (shape_inf x Hx Hi). reflexivity.
  - destruct (shape_pos x Hx ltac:(lia)) as (m & e & ->). reflexivity.
Qed.

Lemma SFmul_inf_l y :
  valid_number y -> (0 < SFval y)%Z -> SFmul prec emax (S754_infinity false) y = S754_infinity false.
Proof.
  intros Hy HV. pose proof (SFval_bounds y (proj1 Hy)).
  destruct (Z.eq_dec (SFval y) inf_val) as [Hi|Hi].
  - rewrite (shape_inf y Hy Hi). reflexivity.
  - destruct (shape_pos y Hy ltac:(lia)) as (m & e & ->). reflexivity.
Qed.

Lemma SFmul_mono x1 x2 y :
  valid_number x1 -> valid_number x2 -> valid_number y ->
  (0 <= SFval x1 <= SFval x2)%Z -> (0 < SFval y)%Z ->
  (0 < SFval x1 \/ SFval y < inf_val)%Z ->
  valid_number (SFmul prec emax x1 y) /\ valid_number (SFmul prec emax x2 y) /\
  (0 <= SFval (SFmul prec emax x1 y) <= SFval (SFmul prec emax x2 y))%Z.
Proof.
  intros H1 H2 Hy HV HVy Hor. pose proof inf_val_pos as Hinf.
  pose proof (SFval_bounds x1 (proj1 H1)). pose proof (SFval_bounds x2 (proj1 H2)).
  pose proof (SFval_bounds y (proj1 Hy)).
  destruct (Z.eq_dec (SFval y) inf_val) as [Hyi|Hyi].
  - rewrite (shape_inf y Hy Hyi), !SFmul_inf_r by (assumption || lia).
    repeat split; try discriminate. all: cbn [SFval cond_Zopp]; lia.
  - destruct (Z.eq_dec (SFval x2) inf_val) as [H2i|H2i].
    + rewrite (shape_inf x2 H2 H2i), SFmul_inf_l by assumption.
      destruct (Z.eq_dec (SFval x1) inf_val) as [H1i|H1i].
      * rewrite (shape_inf x1 H1 H1i), SFmul_inf_l by assumption.
        repeat split; try discriminate. all: cbn [SFval cond_Zopp]; lia.
      * destruct (SFmul_nonneg x1 y H1 Hy ltac:(lia) ltac:(lia)) as [Hg Hv].
        split; [exact Hg|]. split; [apply valid_number_inf|]. rewrite Hv. cbn [SFval cond_Zopp].
        split; [apply RN_nonneg; [nia | rewrite fexp64; lia] | apply RN_le_inf].
    + destruct (SFmul_nonneg x1 y H1 Hy ltac:(lia) ltac:(lia)) as [Hg1 Hv1].
      destruct (SFmul_nonneg x2 y H2 Hy ltac:(lia) ltac:(lia)) as [Hg2 Hv2].
      split; [exact Hg1|]. split; [exact Hg2|]. rewrite Hv1, Hv2.
      split; [apply RN_nonneg; [nia | rewrite fexp64; lia] | apply RN_mono0; [nia | lia]].
Qed.

(** *** Operations on [float], by value *)
Lemma mul_mono x1 x2 y :
  is_num x1 -> is_num x2 -> is_num y ->
  (0 <= val x1 <= val x2)%Z -> (0 < val y)%Z -> (0 < val x1 \/ val y < inf_val)%Z ->
  is_num (x1 * y) /\ is_num (x2 * y) /\ (0 <= val (x1 * y) <= val (x2 * y))%Z.
Proof.
  intros H1 H2 Hy HV HVy Hor. unfold is_num, val. rewrite !mul_spec.
  destruct (SFmul_mono _ _ _ (is_num_valid _ H1) (is_num_valid _ H2) (is_num_valid _ Hy) HV HVy Hor)
    as ([_ Hn1] & [_ Hn2] & Hle).
  auto.
Qed.

Lemma ceil_val x : is_num x -> is_num (Math_ceil x) /\ val (Math_ceil x) = ceilZ (val x).
Proof.
  intros H. unfold is_num, val, Math_ceil.
  destruct (SFceil_spec _ (is_num_valid x H)) as [[Hv Hn] HV].
  rewrite Prim2SF_SF2Prim by exact Hv. auto.
Qed.

Lemma sub_fin x y :
  is_fin x -> is_fin y -> is_num (x - y) /\ val (x - y) = sRN (val x - val y) (-1074).
Proof.
  intros [Hx Vx] [Hy Vy]. unfold is_num, val. rewrite sub_spec.
  destruct (SFsub_finite _ _ (is_num_valid _ Hx) (is_num_valid _ Hy) Vx Vy) as [[_ Hn] HV]. auto.
Qed.

Lemma sub_inf x y :
  is_num x -> val x = inf_val -> is_fin y -> is_num (x - y) /\ val (x - y) = inf_val.
Proof.
  intros Hx Vx [Hy Vy]. unfold is_num, val in *. rewrite sub_spec.
  rewrite (shape_inf _ (is_num_valid _ Hx) Vx). pose proof inf_val_pos.
  destruct (Prim2SF y) as [s|s| |s m e]; cbn [SFval] in *.
  - split; [discriminate | reflexivity].
  - destruct s; cbn [cond_Zopp] in Vy; lia.
  - exfalso. apply Hy. reflexivity.
  - split; [discriminate | reflexivity].
Qed.

Lemma sub_ninf x y :
  is_num x -> val x = (- inf_val)%Z -> is_fin y -> is_num (x - y) /\ val (x - y) = (- inf_val)%Z.
Proof.
  intros Hx Vx [Hy Vy]. unfold is_num, val in *. rewrite sub_spec.
  rewrite (shape_ninf _ (is_num_valid _ Hx) Vx). pose proof inf_val_pos.
  destruct (Prim2SF y) as [s|s| |s m e]; cbn [SFval] in *.
  - split; [discriminate | reflexivity].
  - destruct s; cbn [cond_Zopp] in Vy; lia.
  - exfalso. apply Hy. reflexivity.
  - split; [discriminate | reflexivity].
Qed.

Lemma val_bounds x : (- inf_val <= val x <= inf_val)%Z.
Proof. apply SFval_bounds, Prim2SF_valid. Qed.

Lemma Math_max_0 x : Math_max 0 x = if is_nan x then nan else if 0 <? x then x else 0.
Proof.
  unfold Math_max. change (is_nan 0) with false. change (get_sign 0) with false.
  cbn [orb]. destruct (is_nan x), (0 <? x), (x <? 0); reflexivity.
Qed.

Lemma max0_val x : is_num x -> is_num (Math_max 0 x) /\ val (Math_max 0 x) = Z.max 0 (val x).
Proof.
  intros Hx. rewrite Math_max_0. rewrite (proj2 (is_nan_false x) Hx).
  rewrite (ltb_val 0 x is_num_0 Hx), val_0.
  destruct (Z.ltb_spec 0 (val x)).
  - split; [assumption | lia].
  - split; [exact is_num_0 | rewrite val_0; lia].
Qed.

Lemma max0_zero x : is_num x -> (val x <= 0)%Z -> Math_max 0 x = 0.
Proof.
  intros Hx HV. rewrite Math_max_0. rewrite (proj2 (is_nan_false x) Hx).
  rewrite (ltb_val 0 x is_num_0 Hx), val_0.
  destruct (Z.ltb_spec 0 (val x)); [lia | reflexivity].
Qed.

Lemma sRN_unit_range z :
  (unit_val <= z <= 2 * unit_val)%Z ->
  (unit_val <= sRN z (-1074) <= 2 * unit_val)%Z.
Proof.
  intros Hz. pose proof unit_val_pos.
  pose proof (RN_int 1 ltac:(split; [lia | reflexivity])) as R1.
  pose proof (RN_int 2 ltac:(split; [lia | reflexivity])) as R2.
  rewrite Z.mul_1_l in R1.
  unfold sRN. destruct (Z.ltb_spec z 0); [lia|].
  pose proof (RN_mono0 unit_val z (-1074) ltac:(lia) ltac:(lia)).
  pose proof (RN_mono0 z (2 * unit_val) (-1074) ltac:(lia) ltac:(lia)). lia.
Qed.

Lemma two_unit_lt_inf : (2 * unit_val < inf_val)%Z.
Proof.
  rewrite inf_val_unit. pose proof unit_val_pos.
  assert (2 < 2 ^ 1024)%Z by (apply (Z.pow_lt_mono_r 2 1 1024); lia). nia.
Qed.

(** The safety multiplier [1 + r] for a buffer fraction [0 <= r <= 1]. *)
Lemma add1_val r :
  (0 <=? r) = true -> (r <=? 1) = true ->
  is_fin (1 + r) /\ (unit_val <= val (1 + r) <= 2 * unit_val)%Z.
Proof.
  intros H0 H1. apply leb_true in H0 as (_ & Hr & V0). apply leb_true in H1 as (_ & _ & V1).
  rewrite val_0 in V0. rewrite val_1 in V1.
  pose proof unit_val_pos. pose proof two_unit_lt_inf. pose proof inf_val_pos.
  assert (Hs : is_num (1 + r) /\ val (1 + r) = sRN (val 1 + val r) (-1074)).
  { unfold is_num, val. rewrite add_spec.
    destruct (SFadd_finite _ _ (is_num_valid _ is_num_1) (is_num_valid _ Hr)) as [[_ Hn] HV].
    - fold (val 1). rewrite val_1. lia.
    - fold (val r). lia.
    - auto. }
  destruct Hs as [Hn HV]. rewrite val_1 in HV.
  pose proof (sRN_unit_range (unit_val + val r) ltac:(lia)) as Hrange.
  rewrite <- HV in Hrange. split; [split; [exact Hn | lia] | exact Hrange].
Qed.

Lemma mul_zero_l w : is_fin w -> (0 < val w)%Z -> 0 * w = 0.
Proof.
  intros [Hn Hb] Hp. apply Prim2SF_inj. rewrite mul_spec.
  destruct (shape_pos _ (is_num_valid _ Hn) ltac:(fold (val w); lia)) as (m & e & ->).
  reflexivity.
Qed.

(** ** Part IV: the calculator *)

Lemma ceilZ_spec V : (V <= ceilZ V < V + unit_val)%Z /\ (unit_val | ceilZ V)%Z.
Proof.
  unfold ceilZ. pose proof unit_val_pos as Hu.
  pose proof (Z.div_mod (- V) unit_val ltac:(lia)).
  pose proof (Z.mod_pos_bound (- V) unit_val Hu).
  split; [nia|]. exists (- (- V / unit_val))%Z. reflexivity.
Qed.

Lemma Math_ceil_rounded_up x : rounded_up x (Math_ceil x).
Proof.
  unfold rounded_up. destruct (Prim2SF x) eqn:Hx.
  1,2,4: assert (Hn : is_num x) by (unfold is_num; rewrite Hx; discriminate);
         destruct (ceil_val x Hn) as [_ ->]; apply ceilZ_spec.
  assert (Hc : val (Math_ceil x) = 0%Z).
  { unfold Math_ceil. rewrite Hx. reflexivity. }
  assert (Hv : val x = 0%Z) by (unfold val; rewrite Hx; reflexivity).
  rewrite Hv, Hc. pose proof unit_val_pos.
  split; [lia | apply Z.divide_0_r].
Qed.

Lemma target_mono v1 v2 d :
  (0 <? v1) = true -> (v1 <=? v2) = true -> (1 <=? d) = true ->
  is_num (Math_ceil (v1 * d)) /\ is_num (Math_ceil (v2 * d)) /\
  (0 <= val (Math_ceil (v1 * d)) <= val (Math_ceil (v2 * d)))%Z.
Proof.
  intros H1 H12 Hd.
  apply ltb_true in H1 as (_ & N1 & V1). apply leb_true in H12 as (_ & N2 & V12).
  apply leb_true in Hd as (_ & Nd & Vd). rewrite val_0 in V1. rewrite val_1 in Vd.
  pose proof unit_val_pos.
  destruct (mul_mono v1 v2 d N1 N2 Nd ltac:(lia) ltac:(lia) ltac:(lia)) as (Np1 & Np2 & Vp).
  destruct (ceil_val _ Np1) as [Nc1 Vc1]. destruct (ceil_val _ Np2) as [Nc2 Vc2].
  split; [exact Nc1|]. split; [exact Nc2|]. rewrite Vc1, Vc2.
  pose proof (ceilZ_mono 0 (val (v1 * d)) ltac:(lia)) as Hc0. rewrite ceilZ_0 in Hc0.
  pose proof (ceilZ_mono _ _ (proj2 Vp)). lia.
Qed.

Lemma raw_mono T1 T2 c1 c2 :
  is_num T1 -> is_num T2 -> (0 <= val T1 <= val T2)%Z ->
  is_fin c1 -> is_fin c2 -> (val c2 <= val c1)%Z ->
  is_num (Math_max 0 (T1 - c1)) /\ is_num (Math_max 0 (T2 - c2)) /\
  (0 <= val (Math_max 0 (T1 - c1)) <= val (Math_max 0 (T2 - c2)))%Z.
Proof.
  intros N1 N2 VT F1 F2 Vc. pose proof inf_val_pos.
  pose proof (val_bounds T1). pose proof (val_bounds T2).
  assert (Hd : is_num (T1 - c1) /\ is_num (T2 - c2) /\ (val (T1 - c1) <= val (T2 - c2))%Z).
  { destruct (Z.eq_dec (val T2) inf_val) as [Hi2|Hi2].
    - destruct (sub_inf T2 c2 N2 Hi2 F2) as [Nd2 Vd2]. rewrite Vd2.
      pose proof (val_bounds (T1 - c1)).
      destruct (Z.eq_dec (val T1) inf_val) as [Hi1|Hi1].
      + destruct (sub_inf T1 c1 N1 Hi1 F1) as [Nd1 Vd1]. repeat split; try assumption; lia.
      + destruct (sub_fin T1 c1 ltac:(split; [assumption | lia]) F1) as [Nd1 Vd1].
        repeat split; try assumption; lia.
    - destruct (sub_fin T1 c1 ltac:(split; [assumption | lia]) F1) as [Nd1 Vd1].
      destruct (sub_fin T2 c2 ltac:(split; [assumption | lia]) F2) as [Nd2 Vd2].
      rewrite Vd1, Vd2. repeat split; try assumption. apply sRN_mono; lia. }
  destruct Hd as (Nd1 & Nd2 & Vd).
  destruct (max0_val _ Nd1) as [Nm1 Vm1]. destruct (max0_val _ Nd2) as [Nm2 Vm2].
  rewrite Vm1, Vm2. repeat split; try assumption; lia.
Qed.

Lemma buffer_mono q1 q2 r :
  is_num q1 -> is_num q2 -> (0 <= val q1 <= val q2)%Z ->
  (0 <=? r) = true -> (r <=? 1) = true ->
  is_num (Math_ceil (q1 * (1 + r))) /\ is_num (Math_ceil (q2 * (1 + r))) /\
  (0 <= val (Math_ceil (q1 * (1 + r))) <= val (Math_ceil (q2 * (1 + r))))%Z.
Proof.
  intros N1 N2 Vq Hr0 Hr1. pose proof unit_val_pos.
  destruct (add1_val r Hr0 Hr1) as [[Nw Fw] Vw].
  destruct (mul_mono q1 q2 (1 + r) N1 N2 Nw Vq ltac:(lia) ltac:(lia)) as (Np1 & Np2 & Vp).
  destruct (ceil_val _ Np1) as [Nc1 Vc1]. destruct (ceil_val _ Np2) as [Nc2 Vc2].
  split; [exact Nc1|]. split; [exact Nc2|]. rewrite Vc1, Vc2.
  pose proof (ceilZ_mono 0 (val (q1 * (1 + r))) ltac:(lia)) as Hc0. rewrite ceilZ_0 in Hc0.
  pose proof (ceilZ_mono _ _ (proj2 Vp)). lia.
Qed.

Lemma quantity_pos c v s :
  (0 <? v) = true ->
  calculateSuggestedQuantity c v s =
  Math_ceil (Math_max 0 (Math_ceil (v * stockCoverageDays s) - c) * (1 + reorderPoint s)).
Proof.
  intros Hv. unfold calculateSuggestedQuantity.
  apply ltb_true in Hv as (_ & Nv & Vv). rewrite val_0 in Vv.
  rewrite (leb_val v 0 Nv is_num_0), val_0.
  destruct (Z.leb_spec (val v) 0); [lia | reflexivity].
Qed.

Lemma quantity_zero c v s :
  (v <=? 0) = true -> calculateSuggestedQuantity c v s = 0.
Proof. intros Hv. unfold calculateSuggestedQuantity. rewrite Hv. reflexivity. Qed.

Lemma nonneg_cases v : (0 <=? v) = true -> (v <=? 0) = true \/ (0 <? v) = true.
Proof.
  intros Hv. apply leb_true in Hv as (_ & Nv & Vv). rewrite val_0 in Vv.
  rewrite (leb_val v 0 Nv is_num_0), (ltb_val 0 v is_num_0 Nv), val_0.
  destruct (Z.leb_spec (val v) 0); [left; reflexivity | right; apply Z.ltb_lt; lia].
Qed.

(** Monotone pipeline: more target stock or less stock on hand never lowers
    the suggestion. *)
Lemma quantity_mono c1 c2 v1 v2 s :
  (0 <? v1) = true -> (v1 <=? v2) = true ->
  is_finite c1 = true -> is_finite c2 = true -> (c2 <=? c1) = true ->
  (1 <=? stockCoverageDays s) = true ->
  (0 <=? reorderPoint s) = true -> (reorderPoint s <=? 1) = true ->
  is_num (calculateSuggestedQuantity c1 v1 s) /\ is_num (calculateSuggestedQuantity c2 v2 s) /\
  (0 <= val (calculateSuggestedQuantity c1 v1 s) <= val (calculateSuggestedQuantity c2 v2 s))%Z.
Proof.
  intros H1 H12 Fc1 Fc2 Hc Hd Hr0 Hr1.
  assert (H2 : (0 <? v2) = true).
  { pose proof (ltb_true _ _ H1) as (_ & N1 & V1). pose proof (leb_true _ _ H12) as (_ & N2 & V12).
    rewrite (ltb_val 0 v2 is_num_0 N2). apply Z.ltb_lt. lia. }
  rewrite (quantity_pos c1 v1 s H1), (quantity_pos c2 v2 s H2).
  destruct (target_mono v1 v2 _ H1 H12 Hd) as (NT1 & NT2 & VT).
  apply leb_true in Hc as (_ & _ & Vc).
  destruct (raw_mono _ _ c1 c2 NT1 NT2 VT (is_finite_is_fin _ Fc1) (is_finite_is_fin _ Fc2) Vc)
    as (Nq1 & Nq2 & Vq).
  exact (buffer_mono _ _ _ Nq1 Nq2 Vq Hr0 Hr1).
Qed.

Lemma leb_refl x : is_num x -> (x <=? x) = true.
Proof. intros N. rewrite leb_val by assumption. apply Z.leb_refl. Qed.

Lemma ltb_inf_l x : (infinity <? x) = false.
Proof.
  destruct (infinity <? x) eqn:H; [|reflexivity].
  apply ltb_true in H as (_ & _ & V). rewrite val_infinity in V.
  pose proof (val_bounds x). lia.
Qed.

Lemma status_cases c v s :
  getStockStatus c v s =
    if daysOfStock c v <? lowStockThreshold s then "low"
    else if daysOfStock c v <? mediumStockThreshold s then "medium" else "good".
Proof. reflexivity. Qed.

(** For a velocity >= 0, a finite stock, stockCoverageDays >= 1 and
    reorderPoint in [0,1], the suggested quantity is not NaN, not below 0, and
    its value is a multiple of one: a whole number, or [Infinity]. *)
Corollary suggestedQuantity_nonneg_integer c v s :
  (0 <=? v) = true -> is_finite c = true ->
  (1 <=? stockCoverageDays s) = true ->
  (0 <=? reorderPoint s) = true -> (reorderPoint s <=? 1) = true ->
  (0 <=? calculateSuggestedQuantity c v s) = true /\
  (unit_val | val (calculateSuggestedQuantity c v s))%Z.
Proof.
  intros Hv Fc Hd Hr0 Hr1.
  destruct (nonneg_cases v Hv) as [Hz|Hp].
  - rewrite (quantity_zero c v s Hz). split; [reflexivity | apply Z.divide_0_r].
  - assert (Hvv : (v <=? v) = true) by (apply leb_refl; apply ltb_true in Hp; tauto).
    assert (Hcc : (c <=? c) = true)
      by (apply leb_refl; apply is_finite_is_fin in Fc; destruct Fc; assumption).
    destruct (quantity_mono c c v v s Hp Hvv Fc Fc Hcc Hd Hr0 Hr1) as (N & _ & V).
    split.
    + rewrite (leb_val _ _ is_num_0 N), val_0. apply Z.leb_le. lia.
    + rewrite (quantity_pos c v s Hp). apply Math_ceil_rounded_up.
Qed.

(** *** The model against the arithmetic of the source *)

(** [Math.ceil] and [Math.max] on the usual corner cases. *)
Example Math_ceil_samples :
  Math_ceil 0.5 = 1 /\ Math_ceil (-0.5) = neg_zero /\ Math_ceil (-1.5) = -1 /\
  Math_ceil 3 = 3 /\ Math_ceil 0 = 0 /\ Math_ceil neg_zero = neg_zero /\
  Math_ceil infinity = infinity /\ Math_ceil neg_infinity = neg_infinity /\
  Math_ceil nan = nan /\ Math_ceil 4503599627370495.5 = 4503599627370496.
Proof. repeat split; vm_compute; reflexivity. Qed.

Example Math_max_samples :
  Math_max 0 5 = 5 /\ Math_max 0 (-3) = 0 /\ Math_max 0 neg_zero = 0 /\
  Math_max neg_zero 0 = 0 /\ Math_max 0 nan = nan /\
  Math_max 0 infinity = infinity /\ Math_max 0 neg_infinity = 0.
Proof. repeat split; vm_compute; reflexivity. Qed.

(** The rounding scenario of the specification: a velocity of 1/3 over 10 days
    of coverage gives a target stock of 4. *)
Example rounding_scenario :
  Math_ceil ((1 / 3) * 10) = 4 /\
  calculateSuggestedQuantity 0 (1 / 3)
    {| stockCoverageDays := 10; lowStockThreshold := 7;
       mediumStockThreshold := 14; reorderPoint := 0;
       emailNotifications := true |} = 4.
Proof. split; vm_compute; reflexivity. Qed.

(** The stock on hand is a count, hence a finite number.  The monotonicity and
    zero-suggestion results below are stated for finite stock: an infinite
    stock set against a target that overflows is not a number at all. *)
Example infinite_stock_is_outside_the_data_model :
  calculateSuggestedQuantity infinity 1e308 defaultSettings = nan.
Proof. vm_compute. reflexivity. Qed.

(** ** Part V: properties of the calculator and of the settings lookup *)

(** C1 (the code departs from the formula): the formula
    ceiling(max(0, ceiling(velocity * coverageDays) - currentStock) * (1 + reorderPoint))
    gives 110 for currentStock = 20, velocity = 4, stockCoverageDays = 30 and
    reorderPoint = 0.1 (target 120, raw suggestion 100, a buffer of 10%), but
    [calculateSuggestedQuantity] returns 111: the product 100 * (1 + 0.1)
    evaluates to the first binary64 number above 110 and is rounded up a whole
    unit.  Nor does the code compute the formula on the exact values of the
    stored numbers: 0.1 is stored as a number slightly above 1/10, with which
    the formula gives 45 for currentStock = 20 and velocity = 2, where the code
    returns 44. *)
Theorem suggestedQuantity_departs_from_formula :
  exact_suggestedQuantity 20 4 30 (1 # 10) = 110%Z /\
  Math_ceil (4 * 30) = 120 /\ Math_max 0 (120 - 20) = 100 /\
  (110 <? 100 * (1 + 0.1)) = true /\
  calculateSuggestedQuantity 20 4 defaultSettings = 111 /\
  (calculateSuggestedQuantity 20 4 defaultSettings =? 110) = false /\
  exact_suggestedQuantity
    (exact_value 20) (exact_value 2) (exact_value 30) (exact_value 0.1) = 45%Z /\
  calculateSuggestedQuantity 20 2 defaultSettings = 44 /\
  (calculateSuggestedQuantity 20 2 defaultSettings =? 45) = false.
Proof. repeat split; vm_compute; reflexivity. Qed.

(** C2 (the code departs from the classification at a boundary): the four
    boundary examples evaluate as stated, but [getStockStatus] compares the
    binary64 quotient, not the days of stock.  With 198 units sold in 90 days
    the velocity is 2.2 a day, and a stock of 33 lasts 33 / 2.2 = 15 days,
    which with mediumStockThreshold = 15 is good; the code evaluates the
    quotient to 14.999999999999998 and returns medium.  Nor does the code
    classify the exact quotient of the stored numbers: for a stock of 5 and
    the velocity 50 / 90 that quotient is below 9, which with
    lowStockThreshold = 9 is low, where the code evaluates the quotient to 9
    and returns medium. *)
Theorem getStockStatus_departs_from_classification :
  let thresholds low medium :=
    {| stockCoverageDays := 30; lowStockThreshold := low;
       mediumStockThreshold := medium; reorderPoint := 0.1;
       emailNotifications := true |} in
  (getStockStatus 6 1 (thresholds 7 14) = "low" /\
   getStockStatus 7 1 (thresholds 7 14) = "medium" /\
   getStockStatus 13 1 (thresholds 7 14) = "medium" /\
   getStockStatus 14 1 (thresholds 7 14) = "good" /\
   getStockStatus 14 0 (thresholds 7 14) = "good") /\
  (198 / 90 = 2.2 /\
   exact_stockStatus 33 (198 # 90) 7 15 = "good" /\
   33 / 2.2 = 14.999999999999998 /\
   getStockStatus 33 (198 / 90) (thresholds 7 15) = "medium") /\
  (exact_stockStatus (exact_value 5) (exact_value (50 / 90))
     (exact_value 9) (exact_value 14) = "low" /\
   5 / (50 / 90) = 9 /\
   getStockStatus 5 (50 / 90) (thresholds 9 14) = "medium").
Proof. repeat split; vm_compute; reflexivity. Qed.

(** C3 (the code returns 56 where the claim says 55): for currentStock = 10,
    velocity = 2, stockCoverageDays = 30 and reorderPoint = 0.1 the target
    stock is 60 and the raw suggestion 50, and a buffer of 10% on 50 is 55 in
    exact arithmetic; but the product 50 * (1 + 0.1) evaluates to
    55.000000000000007, the first binary64 number above 55, so that the final
    rounding up gives 56. *)
Theorem reorder_example_returns_56 :
  exact_suggestedQuantity 10 2 30 (1 # 10) = 55%Z /\
  Math_ceil (2 * 30) = 60 /\
  Math_max 0 (60 - 10) = 50 /\
  50 * (1 + 0.1) = 55.000000000000007 /\
  (55 <? 50 * (1 + 0.1)) = true /\
  calculateSuggestedQuantity 10 2 defaultSettings = 56 /\
  (calculateSuggestedQuantity 10 2 defaultSettings =? 55) = false.
Proof. repeat split; vm_compute; reflexivity. Qed.

(** C4: when salesVelocity is zero (of either sign) neither function fails:
    the suggested quantity is 0 and the status is "good", for every stock and
    every settings record; a zero velocity means infinite days of stock. *)
Theorem zero_velocity_is_not_an_error currentStock salesVelocity s :
  (salesVelocity =? 0) = true ->
  calculateSuggestedQuantity currentStock salesVelocity s = 0 /\
  getStockStatus currentStock salesVelocity s = "good" /\
  daysOfStock currentStock salesVelocity = Infinity.
Proof.
  intros Hv. apply eqb_true in Hv as (Nv & _ & Vv). rewrite val_0 in Vv.
  split; [|split].
  - apply quantity_zero. rewrite (leb_val _ 0 Nv is_num_0), Vv, val_0. reflexivity.
  - unfold getStockStatus. rewrite (ltb_val 0 _ is_num_0 Nv), Vv, val_0.
    cbn [Z.ltb Z.compare]. unfold Infinity. rewrite !ltb_inf_l. reflexivity.
  - unfold daysOfStock. rewrite (ltb_val 0 _ is_num_0 Nv), Vv, val_0. reflexivity.
Qed.

Lemma zero_velocity_is_not_an_error_witness :
  (0 =? 0) = true /\
  calculateSuggestedQuantity 25 0 defaultSettings = 0 /\
  getStockStatus 25 0 defaultSettings = "good".
Proof.
  split; [reflexivity|].
  pose proof (zero_velocity_is_not_an_error 25 0 defaultSettings eq_refl) as H.
  split; [exact (proj1 H) | exact (proj1 (proj2 H))].
Defined.

(** C5: with the velocity (>= 0) and valid settings fixed, the suggested
    quantity does not increase when the stock on hand (a finite number)
    increases. *)
Theorem suggestedQuantity_antitone_in_stock currentStock1 currentStock2 salesVelocity s :
  (0 <=? salesVelocity) = true -> valid_settings s = true ->
  is_finite currentStock1 = true -> is_finite currentStock2 = true ->
  (currentStock1 <=? currentStock2) = true ->
  (calculateSuggestedQuantity currentStock2 salesVelocity s <=?
   calculateSuggestedQuantity currentStock1 salesVelocity s) = true.
Proof.
  intros Hv Hs F1 F2 Hc. unfold valid_settings in Hs.
  repeat (apply andb_prop in Hs as [Hs ?]).
  assert (Hd1 : (1 <=? stockCoverageDays s) = true) by assumption.
  assert (Hr0 : (0 <=? reorderPoint s) = true) by assumption.
  assert (Hr1 : (reorderPoint s <=? 1) = true) by assumption.
  destruct (nonneg_cases _ Hv) as [Hz|Hp].
  - rewrite !quantity_zero by assumption. reflexivity.
  - assert (Hvv : (salesVelocity <=? salesVelocity) = true)
      by (apply leb_refl; apply ltb_true in Hp; tauto).
    destruct (quantity_mono currentStock2 currentStock1 _ _ s Hp Hvv F2 F1 Hc Hd1 Hr0 Hr1)
      as (N2 & N1 & V).
    rewrite leb_val by assumption. apply Z.leb_le. lia.
Qed.

Lemma suggestedQuantity_antitone_in_stock_witness :
  ((0 <=? 2) = true /\ valid_settings defaultSettings = true /\
   (10 <=? 20) = true) /\
  (calculateSuggestedQuantity 20 2 defaultSettings <=?
   calculateSuggestedQuantity 10 2 defaultSettings) = true.
Proof.
  split; [repeat split; reflexivity|].
  exact (suggestedQuantity_antitone_in_stock 10 20 2 defaultSettings
           eq_refl eq_refl eq_refl eq_refl eq_refl).
Defined.

(** C6: with the stock (a finite number >= 0) and the settings
    (stockCoverageDays >= 1, reorderPoint in [0,1]) fixed, the suggested
    quantity does not decrease when the velocity increases, also from a zero
    to a positive velocity. *)
Theorem suggestedQuantity_monotone_in_velocity currentStock velocity1 velocity2 s :
  (0 <=? currentStock) = true -> is_finite currentStock = true ->
  (1 <=? stockCoverageDays s) = true ->
  (0 <=? reorderPoint s) = true -> (reorderPoint s <=? 1) = true ->
  (0 <=? velocity1) = true -> (0 <=? velocity2) = true ->
  (velocity1 <=? velocity2) = true ->
  (calculateSuggestedQuantity currentStock velocity1 s <=?
   calculateSuggestedQuantity currentStock velocity2 s) = true.
Proof.
  intros _ Fc Hd Hr0 Hr1 H1 H2 H12.
  assert (Hcc : (currentStock <=? currentStock) = true)
    by (apply leb_refl; apply is_finite_is_fin in Fc; destruct Fc; assumption).
  destruct (nonneg_cases _ H1) as [Hz1|Hp1].
  - rewrite (quantity_zero _ _ s Hz1).
    destruct (nonneg_cases _ H2) as [Hz2|Hp2].
    + rewrite (quantity_zero _ _ s Hz2). reflexivity.
    + assert (Hvv : (velocity2 <=? velocity2) = true)
        by (apply leb_refl; apply ltb_true in Hp2; tauto).
      destruct (quantity_mono _ _ _ _ s Hp2 Hvv Fc Fc Hcc Hd Hr0 Hr1) as (N & _ & V).
      rewrite leb_val by (assumption || exact is_num_0). rewrite val_0. apply Z.leb_le. lia.
  - destruct (quantity_mono _ _ _ _ s Hp1 H12 Fc Fc Hcc Hd Hr0 Hr1) as (N1 & N2 & V).
    rewrite leb_val by assumption. apply Z.leb_le. lia.
Qed.

Lemma suggestedQuantity_monotone_in_velocity_witness :
  ((0 <=? 10) = true /\ (0 <=? 0) = true /\ (0 <=? 2) = true /\ (0 <=? 2) = true) /\
  (calculateSuggestedQuantity 10 0 defaultSettings <=?
   calculateSuggestedQuantity 10 2 defaultSettings) = true.
Proof.
  split; [repeat split; reflexivity|].
  exact (suggestedQuantity_monotone_in_velocity 10 0 2 defaultSettings
           eq_refl eq_refl eq_refl eq_refl eq_refl eq_refl eq_refl eq_refl).
Defined.

(** C8: for a shop without a settings record, [getAppSettings] creates, stores
    and returns a record for that shop with stockCoverageDays = 30,
    lowStockThreshold = 7, mediumStockThreshold = 14, reorderPoint = 0.1 and
    emailNotifications = true; for a shop with a record it returns that record
    and leaves the store as it is.  The [loader] of the settings page does
    the same. *)
Theorem getAppSettings_defaults_or_existing shop db :
  match appSettings db !! shop with
  | None =>
      exists row db',
        getAppSettings shop db = (Resolved row, db') /\
        Prisma.shop row = shop /\
        Prisma.stockCoverageDays row = 30 /\
        Prisma.lowStockThreshold row = 7 /\
        Prisma.mediumStockThreshold row = 14 /\
        Prisma.reorderPoint row = 0.1 /\
        Prisma.emailNotifications row = true /\
        asSettings row = defaultSettings /\
        appSettings db' = <[shop := row]> (appSettings db) /\
        appSettings db' !! shop = Some row /\
        loader shop db =
          (Resolved {| settings := defaultSettings; error := None |}, db')
  | Some existing =>
      getAppSettings shop db = (Resolved existing, db) /\
      loader shop db =
        (Resolved {| settings := asSettings existing; error := None |}, db)
  end.
Proof.
  unfold getAppSettings, loader, try_catch, bind, findUnique, create, ret.
  destruct (appSettings db !! shop) as [existing|] eqn:Hlook; cbn.
  - split; reflexivity.
  - rewrite Hlook. eexists _, _. repeat split. cbn. apply lookup_insert_eq.
Qed.

(** C9: with inverted thresholds (medium <= low) [getStockStatus] never
    returns "medium": it returns "low" when daysOfStock < low and "good"
    otherwise, the medium branch being unreachable behind the low one. *)
Theorem inverted_thresholds_never_medium currentStock salesVelocity s :
  (mediumStockThreshold s <=? lowStockThreshold s) = true ->
  getStockStatus currentStock salesVelocity s <> "medium" /\
  ((daysOfStock currentStock salesVelocity <? lowStockThreshold s) = true ->
   getStockStatus currentStock salesVelocity s = "low") /\
  ((daysOfStock currentStock salesVelocity <? lowStockThreshold s) = false ->
   getStockStatus currentStock salesVelocity s = "good").
Proof.
  intros Hinv. rewrite status_cases. fold (daysOfStock currentStock salesVelocity).
  set (d := daysOfStock currentStock salesVelocity).
  apply leb_true in Hinv as (Nm & Nl & Vml).
  assert (Hmed : (d <? lowStockThreshold s) = false ->
                 (d <? mediumStockThreshold s) = false).
  { intros Hdl. destruct (d <? mediumStockThreshold s) eqn:Hdm; [|reflexivity].
    apply ltb_true in Hdm as (Nd & _ & Vd).
    rewrite (ltb_val _ _ Nd Nl) in Hdl. apply Z.ltb_ge in Hdl. lia. }
  destruct (d <? lowStockThreshold s) eqn:Hdl.
  - repeat split; try discriminate; reflexivity.
  - rewrite (Hmed eq_refl). repeat split; try discriminate; reflexivity.
Qed.

Lemma inverted_thresholds_never_medium_witness :
  (7 <=? 14) = true /\
  getStockStatus 10 1
    {| stockCoverageDays := 30; lowStockThreshold := 14;
       mediumStockThreshold := 7; reorderPoint := 0.1;
       emailNotifications := true |} <> "medium".
Proof.
  split; [reflexivity|].
  exact (proj1 (inverted_thresholds_never_medium 10 1
                  {| stockCoverageDays := 30; lowStockThreshold := 14;
                     mediumStockThreshold := 7; reorderPoint := 0.1;
                     emailNotifications := true |} eq_refl)).
Defined.

(** C10: for a positive velocity and reorderPoint in [0,1], when the stock on
    hand (a finite number) is at least the target stock
    ceiling(velocity * coverageDays), the suggested quantity is exactly 0: the
    safety multiplier leaves a zero raw suggestion at zero. *)
Theorem suggestedQuantity_zero_when_stock_covers_target currentStock salesVelocity s :
  (0 <? salesVelocity) = true ->
  (0 <=? reorderPoint s) = true -> (reorderPoint s <=? 1) = true ->
  is_finite currentStock = true ->
  (Math_ceil (salesVelocity * stockCoverageDays s) <=? currentStock) = true ->
  calculateSuggestedQuantity currentStock salesVelocity s = 0.
Proof.
  intros Hv Hr0 Hr1 Fc HT. rewrite (quantity_pos _ _ s Hv).
  apply leb_true in HT as (NT & _ & VT). apply is_finite_is_fin in Fc.
  pose proof inf_val_pos.
  pose proof (val_bounds (Math_ceil (salesVelocity * stockCoverageDays s))).
  set (T := Math_ceil (salesVelocity * stockCoverageDays s)) in *.
  assert (Hd : is_num (T - currentStock) /\ (val (T - currentStock) <= 0)%Z).
  { destruct (Z.eq_dec (val T) (- inf_val)) as [Hi|Hi].
    - destruct (sub_ninf T _ NT Hi Fc) as [Nd Vd]. split; [exact Nd | lia].
    - destruct Fc as [Nc Vc].
      destruct (sub_fin T currentStock ltac:(split; [assumption | lia])
                  ltac:(split; assumption)) as [Nd Vd].
      split; [exact Nd|]. rewrite Vd.
      pose proof (sRN_mono (val T - val currentStock) 0 (-1074)
                    ltac:(lia) ltac:(lia)) as Hm.
      rewrite sRN_0 in Hm. exact Hm. }
  destruct Hd as [Nd Vd]. rewrite (max0_zero _ Nd Vd).
  destruct (add1_val _ Hr0 Hr1) as [Fw Vw]. pose proof unit_val_pos.
  rewrite (mul_zero_l _ Fw ltac:(lia)). reflexivity.
Qed.

Lemma suggestedQuantity_zero_when_stock_covers_target_witness :
  ((0 <? 2) = true /\ (Math_ceil (2 * 30) <=? 60) = true) /\
  calculateSuggestedQuantity 60 2 defaultSettings = 0.
Proof.
  split; [split; reflexivity|].
  exact (suggestedQuantity_zero_when_stock_covers_target 60 2 defaultSettings
           eq_refl eq_refl eq_refl eq_refl eq_refl).
Defined.

(** ** Part VI: division rounds to nearest *)

Local Open Scope Z_scope.

Lemma new_location_rec q b r :
  0 < b -> 0 <= r < b ->
  shr_record_of_loc q (new_location b r) =
  {| shr_m := q; shr_r := b <=? 2 * r;
     shr_s := negb (r =? 0) && negb (2 * r =? b) |}.
Proof.
  intros Hb Hr. unfold new_location.
  destruct (Z.even b) eqn:Hev.
  - unfold new_location_even.
    destruct (Z.eqb_spec r 0) as [->|Hr0].
    + change (2 * 0) with 0. destruct (Z.leb_spec b 0); [lia | reflexivity].
    + destruct (Z.compare_spec (2 * r) b); destruct (Z.leb_spec b (2 * r));
        destruct (Z.eqb_spec (2 * r) b); simpl; try reflexivity; lia.
  - assert (Hne : 2 * r <> b).
    { intros <-. rewrite Z.even_mul in Hev. discriminate. }
    unfold new_location_odd.
    destruct (Z.eqb_spec r 0) as [->|Hr0].
    + change (2 * 0) with 0. destruct (Z.leb_spec b 0); [lia | reflexivity].
    + destruct (Z.compare_spec (2 * r + 1) b); destruct (Z.leb_spec b (2 * r));
        destruct (Z.eqb_spec (2 * r) b); simpl; try reflexivity; lia.
Qed.

Lemma shr_1_mk_recq a b : 0 <= a -> 0 < b -> shr_1 (mk_recq a b) = mk_recq a (b * 2).
Proof.
  intros Ha HB. unfold mk_recq.
  rewrite shr_1_nonneg by (apply Z.div_pos; lia).
  rewrite Z.rem_mul_r by lia.
  rewrite <- Z.div_div by lia.
  pose proof (Z.mod_pos_bound a b HB) as Hr.
  rewrite (Zmod_odd (a / b)).
  set (q := a / b). set (r := a mod b) in *.
  f_equal.
  - destruct (Z.odd q);
      [destruct (Z.leb_spec (b * 2) (2 * (r + b * 1)))
      |destruct (Z.leb_spec (b * 2) (2 * (r + b * 0)))];
      try reflexivity; lia.
  - destruct (Z.odd q).
    + destruct (Z.leb_spec b (2 * r));
        destruct (Z.eqb_spec r 0); destruct (Z.eqb_spec (2 * r) b);
        destruct (Z.eqb_spec (r + b * 1) 0);
        destruct (Z.eqb_spec (2 * (r + b * 1)) (b * 2));
        simpl; try reflexivity; lia.
    + destruct (Z.leb_spec b (2 * r));
        destruct (Z.eqb_spec r 0); destruct (Z.eqb_spec (2 * r) b);
        destruct (Z.eqb_spec (r + b * 0) 0);
        destruct (Z.eqb_spec (2 * (r + b * 0)) (b * 2));
        simpl; try reflexivity; lia.
Qed.

Lemma iter_pos_shr_1q p a b :
  0 <= a -> 0 < b -> iter_pos shr_1 p (mk_recq a b) = mk_recq a (b * 2 ^ Zpos p).
Proof.
  intros Ha. revert b. induction p as [p IH|p IH|]; intros b Hb; cbn [iter_pos].
  - pose proof (pow2_pos (Zpos p) ltac:(lia)).
    rewrite shr_1_mk_recq, !IH by nia. apply (f_equal (mk_recq a)).
    replace (Zpos p~1) with (Zpos p + Zpos p + 1) by lia.
    rewrite pow2_succ, pow2_add by lia. ring.
  - pose proof (pow2_pos (Zpos p) ltac:(lia)).
    rewrite !IH by nia. apply (f_equal (mk_recq a)).
    replace (Zpos p~0) with (Zpos p + Zpos p) by lia.
    rewrite pow2_add by lia. ring.
  - rewrite shr_1_mk_recq by lia. reflexivity.
Qed.

Lemma shr_mk_recq a b e n :
  0 <= a -> 0 < b -> 0 <= n -> shr (mk_recq a b) e n = (mk_recq a (b * 2 ^ n), e + n).
Proof.
  intros Ha Hb Hn. destruct n as [|p|p]; unfold shr; try lia.
  - rewrite Z.mul_1_r, Z.add_0_r. reflexivity.
  - rewrite iter_pos_shr_1q by lia. reflexivity.
Qed.

Lemma rneq_of_rec a b :
  0 < b ->
  round_nearest_even (shr_m (mk_recq a b)) (loc_of_shr_record (mk_recq a b)) = rneq a b.
Proof.
  intros HB. unfold mk_recq, rneq, loc_of_shr_record, round_nearest_even; simpl.
  pose proof (Z.mod_pos_bound a b HB) as Hr.
  destruct (Z.leb_spec b (2 * (a mod b)));
    destruct (Z.eqb_spec (a mod b) 0);
    destruct (Z.eqb_spec (2 * (a mod b)) b);
    destruct (Z.compare_spec (2 * (a mod b)) b); simpl; try reflexivity; lia.
Qed.

Lemma rneq_scale a b c : 0 < b -> 0 < c -> rneq (a * c) (b * c) = rneq a b.
Proof.
  intros Hb Hc. unfold rneq.
  rewrite Z.div_mul_cancel_r, Z.mul_mod_distr_r by lia.
  pose proof (Z.mod_pos_bound a b Hb).
  destruct (Z.compare_spec (2 * (a mod b * c)) (b * c));
    destruct (Z.compare_spec (2 * (a mod b)) b); try reflexivity; nia.
Qed.

Lemma rne_sticky A B k :
  0 <= A -> 0 < B -> 1 <= k -> rne (sticky A B) (k + 1) = rneq A (B * 2 ^ k).
Proof.
  intros HA HB Hk. unfold rne, rneq, sticky.
  pose proof (pow2_pos k ltac:(lia)) as Hp.
  pose proof (pow2_pos (k - 1) ltac:(lia)) as Hh.
  assert (H2k : 2 ^ k = 2 * 2 ^ (k - 1)).
  { replace k with ((k - 1) + 1) at 1 by lia. apply pow2_succ. lia. }
  pose proof (Z.mod_pos_bound A B HB) as Hrho.
  set (F := A / B). set (rho := A mod B) in *.
  set (sg := if rho =? 0 then 0 else 1).
  assert (Hsg : 0 <= sg <= 1 /\ (sg = 0 <-> rho = 0)).
  { unfold sg. destruct (Z.eqb_spec rho 0); lia. }
  rewrite pow2_succ by lia.
  assert (Hq : (2 * F + sg) / (2 * 2 ^ k) = F / 2 ^ k).
  { rewrite <- Z.div_div by lia. f_equal.
    symmetry. apply (Z.div_unique (2 * F + sg) 2 F sg); lia. }
  assert (Hq' : A / (B * 2 ^ k) = F / 2 ^ k).
  { rewrite <- Z.div_div by lia. reflexivity. }
  assert (Hm : (2 * F + sg) mod (2 * 2 ^ k) = sg + 2 * (F mod 2 ^ k)).
  { rewrite Z.rem_mul_r by lia. f_equal.
    - symmetry. apply (Z.mod_unique (2 * F + sg) 2 F sg); lia.
    - f_equal. f_equal. symmetry. apply (Z.div_unique (2 * F + sg) 2 F sg); lia. }
  assert (Hm' : A mod (B * 2 ^ k) = rho + B * (F mod 2 ^ k)).
  { rewrite Z.rem_mul_r by lia. reflexivity. }
  rewrite Hq, Hq', Hm, Hm'.
  pose proof (Z.mod_pos_bound F (2 ^ k) Hp) as Hphi.
  set (phi := F mod 2 ^ k) in *. set (h := 2 ^ (k - 1)) in *.
  rewrite H2k in *. clearbody phi h sg rho F.
  destruct Hsg as [Hsg0 Hsg1].
  destruct (Z.compare_spec phi h) as [He|Hl|Hg].
  - subst phi.
    destruct (Z.eq_dec rho 0) as [Hr0|Hr0].
    + assert (sg = 0) by tauto. subst.
      destruct (Z.compare_spec (2 * (0 + 2 * h)) (2 * (2 * h)));
      destruct (Z.compare_spec (2 * (0 + B * h)) (B * (2 * h))); try reflexivity; lia.
    + assert (sg = 1) by lia. subst.
      destruct (Z.compare_spec (2 * (1 + 2 * h)) (2 * (2 * h)));
      destruct (Z.compare_spec (2 * (rho + B * h)) (B * (2 * h))); try reflexivity; lia.
  - assert (B * phi + B <= B * h) by nia.
    destruct (Z.compare_spec (2 * (sg + 2 * phi)) (2 * (2 * h)));
      destruct (Z.compare_spec (2 * (rho + B * phi)) (B * (2 * h))); try reflexivity; lia.
  - assert (B * h + B <= B * phi) by nia.
    destruct (Z.compare_spec (2 * (sg + 2 * phi)) (2 * (2 * h)));
      destruct (Z.compare_spec (2 * (rho + B * phi)) (B * (2 * h))); try reflexivity; lia.
Qed.

Lemma sticky_mono_num A1 A2 B : 0 <= A1 <= A2 -> 0 < B -> sticky A1 B <= sticky A2 B.
Proof.
  intros HA HB. unfold sticky.
  pose proof (Z.div_le_mono A1 A2 B HB ltac:(lia)) as Hq.
  pose proof (Z.div_mod A1 B ltac:(lia)). pose proof (Z.div_mod A2 B ltac:(lia)).
  pose proof (Z.mod_pos_bound A1 B HB). pose proof (Z.mod_pos_bound A2 B HB).
  destruct (Z.eqb_spec (A1 mod B) 0); destruct (Z.eqb_spec (A2 mod B) 0); try lia.
  destruct (Z.eq_dec (A1 / B) (A2 / B)) as [He|Hne]; [|lia].
  rewrite He in *. lia.
Qed.

Lemma sticky_mono_den A B1 B2 : 0 <= A -> 0 < B1 <= B2 -> sticky A B2 <= sticky A B1.
Proof.
  intros HA HB. unfold sticky.
  pose proof (Z.div_le_compat_l A B1 B2 HA ltac:(lia)) as Hq.
  pose proof (Z.div_mod A B1 ltac:(lia)). pose proof (Z.div_mod A B2 ltac:(lia)).
  pose proof (Z.mod_pos_bound A B1 ltac:(lia)). pose proof (Z.mod_pos_bound A B2 ltac:(lia)).
  pose proof (Z.div_pos A B2 HA ltac:(lia)).
  destruct (Z.eqb_spec (A mod B1) 0); destruct (Z.eqb_spec (A mod B2) 0); try lia.
  destruct (Z.eq_dec (A / B1) (A / B2)) as [He|Hne]; [|lia].
  rewrite He in *. nia.
Qed.

Lemma sticky_scale A B c : 0 < B -> 0 < c -> sticky (A * c) (B * c) = sticky A B.
Proof.
  intros HB Hc. unfold sticky.
  rewrite Z.div_mul_cancel_r, Z.mul_mod_distr_r by lia.
  destruct (Z.eqb_spec (A mod B * c) 0); destruct (Z.eqb_spec (A mod B) 0);
    try reflexivity; nia.
Qed.

Lemma sticky_nonneg A B : 0 <= A -> 0 < B -> 0 <= sticky A B.
Proof.
  intros HA HB. unfold sticky. pose proof (Z.div_pos A B HA HB).
  destruct (_ =? _); lia.
Qed.

(** The number of digits of the quotient carries over to its scaled form. *)
Lemma digits_sticky a b t :
  0 < a -> 0 < b -> 0 <= t ->
  0 < sticky (a * 2 ^ t) b /\
  (1 <= a / b -> Zdigits2 (sticky (a * 2 ^ t) b) = Zdigits2 (a / b) + t + 1) /\
  (a / b = 0 -> Zdigits2 (sticky (a * 2 ^ t) b) <= t + 1).
Proof.
  intros Ha Hb Ht. pose proof (pow2_pos t Ht) as Hp.
  pose proof (Z.div_mod a b ltac:(lia)) as Hdm.
  pose proof (Z.mod_pos_bound a b Hb) as Hrho.
  assert (HF1 : (a / b) * 2 ^ t <= (a * 2 ^ t) / b).
  { apply Z.div_le_lower_bound; [lia | nia]. }
  assert (HF2 : (a * 2 ^ t) / b < (a / b + 1) * 2 ^ t).
  { apply Z.div_lt_upper_bound; [lia | nia]. }
  pose proof (Z.div_mod (a * 2 ^ t) b ltac:(lia)) as Hdm'.
  pose proof (Z.mod_pos_bound (a * 2 ^ t) b Hb) as Hrho'.
  pose proof (Z.div_pos a b ltac:(lia) Hb) as Hq0.
  unfold sticky.
  set (F := (a * 2 ^ t) / b) in *. set (q := a / b) in *.
  set (sg := if (a * 2 ^ t) mod b =? 0 then 0 else 1).
  assert (Hsg : 0 <= sg <= 1 /\ (sg = 0 -> (a * 2 ^ t) mod b = 0)).
  { unfold sg. destruct (Z.eqb_spec ((a * 2 ^ t) mod b) 0); lia. }
  assert (HM : 0 < 2 * F + sg).
  { destruct (Z.eq_dec sg 0) as [H0|H0]; [|nia].
    destruct Hsg as [_ Hsg]. specialize (Hsg H0). nia. }
  split; [exact HM|]. split.
  - intros Hq1.
    pose proof (Zdigits2_bounds q ltac:(lia)) as [Hd1 Hd2].
    pose proof (Zdigits2_pos q ltac:(lia)) as Hdp.
    apply Zdigits2_unique; [|exact HM].
    replace (Zdigits2 q + t + 1 - 1) with ((Zdigits2 q - 1) + t + 1) by lia.
    rewrite !pow2_succ, !pow2_add by lia.
    set (P := 2 ^ (Zdigits2 q - 1)) in *.
    assert (HP : 2 ^ Zdigits2 q = 2 * P).
    { unfold P. rewrite <- pow2_succ by lia. f_equal. lia. }
    rewrite HP in *. nia.
  - intros Hq. rewrite Hq in *.
    apply Zdigits2_le; [|lia]. rewrite pow2_succ by lia. lia.
Qed.

(** The second phase of [binary_round_aux]: a rounded mantissa is
    renormalised and checked for overflow. *)
Lemma round_finish s M1 E :
  -1074 <= E -> 0 <= M1 <= 2 ^ 53 -> (-1074 < E -> 2 ^ 52 <= M1) ->
  rounds_to s (Z.min inf_val (M1 * 2 ^ (E + 1074)))
    (let '(mrs'', e'') := shr_fexp prec emax M1 E loc_Exact in
     match shr_m mrs'' with
     | 0 => S754_zero s
     | Zpos m => if e'' <=? emax - prec then S754_finite s m e'' else S754_infinity s
     | Zneg _ => S754_nan
     end).
Proof.
  intros HE H53 H52.
  rewrite shr_fexp_exact by lia. cbv beta iota.
  destruct (Z.eq_dec M1 0) as [->|HM0].
  - change (Zdigits2 0) with 0. rewrite fexp64, Z.max_l by lia. rewrite mk_rec_0.
    cbn [shr_m]. split; [reflexivity|]. split; [reflexivity|].
    pose proof inf_val_pos. lia.
  - destruct (Z.eq_dec M1 (2 ^ 53)) as [->|HM53].
    + change (Zdigits2 (2 ^ 53)) with 54. rewrite fexp64.
      replace (Z.max 0 (Z.max (54 + E - 53) (-1074) - E)) with 1 by lia.
      change (shr_m (mk_rec (2 ^ 53) 1)) with (Zpos (Z.to_pos (2 ^ 52))).
      change (emax - prec) with 971.
      pose proof (pow2_pos (E + 1074) ltac:(lia)).
      destruct (Z.leb_spec (E + 1) 971).
      * split; [apply valid_finite; change (Zpos (Z.to_pos (2 ^ 52))) with (2 ^ 52); lia|].
        split; [reflexivity|].
        change (Zpos (Z.to_pos (2 ^ 52))) with (2 ^ 52).
        replace (E + 1 + 1074) with ((E + 1074) + 1) by lia. rewrite pow2_succ by lia.
        change (2 ^ 53) with (2 * 2 ^ 52).
        assert (Hlt : 2 ^ 52 * (2 * 2 ^ (E + 1074)) < inf_val).
        { replace (2 * 2 ^ (E + 1074)) with (2 ^ ((E + 1) + 1074))
            by (replace (E + 1 + 1074) with ((E + 1074) + 1) by lia; rewrite pow2_succ by lia; reflexivity).
          apply (finite_val_lt (Z.to_pos (2 ^ 52))); [reflexivity | lia]. }
        lia.
      * split; [reflexivity|]. split; [reflexivity|].
        pose proof (overflow_val_ge (2 ^ 52) (E + 1) ltac:(lia) ltac:(lia)) as Hov.
        replace (E + 1 + 1074) with ((E + 1074) + 1) in Hov by lia.
        rewrite pow2_succ in Hov by lia. change (2 ^ 53) with (2 * 2 ^ 52). lia.
    + assert (HM1 : 0 < M1 < 2 ^ 53) by lia.
      pose proof (Zdigits2_le M1 53 HM1 ltac:(lia)) as Hd.
      rewrite fexp64. rewrite Z.max_l by lia. rewrite mk_rec_0. cbn [shr_m].
      rewrite Z.add_0_r.
      destruct M1 as [|p|p]; try lia.
      change (emax - prec) with 971.
      destruct (Z.leb_spec E 971).
      * split; [apply valid_finite; lia|]. split; [reflexivity|].
        pose proof (finite_val_lt p E ltac:(lia) ltac:(lia)). lia.
      * split; [reflexivity|]. split; [reflexivity|].
        pose proof (overflow_val_ge (Zpos p) E ltac:(lia) ltac:(lia)). lia.
Qed.

(** [binary_round_aux] on a quotient and the location of its remainder
    rounds the exact quotient to nearest. *)
Lemma round_quotient s a b e :
  0 < a -> 0 < b -> -2075 <= e ->
  e <= fexp prec emax (Zdigits2 (a / b) + e) -> (a / b = 0 -> e <= -1074) ->
  rounds_to s (RN (sticky (a * 2 ^ (e + 2075)) b) (-2076))
    (binary_round_aux prec emax s (a / b) e (new_location b (a mod b))).
Proof.
  intros Ha Hb He Hn Hq0.
  pose proof (Z.mod_pos_bound a b Hb) as Hrho.
  pose proof (Z.div_pos a b ltac:(lia) Hb) as Hq.
  destruct (digits_sticky a b (e + 2075) Ha Hb ltac:(lia)) as (HM & Hd1 & Hd0).
  set (M := sticky (a * 2 ^ (e + 2075)) b) in *.
  set (E := fexp prec emax (Zdigits2 (a / b) + e)) in *.
  assert (HE : -1074 <= E) by (unfold E; rewrite fexp64; lia).
  assert (HEM : fexp prec emax (Zdigits2 M + -2076) = E).
  { unfold E. rewrite !fexp64.
    destruct (Z.eq_dec (a / b) 0) as [H0|H0].
    - rewrite H0. change (Zdigits2 0) with 0. specialize (Hd0 H0). specialize (Hq0 H0). lia.
    - rewrite Hd1 by lia. f_equal. lia. }
  assert (Hpre : -2076 <= fexp prec emax (Zdigits2 M + -2076)) by lia.
  pose proof (rne_le_53 M (-2076) HM Hpre) as H53.
  pose proof (rne_ge_52 M (-2076) HM Hpre) as H52.
  pose proof (rne_nonneg M (fexp prec emax (Zdigits2 M + -2076) - -2076) ltac:(lia) ltac:(lia)) as H0.
  unfold RN. rewrite HEM in *.
  assert (Hrn : rne M (E - -2076) = rneq a (b * 2 ^ (E - e))).
  { replace (E - -2076) with ((E + 2075) + 1) by lia.
    unfold M. rewrite rne_sticky by (try apply Z.mul_nonneg_nonneg; try apply Z.pow_nonneg; lia).
    replace (E + 2075) with ((E - e) + (e + 2075)) by lia.
    rewrite (pow2_add (E - e) (e + 2075)) by lia. rewrite Z.mul_assoc.
    apply rneq_scale; [|apply pow2_pos; lia].
    pose proof (pow2_pos (E - e) ltac:(lia)). nia. }
  unfold binary_round_aux, shr_fexp at 1. fold E.
  rewrite new_location_rec by lia. fold (mk_recq a b).
  rewrite shr_mk_recq by lia. cbv beta iota.
  replace (e + (E - e)) with E by lia.
  rewrite rneq_of_rec by (pose proof (pow2_pos (E - e) ltac:(lia)); nia).
  rewrite <- Hrn. apply round_finish; lia.
Qed.

Lemma SFdiv_finite sx mx ex sy my ey :
  valid_number (S754_finite sx mx ex) -> valid_number (S754_finite sy my ey) ->
  rounds_to (xorb sx sy)
    (RN (sticky_quotient (Zpos mx * 2 ^ (ex + 1074)) (Zpos my * 2 ^ (ey + 1074))) (-2076))
    (SFdiv prec emax (S754_finite sx mx ex) (S754_finite sy my ey)).
Proof.
  intros Hx Hy.
  pose proof (valid_finite_inv _ _ _ (proj1 Hx)) as (_ & Hmx & _).
  pose proof (Zdigits2_le (Zpos mx) 53 ltac:(lia) ltac:(lia)) as Hd53.
  apply valid_number_finite in Hx as (Hex & _ & _).
  apply valid_number_finite in Hy as (Hey & _ & _).
  cbn [SFdiv]. unfold SFdiv_core_binary.
  set (d1 := Zdigits2 (Zpos mx)). set (d2 := Zdigits2 (Zpos my)).
  set (e' := Z.min (fexp prec emax (d1 + ex - (d2 + ey))) (ex - ey)).
  set (sh := ex - ey - e').
  assert (Hsh : 0 <= sh) by (unfold sh, e'; lia).
  assert (He' : -2075 <= e') by (unfold e'; rewrite fexp64; lia).
  set (m' := match sh with Z.pos _ => Z.shiftl (Z.pos mx) sh | 0 => Z.pos mx | Z.neg _ => 0 end).
  assert (Hm' : m' = Zpos mx * 2 ^ sh).
  { unfold m'. destruct sh as [|p|p]; [simpl; lia | apply Z.shiftl_mul_pow2; lia | lia]. }
  pose proof (pow2_pos sh Hsh) as Hpsh.
  assert (Hm'pos : 0 < m') by (rewrite Hm'; nia).
  pose proof (Zdigits2_bounds (Zpos mx) ltac:(lia)) as [Hb1 Hb1'].
  pose proof (Zdigits2_bounds (Zpos my) ltac:(lia)) as [Hb2 Hb2'].
  pose proof (Zdigits2_pos (Zpos mx) ltac:(lia)) as Hd1.
  pose proof (Zdigits2_pos (Zpos my) ltac:(lia)) as Hd2.
  fold d1 in Hb1, Hb1', Hd1, Hd53. fold d2 in Hb2, Hb2', Hd2.
  (* a quotient above the subnormal range has 53 digits *)
  assert (Hbig : -1074 < e' -> 2 ^ 52 <= m' / Zpos my).
  { intros Hgt. assert (Hs53 : 53 - d1 + d2 <= sh).
    { unfold sh, e' in *. rewrite fexp64 in *. lia. }
    apply Z.div_le_lower_bound; [lia|]. rewrite Hm'.
    pose proof (pow2_le (53 - d1 + d2) sh ltac:(lia)) as Hle.
    assert (Hprod : 2 ^ (d1 - 1) * 2 ^ (53 - d1 + d2) = 2 ^ 52 * 2 ^ d2).
    { rewrite <- !pow2_add by lia. f_equal. lia. }
    pose proof (pow2_pos (d1 - 1) ltac:(lia)). pose proof (pow2_pos d2 ltac:(lia)).
    pose proof (pow2_pos (53 - d1 + d2) ltac:(lia)). pose proof (pow2_pos 52 ltac:(lia)).
    generalize dependent (2 ^ 52). generalize dependent (2 ^ d2).
    generalize dependent (2 ^ (d1 - 1)). generalize dependent (2 ^ (53 - d1 + d2)).
    generalize dependent (2 ^ sh). intros. nia. }
  pose proof (round_quotient (xorb sx sy) m' (Zpos my) e' Hm'pos ltac:(lia) He') as Hr.
  unfold Z.div, Z.modulo in Hr.
  destruct (Z.div_eucl m' (Zpos my)) as [q r] eqn:Hqr.
  assert (Hq : q = m' / Zpos my) by (unfold Z.div; rewrite Hqr; reflexivity).
  replace (sticky_quotient (Zpos mx * 2 ^ (ex + 1074)) (Zpos my * 2 ^ (ey + 1074)))
    with (sticky (m' * 2 ^ (e' + 2075)) (Zpos my)).
  - apply Hr.
    + destruct (Z_le_gt_dec e' (-1074)) as [Hle|Hgt]; [rewrite fexp64; lia|].
      specialize (Hbig ltac:(lia)). rewrite <- Hq in Hbig.
      pose proof (Zdigits2_gt q 52 Hbig ltac:(lia)). rewrite fexp64. lia.
    + intros H0. destruct (Z_le_gt_dec e' (-1074)) as [Hle|Hgt]; [exact Hle|].
      specialize (Hbig ltac:(lia)). rewrite <- Hq, H0 in Hbig.
      pose proof (pow2_pos 52 ltac:(lia)). lia.
  - unfold sticky_quotient, quo_scale.
    rewrite <- (sticky_scale _ (Zpos my) (2 ^ (ey + 1074)))
      by (try apply pow2_pos; lia).
    f_equal. rewrite Hm'. rewrite <- !Z.mul_assoc. f_equal.
    rewrite <- !pow2_add by lia. f_equal. unfold sh. lia.
Qed.

Lemma sticky_quotient_0 y : sticky_quotient 0 y = 0.
Proof. unfold sticky_quotient, sticky. rewrite Z.mul_0_l, Zdiv_0_l, Zmod_0_l. reflexivity. Qed.

Lemma quo_scale_pos : 0 < quo_scale.
Proof. apply pow2_pos. lia. Qed.

Lemma sticky_quotient_mono x1 x2 y1 y2 :
  0 <= x1 <= x2 -> 0 < y2 <= y1 -> 0 <= sticky_quotient x1 y1 <= sticky_quotient x2 y2.
Proof.
  intros Hx Hy. pose proof quo_scale_pos as Hs. unfold sticky_quotient.
  pose proof (sticky_nonneg (x1 * quo_scale) y1 ltac:(nia) ltac:(lia)).
  pose proof (sticky_mono_num (x1 * quo_scale) (x2 * quo_scale) y1 ltac:(nia) ltac:(lia)).
  pose proof (sticky_mono_den (x2 * quo_scale) y2 y1 ltac:(nia) ltac:(lia)).
  lia.
Qed.

Lemma shape_zero x : valid_number x -> SFval x = 0 -> exists s, x = S754_zero s.
Proof.
  intros [Hv Hn] HV. pose proof inf_val_pos.
  destruct x as [s|s| |s m e]; cbn [SFval] in HV.
  - eauto.
  - destruct s; cbn [cond_Zopp] in HV; lia.
  - exfalso. apply Hn. reflexivity.
  - pose proof (SFval_finite _ _ _ Hv). destruct s; cbn [cond_Zopp] in HV; lia.
Qed.

Local Open Scope float_scope.

(** The quotient of a finite non-negative number by a positive one. *)
Lemma div_val c v :
  is_fin c -> (0 <= val c)%Z -> is_num v -> (0 < val v)%Z ->
  is_num (c / v) /\
  val (c / v) = if (val v =? inf_val)%Z then 0%Z
                else RN (sticky_quotient (val c) (val v)) (-2076).
Proof.
  intros [Nc Fc] Vc Nv Vv. pose proof inf_val_pos.
  pose proof (val_bounds v) as Bv.
  unfold is_num, val in *. rewrite div_spec. unfold SF64div.
  pose proof (is_num_valid c Nc) as Hc. pose proof (is_num_valid v Nv) as Hv.
  destruct (Z.eqb_spec (SFval (Prim2SF v)) inf_val) as [Hi|Hi].
  - rewrite (shape_inf _ Hv Hi).
    destruct (Z.eq_dec (SFval (Prim2SF c)) 0) as [H0|H0].
    + destruct (shape_zero _ Hc H0) as [s ->]. split; [discriminate | reflexivity].
    + destruct (shape_pos _ Hc ltac:(lia)) as (m & e & ->). split; [discriminate | reflexivity].
  - destruct (shape_pos _ Hv ltac:(lia)) as (my & ey & Ey). rewrite Ey in *.
    destruct (Z.eq_dec (SFval (Prim2SF c)) 0) as [H0|H0].
    + rewrite H0. destruct (shape_zero _ Hc H0) as [s ->].
      rewrite sticky_quotient_0, RN_0. split; [discriminate | reflexivity].
    + destruct (shape_pos _ Hc ltac:(lia)) as (mx & ex & Ex). rewrite Ex in *.
      destruct (rounds_to_valid _ _ _ (SFdiv_finite _ _ _ _ _ _ Hc Hv)) as [[_ Hn] HV].
      split; [exact Hn | exact HV].
Qed.

(** Days of stock grow with the stock and shrink with the velocity. *)
Lemma days_mono c1 c2 v1 v2 :
  is_fin c1 -> is_fin c2 -> (0 <= val c1 <= val c2)%Z ->
  is_num v1 -> is_num v2 -> (0 <= val v2 <= val v1)%Z ->
  is_num (daysOfStock c1 v1) /\ is_num (daysOfStock c2 v2) /\
  (val (daysOfStock c1 v1) <= val (daysOfStock c2 v2))%Z.
Proof.
  intros F1 F2 Vc N1 N2 Vv. pose proof inf_val_pos.
  unfold daysOfStock, Infinity.
  rewrite (ltb_val 0 v1 is_num_0 N1), (ltb_val 0 v2 is_num_0 N2), val_0.
  assert (Ninf : is_num infinity) by discriminate.
  destruct (Z.ltb_spec 0 (val v2)) as [P2|P2].
  - destruct (Z.ltb_spec 0 (val v1)) as [P1|P1]; [|lia].
    destruct (div_val c1 v1 F1 ltac:(lia) N1 P1) as [Nd1 Vd1].
    destruct (div_val c2 v2 F2 ltac:(lia) N2 P2) as [Nd2 Vd2].
    split; [exact Nd1|]. split; [exact Nd2|]. rewrite Vd1, Vd2.
    pose proof (val_bounds v1).
    pose proof (sticky_quotient_mono (val c1) (val c2) (val v1) (val v2) Vc ltac:(lia)) as Hs.
    pose proof (RN_mono0 _ _ (-2076) Hs ltac:(lia)) as Hr.
    pose proof (RN_mono0 0 (sticky_quotient (val c2) (val v2)) (-2076) ltac:(lia) ltac:(lia)) as Hr0.
    rewrite RN_0 in Hr0.
    destruct (Z.eqb_spec (val v1) inf_val); destruct (Z.eqb_spec (val v2) inf_val); lia.
  - split; [|split; [exact Ninf|]].
    + destruct (Z.ltb_spec 0 (val v1)) as [P1|P1]; [|exact Ninf].
      apply (div_val c1 v1 F1 ltac:(lia) N1 P1).
    + rewrite val_infinity. apply val_bounds.
Qed.

Lemma days_mono_stock c1 c2 v :
  is_fin c1 -> is_fin c2 -> (0 <= val c1 <= val c2)%Z ->
  is_num (daysOfStock c1 v) /\ is_num (daysOfStock c2 v) /\
  (val (daysOfStock c1 v) <= val (daysOfStock c2 v))%Z.
Proof.
  intros F1 F2 Vc.
  destruct (0 <? v) eqn:Hv.
  - pose proof (ltb_true _ _ Hv) as (_ & Nv & Vv). rewrite val_0 in Vv.
    apply days_mono; try assumption. lia.
  - unfold daysOfStock. rewrite Hv. split; [discriminate|]. split; [discriminate|]. lia.
Qed.

(** The status follows the days of stock. *)
Lemma status_order c1 v1 c2 v2 s :
  is_num (daysOfStock c1 v1) -> is_num (daysOfStock c2 v2) ->
  (val (daysOfStock c1 v1) <= val (daysOfStock c2 v2))%Z ->
  (getStockStatus c2 v2 s = "low" -> getStockStatus c1 v1 s = "low") /\
  (getStockStatus c1 v1 s = "good" -> getStockStatus c2 v2 s = "good").
Proof.
  intros N1 N2 V. rewrite !status_cases.
  set (d1 := daysOfStock c1 v1) in *. set (d2 := daysOfStock c2 v2) in *.
  assert (Hlt : forall t, (d2 <? t) = true -> (d1 <? t) = true).
  { intros t Ht. apply ltb_true in Ht as (_ & Nt & Vt).
    rewrite (ltb_val _ _ N1 Nt). apply Z.ltb_lt. lia. }
  pose proof (Hlt (lowStockThreshold s)) as Hl.
  pose proof (Hlt (mediumStockThreshold s)) as Hm.
  destruct (d2 <? lowStockThreshold s).
  - rewrite Hl by reflexivity. split; [reflexivity | discriminate].
  - destruct (d2 <? mediumStockThreshold s).
    + rewrite Hm by reflexivity. split; [discriminate|].
      destruct (d1 <? lowStockThreshold s); discriminate.
    + split; [discriminate | reflexivity].
Qed.

(** ** Part VII: more on the calculator *)

(** Scaling an exact value by 1.0 and rounding gives the value back. *)
Lemma RN_unit_mul x :
  valid_number x -> (0 <= SFval x < inf_val)%Z ->
  RN (SFval x * unit_val) (-2148) = SFval x.
Proof.
  intros Hx Vx.
  destruct (Z.eq_dec (SFval x) 0) as [H0|H0].
  - rewrite H0. apply RN_0.
  - pose proof (RN_scale (SFval x) (-1074) 1074 ltac:(lia) ltac:(lia)
                  ltac:(rewrite fexp64; lia)) as Hs.
    change (-1074 - 1074)%Z with (-2148)%Z in Hs. fold unit_val in Hs. rewrite Hs.
    pose proof (sRN_valid x Hx ltac:(lia)) as Hr. unfold sRN in Hr.
    destruct (Z.ltb_spec (SFval x) 0); [lia | exact Hr].
Qed.

(** A factor of at least 1 never lowers a non-negative number. *)
Lemma mul_ge_l q w :
  is_num q -> (0 <= val q)%Z -> is_fin w -> (unit_val <= val w)%Z ->
  is_num (q * w) /\ (val q <= val (q * w))%Z.
Proof.
  intros Nq Vq [Nw Fw] Vw. pose proof unit_val_pos. pose proof inf_val_pos.
  pose proof (val_bounds q) as Bq. unfold is_num, val in *. rewrite mul_spec. unfold SF64mul.
  destruct (Z.eq_dec (SFval (Prim2SF q)) inf_val) as [Hi|Hi].
  - rewrite (shape_inf _ (is_num_valid q Nq) Hi).
    rewrite SFmul_inf_l by (try apply is_num_valid; assumption || lia).
    split; [discriminate | cbn [SFval cond_Zopp]; lia].
  - destruct (SFmul_nonneg _ _ (is_num_valid q Nq) (is_num_valid w Nw) ltac:(lia) ltac:(lia))
      as [[_ Hn] HV].
    split; [exact Hn|]. rewrite HV.
    rewrite <- (RN_unit_mul (Prim2SF q)) at 1 by (try apply is_num_valid; assumption || lia).
    apply RN_mono0; [nia | lia].
Qed.

Lemma mul_le_r q w1 w2 :
  is_num q -> (0 <= val q)%Z -> is_fin w1 -> is_fin w2 ->
  (0 < val w1 <= val w2)%Z ->
  is_num (q * w1) /\ is_num (q * w2) /\ (val (q * w1) <= val (q * w2))%Z.
Proof.
  intros Nq Vq [N1 F1] [N2 F2] Vw. pose proof inf_val_pos.
  pose proof (val_bounds q) as Bq. unfold is_num, val in *. rewrite !mul_spec. unfold SF64mul.
  destruct (Z.eq_dec (SFval (Prim2SF q)) inf_val) as [Hi|Hi].
  - rewrite (shape_inf _ (is_num_valid q Nq) Hi).
    rewrite !SFmul_inf_l by (try apply is_num_valid; assumption || lia).
    split; [discriminate|]. split; [discriminate|]. lia.
  - destruct (SFmul_nonneg _ _ (is_num_valid q Nq) (is_num_valid w1 N1) ltac:(lia) ltac:(lia))
      as [[_ Hn1] HV1].
    destruct (SFmul_nonneg _ _ (is_num_valid q Nq) (is_num_valid w2 N2) ltac:(lia) ltac:(lia))
      as [[_ Hn2] HV2].
    split; [exact Hn1|]. split; [exact Hn2|]. rewrite HV1, HV2.
    apply RN_mono0; [nia | lia].
Qed.

(** The raw suggestion: a number, not negative, positive when the stock is
    below the target. *)
Lemma raw_suggestion c v s :
  (0 <? v) = true -> (1 <=? stockCoverageDays s) = true -> is_finite c = true ->
  let T := Math_ceil (v * stockCoverageDays s) in
  is_num T /\ is_num (Math_max 0 (T - c)) /\ (0 <= val (Math_max 0 (T - c)))%Z /\
  ((c <? T) = true -> (0 < val (Math_max 0 (T - c)))%Z).
Proof.
  intros Hv Hd Fc T.
  assert (Hvv : (v <=? v) = true) by (apply leb_refl; apply ltb_true in Hv; tauto).
  destruct (target_mono v v _ Hv Hvv Hd) as (NT & _ & VT). fold T in NT, VT.
  pose proof (is_finite_is_fin _ Fc) as Fc'.
  destruct (raw_mono T T c c NT NT ltac:(lia) Fc' Fc' ltac:(lia)) as (Nq & _ & Vq).
  split; [exact NT|]. split; [exact Nq|]. split; [lia|].
  intros Hlt. apply ltb_true in Hlt as (Nc & _ & Vlt).
  pose proof inf_val_pos. pose proof (val_bounds T).
  assert (Hd' : is_num (T - c) /\ (0 < val (T - c))%Z).
  { destruct (Z.eq_dec (val T) inf_val) as [Hi|Hi].
    - destruct (sub_inf T c NT Hi Fc') as [Nd Vd]. split; [exact Nd | lia].
    - destruct (sub_fin T c ltac:(split; [assumption | lia]) Fc') as [Nd Vd].
      split; [exact Nd|]. rewrite Vd.
      pose proof (sRN_mono 1 (val T - val c) (-1074) ltac:(lia) ltac:(lia)) as Hm.
      assert (H1 : sRN 1 (-1074) = 1%Z).
      { unfold sRN. cbn [Z.ltb Z.compare].
        exact (RN_canonical 1 (-1074) ltac:(lia) ltac:(reflexivity) ltac:(lia)). }
      lia. }
  destruct Hd' as [Nd Vd]. destruct (max0_val _ Nd) as [_ ->]. lia.
Qed.

Lemma val_2 : val 2 = (2 * unit_val)%Z.
Proof. reflexivity. Qed.

Lemma is_fin_2 : is_fin 2.
Proof. apply is_finite_is_fin. reflexivity. Qed.

(** Rounding keeps whole numbers whole. *)
Lemma RN_whole z : (0 <= z)%Z -> (unit_val | z)%Z -> (unit_val | RN z (-1074))%Z.
Proof.
  intros Hz [k Hk]. pose proof unit_val_pos as Hu.
  destruct (Z.eq_dec k 0) as [->|Hk0].
  - subst z. rewrite Z.mul_0_l, RN_0. apply Z.divide_0_r.
  - assert (Hkp : (0 < k)%Z) by nia.
    unfold RN. apply Z.min_case.
    + rewrite inf_val_unit. apply Z.divide_factor_r.
    + assert (Hd : Zdigits2 z = (Zdigits2 k + 1074)%Z).
      { subst z. unfold unit_val. apply Zdigits2_scale; lia. }
      rewrite Hd. replace (Zdigits2 k + 1074 + -1074)%Z with (Zdigits2 k) by lia.
      pose proof (Zdigits2_pos k Hkp) as Hdk.
      set (E := fexp prec emax (Zdigits2 k)).
      assert (HE : (-1074 < E)%Z) by (unfold E; rewrite fexp64; lia).
      destruct (Z_le_gt_dec 0 E) as [Hpos|Hneg].
      * rewrite (pow2_add E 1074) by lia. fold unit_val.
        rewrite Z.mul_assoc. apply Z.divide_factor_r.
      * replace (E - -1074)%Z with (0 + (E + 1074))%Z by lia.
        assert (Hz' : z = (k * 2 ^ (- E) * 2 ^ (E + 1074))%Z).
        { subst z. unfold unit_val. rewrite <- Z.mul_assoc, <- pow2_add by lia.
          f_equal. f_equal. lia. }
        rewrite Hz' at 1. rewrite rne_scale, rne_0 by lia.
        rewrite <- Hz'. exists k. exact Hk.
Qed.

Lemma sRN_whole z : (unit_val | z)%Z -> (unit_val | sRN z (-1074))%Z.
Proof.
  intros Hz. unfold sRN. destruct (Z.ltb_spec z 0).
  - apply Z.divide_opp_r. apply RN_whole; [lia | apply Z.divide_opp_r; exact Hz].
  - apply RN_whole; assumption.
Qed.

Lemma ceilZ_whole V : (unit_val | V)%Z -> ceilZ V = V.
Proof. intros [k ->]. apply ceilZ_mult. Qed.

(** Adding a zero buffer to 1 gives 1. *)
Lemma add1_zero r : (r =? 0) = true -> is_fin (1 + r) /\ val (1 + r) = unit_val.
Proof.
  intros Hr. apply eqb_true in Hr as (Nr & _ & Vr). rewrite val_0 in Vr.
  pose proof unit_val_pos. pose proof two_unit_lt_inf. pose proof inf_val_pos.
  assert (Hs : is_num (1 + r) /\ val (1 + r) = sRN (val 1 + val r) (-1074)).
  { unfold is_num, val. rewrite add_spec.
    destruct (SFadd_finite _ _ (is_num_valid _ is_num_1) (is_num_valid _ Nr)) as [[_ Hn] HV].
    - fold (val 1). rewrite val_1. lia.
    - fold (val r). lia.
    - auto. }
  destruct Hs as [Hn HV]. rewrite val_1, Vr, Z.add_0_r in HV.
  pose proof (sRN_unit_range unit_val ltac:(lia)) as Hrange.
  assert (Hone : sRN unit_val (-1074) = unit_val).
  { unfold sRN. destruct (Z.ltb_spec unit_val 0); [lia|].
    pose proof (RN_int 1 ltac:(split; [lia | reflexivity])) as R1.
    rewrite Z.mul_1_l in R1. exact R1. }
  rewrite Hone in HV. split; [split; [exact Hn | lia] | exact HV].
Qed.

(** Multiplying by 1 changes nothing. *)
Lemma mul_unit q w :
  is_num q -> (0 <= val q)%Z -> is_fin w -> val w = unit_val ->
  is_num (q * w) /\ val (q * w) = val q.
Proof.
  intros Nq Vq [Nw Fw] Vw. pose proof unit_val_pos. pose proof inf_val_pos.
  pose proof (val_bounds q) as Bq. unfold is_num, val in *. rewrite mul_spec. unfold SF64mul.
  destruct (Z.eq_dec (SFval (Prim2SF q)) inf_val) as [Hi|Hi].
  - rewrite (shape_inf _ (is_num_valid q Nq) Hi).
    rewrite SFmul_inf_l by (try apply is_num_valid; assumption || lia).
    split; [discriminate | reflexivity].
  - destruct (SFmul_nonneg _ _ (is_num_valid q Nq) (is_num_valid w Nw) ltac:(lia) ltac:(lia))
      as [[_ Hn] HV].
    split; [exact Hn|]. rewrite HV, Vw.
    apply RN_unit_mul; [apply is_num_valid; assumption | lia].
Qed.

Lemma is_fin_90 : is_fin 90.
Proof. apply is_finite_is_fin. reflexivity. Qed.

(** The daily velocity grows with the sales of the period. *)
Lemma velocity_mono sales1 sales2 :
  (0 <=? sales1) = true -> (sales1 <=? sales2) = true -> is_finite sales2 = true ->
  (0 <=? sales1 / 90) = true /\ (sales1 / 90 <=? sales2 / 90) = true.
Proof.
  intros H0 H12 F2.
  apply leb_true in H0 as (_ & N1 & V0). rewrite val_0 in V0.
  apply leb_true in H12 as (_ & N2 & V12).
  pose proof (is_finite_is_fin _ F2) as [_ B2].
  assert (F1 : is_fin sales1) by (split; [assumption | lia]).
  destruct is_fin_90 as [N90 B90].
  assert (P90 : (0 < val 90)%Z) by reflexivity.
  destruct (div_val sales1 90 F1 ltac:(lia) N90 P90) as [Nd1 Vd1].
  destruct (div_val sales2 90 (is_finite_is_fin _ F2) ltac:(lia) N90 P90) as [Nd2 Vd2].
  destruct (Z.eqb_spec (val 90) inf_val) as [Hi|_]; [lia|].
  pose proof (sticky_quotient_mono (val sales1) (val sales2) (val 90) (val 90)
                ltac:(lia) ltac:(lia)) as Hs.
  pose proof (RN_mono0 _ _ (-2076) Hs ltac:(lia)) as Hr.
  pose proof (RN_mono0 0 (sticky_quotient (val sales1) (val 90)) (-2076)
                ltac:(lia) ltac:(lia)) as Hr0.
  rewrite RN_0 in Hr0.
  rewrite (leb_val _ _ is_num_0 Nd1), (leb_val _ _ Nd1 Nd2), val_0.
  split; apply Z.leb_le; lia.
Qed.

(** The suggestion grows with the velocity, from velocity 0 on. *)
Lemma quantity_mono_velocity c v1 v2 s :
  (0 <=? v1) = true -> (v1 <=? v2) = true -> is_finite c = true ->
  (1 <=? stockCoverageDays s) = true ->
  (0 <=? reorderPoint s) = true -> (reorderPoint s <=? 1) = true ->
  (calculateSuggestedQuantity c v1 s <=? calculateSuggestedQuantity c v2 s) = true.
Proof.
  intros H1 H12 Fc Hd Hr0 Hr1.
  pose proof (is_finite_is_fin _ Fc) as [Nc _].
  pose proof (leb_refl c Nc) as Hcc.
  destruct (nonneg_cases v1 H1) as [Hz|Hp].
  - rewrite (quantity_zero c v1 s Hz).
    assert (H2 : (0 <=? v2) = true).
    { apply leb_true in H1 as (_ & N1 & V1). apply leb_true in H12 as (_ & N2 & V12).
      rewrite (leb_val _ _ is_num_0 N2). apply Z.leb_le. lia. }
    destruct (nonneg_cases v2 H2) as [Hz2|Hp2].
    + rewrite (quantity_zero c v2 s Hz2). reflexivity.
    + assert (Hvv : (v2 <=? v2) = true) by (apply leb_refl; apply ltb_true in Hp2; tauto).
      destruct (quantity_mono c c v2 v2 s Hp2 Hvv Fc Fc Hcc Hd Hr0 Hr1) as (N & _ & V).
      rewrite (leb_val _ _ is_num_0 N), val_0. apply Z.leb_le. lia.
  - destruct (quantity_mono c c v1 v2 s Hp H12 Fc Fc Hcc Hd Hr0 Hr1) as (Na & Nb & V).
    rewrite (leb_val _ _ Na Nb). apply Z.leb_le. lia.
Qed.

Lemma add_fin x y :
  is_fin x -> is_fin y -> is_num (x + y) /\ val (x + y) = sRN (val x + val y) (-1074).
Proof.
  intros [Nx Bx] [Ny By]. unfold is_num, val. rewrite add_spec.
  destruct (SFadd_finite _ _ (is_num_valid _ Nx) (is_num_valid _ Ny) Bx By) as [[_ Hn] HV].
  auto.
Qed.

(** The safety multiplier grows with the buffer fraction. *)
Lemma add1_mono r1 r2 :
  (0 <=? r1) = true -> (r1 <=? r2) = true -> (r2 <=? 1) = true ->
  is_fin (1 + r1) /\ is_fin (1 + r2) /\
  (unit_val <= val (1 + r1) <= val (1 + r2))%Z.
Proof.
  intros H0 H12 H1.
  pose proof (leb_true _ _ H0) as (_ & N1 & V0). rewrite val_0 in V0.
  pose proof (leb_true _ _ H12) as (_ & N2 & V12).
  pose proof (leb_true _ _ H1) as (_ & _ & V1). rewrite val_1 in V1.
  assert (H0' : (0 <=? r2) = true)
    by (rewrite (leb_val _ _ is_num_0 N2), val_0; apply Z.leb_le; lia).
  assert (H1' : (r1 <=? 1) = true)
    by (rewrite (leb_val _ _ N1 is_num_1), val_1; apply Z.leb_le; lia).
  destruct (add1_val r1 H0 H1') as [F1 [L1 _]].
  destruct (add1_val r2 H0' H1) as [F2 _].
  pose proof unit_val_pos. pose proof two_unit_lt_inf. pose proof inf_val_pos.
  assert (Fone : is_fin 1) by (split; [exact is_num_1 | rewrite val_1; lia]).
  destruct (add_fin 1 r1 Fone ltac:(split; [assumption | lia])) as [_ Va1].
  destruct (add_fin 1 r2 Fone ltac:(split; [assumption | lia])) as [_ Va2].
  split; [exact F1|]. split; [exact F2|]. split; [exact L1|].
  rewrite Va1, Va2. apply sRN_mono; lia.
Qed.

Lemma is_fin_is_finite x : is_fin x -> is_finite x = true.
Proof.
  intros [N B]. unfold is_finite. apply negb_true_iff, orb_false_iff.
  split; [apply is_nan_false; exact N|].
  unfold is_infinity. rewrite eqb_spec, abs_spec. unfold val in B.
  change (Prim2SF infinity) with (S754_infinity false).
  destruct (Prim2SF x) as [s|s| |s m e]; cbn [SFval] in B; try reflexivity.
  destruct s; cbn [cond_Zopp] in B; lia.
Qed.

Lemma val_inf_infinity x : is_num x -> val x = inf_val -> x = infinity.
Proof.
  intros N V. rewrite <- (SF2Prim_Prim2SF x).
  rewrite (shape_inf _ (is_num_valid x N) V). reflexivity.
Qed.

Lemma whole_or_infinite q :
  is_num q -> (0 <= val q)%Z -> (unit_val | val q)%Z ->
  q = infinity \/ is_finite q = true /\ (unit_val | val q)%Z.
Proof.
  intros N V W. pose proof (val_bounds q). pose proof inf_val_pos.
  destruct (Z.eq_dec (val q) inf_val) as [Hi|Hi].
  - left. apply val_inf_infinity; assumption.
  - right. split; [|exact W]. apply is_fin_is_finite. split; [exact N | lia].
Qed.

(** A target stock of at most 8e307 units keeps the suggestion finite: the
    raw suggestion is at most the target and the buffer at most doubles it. *)
Lemma quantity_finite c v s :
  (0 <? v) = true -> is_finite c = true -> (0 <=? c) = true ->
  (1 <=? stockCoverageDays s) = true ->
  (0 <=? reorderPoint s) = true -> (reorderPoint s <=? 1) = true ->
  (Math_ceil (v * stockCoverageDays s) <=? 8e307) = true ->
  is_fin (calculateSuggestedQuantity c v s).
Proof.
  intros Hv Fc Hc Hd Hr0 Hr1 HT. rewrite (quantity_pos c v s Hv).
  assert (Hvv : (v <=? v) = true) by (apply leb_refl; apply ltb_true in Hv; tauto).
  destruct (target_mono v v _ Hv Hvv Hd) as (NT & _ & VT).
  set (T := Math_ceil (v * stockCoverageDays s)) in *.
  apply leb_true in HT as (_ & NB & VB). apply leb_true in Hc as (_ & _ & Vc).
  rewrite val_0 in Vc.
  assert (F0 : is_fin 0) by (split; [exact is_num_0 | rewrite val_0; pose proof inf_val_pos; lia]).
  destruct (raw_mono T 8e307 c 0 NT NB ltac:(lia) (is_finite_is_fin _ Fc) F0
              ltac:(rewrite val_0; lia)) as (Nq & NqB & Vq).
  destruct (buffer_mono _ _ (reorderPoint s) Nq NqB Vq Hr0 Hr1) as (Nc & NcB & Vcl).
  destruct (add1_val _ Hr0 Hr1) as [Fw Vw].
  change (Math_max 0 (8e307 - 0)) with 8e307 in *.
  assert (F2 : is_fin 2) by exact is_fin_2.
  pose proof unit_val_pos.
  assert (V2 : val 2 = (2 * unit_val)%Z) by (vm_compute; reflexivity).
  destruct (mul_le_r 8e307 (1 + reorderPoint s) 2 NB ltac:(lia) Fw F2 ltac:(lia))
    as (Np & Np2 & Vp).
  destruct (ceil_val _ Np) as [_ Vc1]. destruct (ceil_val _ Np2) as [_ Vc2].
  pose proof (ceilZ_mono _ _ Vp) as Hm. rewrite <- Vc1, <- Vc2 in Hm.
  assert (Hlt : (val (Math_ceil (8e307 * 2)) < inf_val)%Z) by (vm_compute; reflexivity).
  pose proof inf_val_pos.
  split; [exact Nc | lia].
Qed.

(** X1: for a velocity >= 0, a finite stock, stockCoverageDays >= 1 and
    reorderPoint in [0,1], the suggested quantity is never NaN and never below
    0, and it is either [Infinity] or a finite whole number.  It is a finite
    whole number whenever the stock is not negative and the target stock
    Math.ceil(salesVelocity * stockCoverageDays) is at most 8e307; for a stock
    of 10 and a velocity of 1e308 under the default settings it is
    [Infinity]. *)
Theorem suggestedQuantity_whole_or_infinite currentStock salesVelocity s :
  (0 <=? salesVelocity) = true -> is_finite currentStock = true ->
  (1 <=? stockCoverageDays s) = true ->
  (0 <=? reorderPoint s) = true -> (reorderPoint s <=? 1) = true ->
  let q := calculateSuggestedQuantity currentStock salesVelocity s in
  (0 <=? q) = true /\
  (q = infinity \/ is_finite q = true /\ (unit_val | val q)%Z) /\
  ((0 <=? currentStock) = true ->
   (Math_ceil (salesVelocity * stockCoverageDays s) <=? 8e307) = true ->
   is_finite q = true /\ (unit_val | val q)%Z) /\
  calculateSuggestedQuantity 10 1e308 defaultSettings = infinity.
Proof.
  intros Hv Fc Hd Hr0 Hr1 q.
  destruct (suggestedQuantity_nonneg_integer currentStock salesVelocity s Hv Fc Hd Hr0 Hr1)
    as [H0 W]. fold q in H0, W.
  split; [exact H0|].
  pose proof (leb_true _ _ H0) as (_ & N & V). rewrite val_0 in V.
  split; [apply whole_or_infinite; assumption|].
  split; [|vm_compute; reflexivity].
  intros Hc HT. split; [|exact W].
  destruct (nonneg_cases salesVelocity Hv) as [Hz|Hp].
  - unfold q. rewrite (quantity_zero _ _ s Hz). reflexivity.
  - apply is_fin_is_finite. apply quantity_finite; assumption.
Qed.

Lemma suggestedQuantity_whole_or_infinite_witness :
  let q := calculateSuggestedQuantity 10 2 defaultSettings in
  (0 <=? q) = true /\
  (q = infinity \/ is_finite q = true /\ (unit_val | val q)%Z) /\
  ((0 <=? 10) = true -> (Math_ceil (2 * 30) <=? 8e307) = true ->
   is_finite q = true /\ (unit_val | val q)%Z) /\
  calculateSuggestedQuantity 10 1e308 defaultSettings = infinity.
Proof.
  exact (suggestedQuantity_whole_or_infinite 10 2 defaultSettings
           eq_refl eq_refl eq_refl eq_refl eq_refl).
Defined.

(** X2: the safety buffer never lowers the order and at most doubles it: for
    a positive velocity, a finite stock, stockCoverageDays >= 1 and
    reorderPoint in [0,1], the suggested quantity is at least the raw
    suggestion max(0, targetStock - currentStock) and at most the raw
    suggestion doubled and rounded up. *)
Theorem suggestedQuantity_between_raw_and_double currentStock salesVelocity s :
  (0 <? salesVelocity) = true -> is_finite currentStock = true ->
  (1 <=? stockCoverageDays s) = true ->
  (0 <=? reorderPoint s) = true -> (reorderPoint s <=? 1) = true ->
  let targetStock := Math_ceil (salesVelocity * stockCoverageDays s) in
  let rawSuggestion := Math_max 0 (targetStock - currentStock) in
  (rawSuggestion <=? calculateSuggestedQuantity currentStock salesVelocity s) = true /\
  (calculateSuggestedQuantity currentStock salesVelocity s <=?
     Math_ceil (rawSuggestion * 2)) = true.
Proof.
  intros Hv Fc Hd Hr0 Hr1. cbv zeta. rewrite (quantity_pos _ _ s Hv).
  destruct (raw_suggestion currentStock salesVelocity s Hv Hd Fc) as (_ & Nq & Vq & _).
  set (q := Math_max 0 (Math_ceil (salesVelocity * stockCoverageDays s) - currentStock)) in *.
  destruct (add1_val _ Hr0 Hr1) as [Fw Vw]. pose proof unit_val_pos.
  destruct (mul_ge_l q _ Nq Vq Fw ltac:(lia)) as [Np Vp].
  destruct (mul_le_r q _ 2 Nq Vq Fw is_fin_2 ltac:(rewrite val_2; lia)) as (_ & N2 & V2).
  destruct (ceil_val _ Np) as [Nc Vc]. destruct (ceil_val _ N2) as [Nc2 Vc2].
  pose proof (ceilZ_spec (val (q * (1 + reorderPoint s)))) as [[Hle _] _].
  pose proof (ceilZ_mono _ _ V2).
  split; rewrite leb_val by assumption; apply Z.leb_le; lia.
Qed.

Lemma suggestedQuantity_between_raw_and_double_witness :
  (Math_max 0 (Math_ceil (2 * 30) - 10) <=?
     calculateSuggestedQuantity 10 2 defaultSettings) = true /\
  (calculateSuggestedQuantity 10 2 defaultSettings <=?
     Math_ceil (Math_max 0 (Math_ceil (2 * 30) - 10) * 2)) = true.
Proof.
  exact (suggestedQuantity_between_raw_and_double 10 2 defaultSettings
           eq_refl eq_refl eq_refl eq_refl eq_refl).
Defined.

(** X3: a stock below the target is always reordered: for a positive
    velocity, a finite stock, stockCoverageDays >= 1 and reorderPoint in
    [0,1], when currentStock < ceiling(velocity * coverageDays) the suggested
    quantity is at least 1; so a suggestion of 0 means that the stock covers
    the target. *)
Theorem suggestedQuantity_positive_below_target currentStock salesVelocity s :
  (0 <? salesVelocity) = true -> is_finite currentStock = true ->
  (1 <=? stockCoverageDays s) = true ->
  (0 <=? reorderPoint s) = true -> (reorderPoint s <=? 1) = true ->
  let targetStock := Math_ceil (salesVelocity * stockCoverageDays s) in
  ((currentStock <? targetStock) = true ->
   (1 <=? calculateSuggestedQuantity currentStock salesVelocity s) = true) /\
  ((calculateSuggestedQuantity currentStock salesVelocity s =? 0) = true ->
   (targetStock <=? currentStock) = true).
Proof.
  intros Hv Fc Hd Hr0 Hr1. cbv zeta. rewrite (quantity_pos _ _ s Hv).
  destruct (raw_suggestion currentStock salesVelocity s Hv Hd Fc) as (NT & Nq & Vq & Hpos).
  set (T := Math_ceil (salesVelocity * stockCoverageDays s)) in *.
  set (q := Math_max 0 (T - currentStock)) in *.
  destruct (add1_val _ Hr0 Hr1) as [Fw Vw]. pose proof unit_val_pos as Hu.
  destruct (mul_ge_l q _ Nq Vq Fw ltac:(lia)) as [Np Vp].
  destruct (ceil_val _ Np) as [Nc Vc].
  pose proof (ceilZ_spec (val (q * (1 + reorderPoint s)))) as [[Hle _] [k Hk]].
  assert (Hone : (currentStock <? T) = true ->
                 (unit_val <= val (Math_ceil (q * (1 + reorderPoint s))))%Z).
  { intros Hlt. specialize (Hpos Hlt). rewrite Vc, Hk in *.
    assert (0 < k)%Z by nia. nia. }
  split.
  - intros Hlt. rewrite (leb_val _ _ is_num_1 Nc), val_1. apply Z.leb_le. auto.
  - intros Hz. apply eqb_true in Hz as (_ & _ & Hz). rewrite val_0 in Hz.
    pose proof (is_finite_is_fin _ Fc) as [Ncs _].
    rewrite (leb_val _ _ NT Ncs). apply Z.leb_le.
    destruct (Z_le_gt_dec (val T) (val currentStock)) as [|Hgt]; [assumption|exfalso].
    assert (Hlt : (currentStock <? T) = true)
      by (rewrite (ltb_val _ _ Ncs NT); apply Z.ltb_lt; lia).
    specialize (Hone Hlt). lia.
Qed.

Lemma suggestedQuantity_positive_below_target_witness :
  ((10 <? Math_ceil (2 * 30)) = true ->
   (1 <=? calculateSuggestedQuantity 10 2 defaultSettings) = true) /\
  ((calculateSuggestedQuantity 10 2 defaultSettings =? 0) = true ->
   (Math_ceil (2 * 30) <=? 10) = true).
Proof.
  exact (suggestedQuantity_positive_below_target 10 2 defaultSettings
           eq_refl eq_refl eq_refl eq_refl eq_refl).
Defined.

(** X4: without a buffer the final step changes nothing: for a positive
    velocity, a whole-number stock, stockCoverageDays >= 1 and
    reorderPoint = 0, the suggested quantity is the raw suggestion
    Math.max(0, targetStock - currentStock) as the code computes it.  The
    target stock in it is still the rounded-up binary64 product: for a stock
    of 0, the velocity 1 / 90 and 90 days the product evaluates to 1 and the
    result is 1, where the exact product of the stored numbers is above 1 and
    rounds up to 2. *)
Theorem suggestedQuantity_without_buffer_is_raw_suggestion currentStock salesVelocity s :
  (0 <? salesVelocity) = true -> is_finite currentStock = true ->
  (Math_ceil currentStock =? currentStock) = true ->
  (1 <=? stockCoverageDays s) = true -> (reorderPoint s =? 0) = true ->
  let targetStock := Math_ceil (salesVelocity * stockCoverageDays s) in
  let ninety_days :=
    {| stockCoverageDays := 90; lowStockThreshold := 7; mediumStockThreshold := 14;
       reorderPoint := 0; emailNotifications := true |} in
  (calculateSuggestedQuantity currentStock salesVelocity s =?
     Math_max 0 (targetStock - currentStock)) = true /\
  (1 / 90 * 90 = 1 /\
   calculateSuggestedQuantity 0 (1 / 90) ninety_days = 1 /\
   exact_suggestedQuantity 0 (exact_value (1 / 90)) 90 0 = 2%Z).
Proof.
  intros Hv Fc Hw Hd Hr. cbv zeta.
  split; [|repeat split; vm_compute; reflexivity].
  rewrite (quantity_pos _ _ s Hv).
  destruct (raw_suggestion currentStock salesVelocity s Hv Hd Fc) as (NT & Nq & Vq & _).
  set (T := Math_ceil (salesVelocity * stockCoverageDays s)) in *.
  pose proof (is_finite_is_fin _ Fc) as Fc'. pose proof Fc' as [Nc Bc].
  pose proof inf_val_pos. pose proof unit_val_pos as Hu.
  (* the stock and the target are whole numbers *)
  assert (Wc : (unit_val | val currentStock)%Z).
  { apply eqb_true in Hw as (_ & _ & Hw). destruct (ceil_val _ Nc) as [_ Vc].
    rewrite <- Hw, Vc. apply ceilZ_spec. }
  assert (WT : (unit_val | val T)%Z).
  { assert (Nvd : is_num (salesVelocity * stockCoverageDays s)).
    { apply ltb_true in Hv as (_ & Nv & Vv). rewrite val_0 in Vv.
      apply leb_true in Hd as (_ & Nd & Vd). rewrite val_1 in Vd.
      apply (mul_mono salesVelocity salesVelocity _ Nv Nv Nd); lia. }
    unfold T. destruct (ceil_val _ Nvd) as [_ ->]. apply ceilZ_spec. }
  (* so is their difference *)
  assert (Wd : is_num (T - currentStock) /\ (unit_val | val (T - currentStock))%Z).
  { pose proof (val_bounds T).
    assert (VT : (0 <= val T)%Z).
    { assert (Hvv : (salesVelocity <=? salesVelocity) = true)
        by (apply leb_refl; apply ltb_true in Hv; tauto).
      destruct (target_mono salesVelocity salesVelocity _ Hv Hvv Hd) as (_ & _ & VT).
      fold T in VT. lia. }
    destruct (Z.eq_dec (val T) inf_val) as [Hi|Hi].
    - destruct (sub_inf T currentStock NT Hi Fc') as [Nd Vd]. split; [exact Nd|].
      rewrite Vd, inf_val_unit. apply Z.divide_factor_r.
    - destruct (sub_fin T currentStock ltac:(split; [assumption | lia]) Fc') as [Nd Vd].
      split; [exact Nd|]. rewrite Vd. apply sRN_whole. apply Z.divide_sub_r; assumption. }
  destruct Wd as [Nd Wd]. destruct (max0_val _ Nd) as [_ Vm].
  set (q := Math_max 0 (T - currentStock)) in *.
  assert (Wq : (unit_val | val q)%Z).
  { rewrite Vm. apply Z.max_case; [apply Z.divide_0_r | exact Wd]. }
  destruct (add1_zero _ Hr) as [Fw Vw].
  destruct (mul_unit q _ Nq Vq Fw Vw) as [Np Vp].
  destruct (ceil_val _ Np) as [Ncl Vcl].
  rewrite (eqb_val _ _ Ncl Nq), Vcl, Vp, (ceilZ_whole _ Wq). apply Z.eqb_refl.
Qed.

Lemma suggestedQuantity_without_buffer_is_raw_suggestion_witness :
  (calculateSuggestedQuantity 10 2
     {| stockCoverageDays := 30; lowStockThreshold := 7; mediumStockThreshold := 14;
        reorderPoint := 0; emailNotifications := true |} =?
   Math_max 0 (Math_ceil (2 * 30) - 10)) = true.
Proof.
  exact (proj1 (suggestedQuantity_without_buffer_is_raw_suggestion 10 2
           {| stockCoverageDays := 30; lowStockThreshold := 7; mediumStockThreshold := 14;
              reorderPoint := 0; emailNotifications := true |}
           eq_refl eq_refl eq_refl eq_refl eq_refl)).
Defined.

(** X23: more coverage and a larger buffer never lower the suggestion: for a
    velocity >= 0, a finite stock and two settings with
    1 <= stockCoverageDays1 <= stockCoverageDays2 <= 365 and
    0 <= reorderPoint1 <= reorderPoint2 <= 1, the suggested quantity under the
    second settings is at least the one under the first. *)
Theorem suggestedQuantity_monotone_in_settings currentStock salesVelocity s1 s2 :
  (0 <=? salesVelocity) = true -> is_finite currentStock = true ->
  (1 <=? stockCoverageDays s1) = true ->
  (stockCoverageDays s1 <=? stockCoverageDays s2) = true ->
  (stockCoverageDays s2 <=? 365) = true ->
  (0 <=? reorderPoint s1) = true -> (reorderPoint s1 <=? reorderPoint s2) = true ->
  (reorderPoint s2 <=? 1) = true ->
  (calculateSuggestedQuantity currentStock salesVelocity s1 <=?
     calculateSuggestedQuantity currentStock salesVelocity s2) = true.
Proof.
  intros Hv Fc Hd1 Hd12 Hd2 Hr0 Hr12 Hr1.
  destruct (nonneg_cases salesVelocity Hv) as [Hz|Hp].
  - rewrite !(quantity_zero _ _ _ Hz). reflexivity.
  - rewrite (quantity_pos _ _ s1 Hp), (quantity_pos _ _ s2 Hp).
    pose proof (ltb_true _ _ Hp) as (_ & Nv & Vv). rewrite val_0 in Vv.
    pose proof (leb_true _ _ Hd1) as (_ & Nd1 & Vd1). rewrite val_1 in Vd1.
    pose proof (leb_true _ _ Hd12) as (_ & Nd2 & Vd12).
    pose proof (leb_true _ _ Hd2) as (_ & N365 & Vd2).
    pose proof unit_val_pos. pose proof inf_val_pos.
    assert (B365 : (val 365 < inf_val)%Z) by reflexivity.
    (* the target stock *)
    destruct (mul_le_r salesVelocity (stockCoverageDays s1) (stockCoverageDays s2)
                Nv ltac:(lia) ltac:(split; [assumption | lia])
                ltac:(split; [assumption | lia]) ltac:(lia)) as (Np1 & Np2 & Vp).
    destruct (ceil_val _ Np1) as [NT1 VT1]. destruct (ceil_val _ Np2) as [NT2 VT2].
    assert (Hvv : (salesVelocity <=? salesVelocity) = true) by (apply leb_refl; exact Nv).
    destruct (target_mono salesVelocity salesVelocity _ Hp Hvv Hd1) as (_ & _ & [VT0 _]).
    pose proof (ceilZ_mono _ _ Vp) as VT. rewrite <- VT1, <- VT2 in VT.
    (* the raw suggestion *)
    pose proof (is_finite_is_fin _ Fc) as Fc'.
    destruct (raw_mono _ _ currentStock currentStock NT1 NT2 ltac:(lia) Fc' Fc' ltac:(lia))
      as (Nq1 & Nq2 & Vq).
    set (q1 := Math_max 0 (Math_ceil (salesVelocity * stockCoverageDays s1) - currentStock)) in *.
    set (q2 := Math_max 0 (Math_ceil (salesVelocity * stockCoverageDays s2) - currentStock)) in *.
    (* the buffer *)
    destruct (add1_mono _ _ Hr0 Hr12 Hr1) as (Fw1 & Fw2 & Vw).
    destruct (mul_mono q1 q2 (1 + reorderPoint s1) Nq1 Nq2 (proj1 Fw1) Vq ltac:(lia)
                ltac:(right; destruct Fw1; lia)) as (Na & Nb & Vab).
    destruct (mul_le_r q2 (1 + reorderPoint s1) (1 + reorderPoint s2) Nq2 ltac:(lia)
                Fw1 Fw2 ltac:(lia)) as (_ & Nc & Vbc).
    destruct (ceil_val _ Na) as [Nca Vca]. destruct (ceil_val _ Nc) as [Ncc Vcc].
    rewrite (leb_val _ _ Nca Ncc), Vca, Vcc. apply Z.leb_le. apply ceilZ_mono. lia.
Qed.

Lemma suggestedQuantity_monotone_in_settings_witness :
  (calculateSuggestedQuantity 10 2 defaultSettings <=?
     calculateSuggestedQuantity 10 2
       {| stockCoverageDays := 45; lowStockThreshold := 7; mediumStockThreshold := 14;
          reorderPoint := 0.25; emailNotifications := true |}) = true.
Proof.
  exact (suggestedQuantity_monotone_in_settings 10 2 defaultSettings
           {| stockCoverageDays := 45; lowStockThreshold := 7; mediumStockThreshold := 14;
              reorderPoint := 0.25; emailNotifications := true |}
           eq_refl eq_refl eq_refl eq_refl eq_refl eq_refl eq_refl eq_refl).
Defined.

(** X5: more stock never makes the status worse: for stocks
    0 <= currentStock1 <= currentStock2 (finite), whatever the velocity and
    the thresholds, when the larger stock is 'low' the smaller one is 'low'
    too, and when the smaller stock is 'good' so is the larger one. *)
Theorem getStockStatus_monotone_in_stock currentStock1 currentStock2 salesVelocity s :
  (0 <=? currentStock1) = true -> (currentStock1 <=? currentStock2) = true ->
  is_finite currentStock2 = true ->
  (getStockStatus currentStock2 salesVelocity s = "low" ->
   getStockStatus currentStock1 salesVelocity s = "low") /\
  (getStockStatus currentStock1 salesVelocity s = "good" ->
   getStockStatus currentStock2 salesVelocity s = "good").
Proof.
  intros H0 H12 F2.
  apply leb_true in H0 as (_ & N1 & V0). rewrite val_0 in V0.
  apply leb_true in H12 as (_ & N2 & V12).
  pose proof (is_finite_is_fin _ F2) as [_ B2].
  assert (F1 : is_fin currentStock1) by (split; [assumption | lia]).
  destruct (days_mono_stock currentStock1 currentStock2 salesVelocity F1
              (is_finite_is_fin _ F2) ltac:(lia)) as (Nd1 & Nd2 & Vd).
  apply status_order; assumption.
Qed.

Lemma getStockStatus_monotone_in_stock_witness :
  (getStockStatus 6 1 defaultSettings = "low" ->
   getStockStatus 3 1 defaultSettings = "low") /\
  (getStockStatus 3 1 defaultSettings = "good" ->
   getStockStatus 6 1 defaultSettings = "good").
Proof.
  exact (getStockStatus_monotone_in_stock 3 6 1 defaultSettings eq_refl eq_refl eq_refl).
Defined.

(** X6: a higher velocity never makes the status better: for a finite stock
    >= 0 and velocities 0 <= velocity1 <= velocity2, whatever the thresholds,
    when the slower product is 'low' the faster one is 'low' too, and when the
    faster one is 'good' so is the slower one. *)
Theorem getStockStatus_antitone_in_velocity currentStock salesVelocity1 salesVelocity2 s :
  (0 <=? currentStock) = true -> is_finite currentStock = true ->
  (0 <=? salesVelocity1) = true -> (salesVelocity1 <=? salesVelocity2) = true ->
  (getStockStatus currentStock salesVelocity1 s = "low" ->
   getStockStatus currentStock salesVelocity2 s = "low") /\
  (getStockStatus currentStock salesVelocity2 s = "good" ->
   getStockStatus currentStock salesVelocity1 s = "good").
Proof.
  intros H0 Fc Hv1 Hv12.
  apply leb_true in H0 as (_ & _ & V0). rewrite val_0 in V0.
  apply leb_true in Hv1 as (_ & N1 & V1). rewrite val_0 in V1.
  apply leb_true in Hv12 as (_ & N2 & V12).
  pose proof (is_finite_is_fin _ Fc) as F.
  destruct (days_mono currentStock currentStock salesVelocity2 salesVelocity1 F F
              ltac:(lia) N2 N1 ltac:(lia)) as (Nd2 & Nd1 & Vd).
  apply status_order; assumption.
Qed.

Lemma getStockStatus_antitone_in_velocity_witness :
  (getStockStatus 10 2 defaultSettings = "low" ->
   getStockStatus 10 4 defaultSettings = "low") /\
  (getStockStatus 10 4 defaultSettings = "good" ->
   getStockStatus 10 2 defaultSettings = "good").
Proof.
  exact (getStockStatus_antitone_in_velocity 10 2 4 defaultSettings
           eq_refl eq_refl eq_refl eq_refl).
Defined.

(** ** Part VIII: the settings page *)

Lemma getAppSettings_resolves shop db :
  exists row db',
    getAppSettings shop db = (Resolved row, db') /\
    appSettings db' !! shop = Some row /\
    (forall other existing,
       appSettings db !! other = Some existing ->
       appSettings db' !! other = Some existing) /\
    (forall other, other <> shop -> appSettings db' !! other = appSettings db !! other).
Proof.
  unfold getAppSettings, bind, findUnique, create, ret.
  destruct (appSettings db !! shop) as [existing|] eqn:Hlook; cbn.
  - exists existing, db. repeat split; auto.
  - rewrite Hlook. eexists _, _. split; [reflexivity|]. cbn.
    split; [apply lookup_insert_eq|]. split.
    + intros other existing Ho. rewrite lookup_insert_ne; [exact Ho|].
      intros <-. congruence.
    + intros other Ho. apply lookup_insert_ne. congruence.
Qed.

(** X7: when a call of [getAppSettings] has resolved with a record, that record
    is the one stored for the shop, and a second call for the same shop on the
    store it left returns the same record and writes nothing: the call that
    follows a resolved one creates no second record. *)
Theorem getAppSettings_second_call_same_record shop db row db' :
  getAppSettings shop db = (Resolved row, db') ->
  appSettings db' !! shop = Some row /\
  getAppSettings shop db' = (Resolved row, db').
Proof.
  intros Hcall.
  destruct (getAppSettings_resolves shop db) as (row0 & db0 & Hget & Hrow & _).
  rewrite Hget in Hcall. injection Hcall as <- <-.
  split; [exact Hrow|].
  unfold getAppSettings, bind, findUnique, ret. rewrite Hrow. reflexivity.
Qed.

Lemma getAppSettings_second_call_same_record_witness :
  let db' := snd (getAppSettings "demo.myshopify.com" sample_db) in
  appSettings db' !! "demo.myshopify.com" = Some sample_settings /\
  getAppSettings "demo.myshopify.com" db' = (Resolved sample_settings, db').
Proof.
  exact (getAppSettings_second_call_same_record "demo.myshopify.com" sample_db
           sample_settings (snd (getAppSettings "demo.myshopify.com" sample_db))
           eq_refl).
Defined.

(** X8: whatever the outcome of a call of [getAppSettings], every record that
    was in the store before the call is in it unchanged after the call, and
    the records of the shops other than the one asked for are the same before
    and after. *)
Theorem getAppSettings_preserves_records shop db result db' :
  getAppSettings shop db = (result, db') ->
  (forall other existing,
     appSettings db !! other = Some existing ->
     appSettings db' !! other = Some existing) /\
  (forall other, other <> shop -> appSettings db' !! other = appSettings db !! other).
Proof.
  intros Hcall.
  destruct (getAppSettings_resolves shop db) as (row0 & db0 & Hget & _ & Hkeep & Hframe).
  rewrite Hget in Hcall. injection Hcall as _ <-. auto.
Qed.

Lemma getAppSettings_preserves_records_witness :
  let db := snd (getAppSettings "demo.myshopify.com" sample_db) in
  let db' := snd (getAppSettings "other.myshopify.com" db) in
  (forall other existing,
     appSettings db !! other = Some existing ->
     appSettings db' !! other = Some existing) /\
  (forall other, other <> "other.myshopify.com" ->
     appSettings db' !! other = appSettings db !! other).
Proof.
  exact (getAppSettings_preserves_records "other.myshopify.com"
           (snd (getAppSettings "demo.myshopify.com" sample_db))
           (fst (getAppSettings "other.myshopify.com"
                   (snd (getAppSettings "demo.myshopify.com" sample_db))))
           (snd (getAppSettings "other.myshopify.com"
                   (snd (getAppSettings "demo.myshopify.com" sample_db))))
           eq_refl).
Defined.

Lemma action_cases parseInt parseFloat storable shop formData db :
  let s := submitted parseInt parseFloat formData in
  let failure (e : option string) :=
    {| ActionData.success := false; ActionData.message := None; ActionData.error := e |} in
  if strict_eq (FormData_get formData "action") "update_settings" then
    if (stockCoverageDays s <? 1) || (stockCoverageDays s >? 365) then
      action parseInt parseFloat storable shop formData db =
        (Resolved (failure (Some "Stock coverage days must be between 1 and 365")), db)
    else if lowStockThreshold s >=? mediumStockThreshold s then
      action parseInt parseFloat storable shop formData db =
        (Resolved (failure
           (Some "Low stock threshold must be less than medium stock threshold")), db)
    else if storable s then
      exists row db',
        action parseInt parseFloat storable shop formData db =
          (Resolved {| ActionData.success := true;
                       ActionData.message := Some "Settings updated successfully!";
                       ActionData.error := None |}, db') /\
        appSettings db' = <[shop := row]> (appSettings db) /\
        asSettings row = s
    else
      action parseInt parseFloat storable shop formData db =
        (Resolved (failure (Some "Failed to update settings")), db)
  else
    action parseInt parseFloat storable shop formData db = (Resolved (failure None), db).
Proof.
  cbv zeta. unfold action, submitted. cbn [stockCoverageDays lowStockThreshold mediumStockThreshold].
  destruct (strict_eq (FormData_get formData "action") "update_settings"); [|reflexivity].
  set (d := parseInt (or_string (FormData_get formData "stockCoverageDays") "30")).
  set (low := parseInt (or_string (FormData_get formData "lowStockThreshold") "7")).
  set (med := parseInt (or_string (FormData_get formData "mediumStockThreshold") "14")).
  set (r := parseFloat (or_string (FormData_get formData "reorderPoint") "0.1")).
  set (em := strict_eq (FormData_get formData "emailNotifications") "true").
  destruct ((d <? 1) || (365 <? d)); [reflexivity|].
  destruct (med <=? low); [reflexivity|].
  unfold try_catch, bind, upsert, create, ret, columns. cbn.
  destruct (storable _) eqn:Hst.
  - destruct (appSettings db !! shop) as [existing|] eqn:Hlook; rewrite ?Hst; cbn.
    + eexists _, _. split; [reflexivity|]. split; reflexivity.
    + eexists _, _. split; [reflexivity|]. split; reflexivity.
  - destruct (appSettings db !! shop) as [existing|] eqn:Hlook; rewrite ?Hst; reflexivity.
Qed.

(** X9: the body of the settings [action] that follows the reading of the
    session and of the form: whenever it answers with success = false, the
    store is exactly the store before the call (the validation returns before
    any write, and a write the store rejects changes nothing), and whatever
    its outcome the records of other shops are untouched. *)
Theorem settings_action_failure_leaves_store
    parseInt parseFloat storable shop formData db result db' :
  action parseInt parseFloat storable shop formData db = (result, db') ->
  (forall response,
     result = Resolved response -> ActionData.success response = false -> db' = db) /\
  (forall other, other <> shop -> appSettings db' !! other = appSettings db !! other).
Proof.
  intros Hcall.
  pose proof (action_cases parseInt parseFloat storable shop formData db) as H.
  cbv zeta in H.
  destruct (strict_eq _ _).
  2:{ rewrite H in Hcall. injection Hcall as <- <-. split; [reflexivity | auto]. }
  destruct (_ || _).
  { rewrite H in Hcall. injection Hcall as <- <-. split; [reflexivity | auto]. }
  destruct (_ >=? _).
  { rewrite H in Hcall. injection Hcall as <- <-. split; [reflexivity | auto]. }
  destruct (storable _).
  2:{ rewrite H in Hcall. injection Hcall as <- <-. split; [reflexivity | auto]. }
  destruct H as (row & db0 & Hact & Hdb & _).
  rewrite Hact in Hcall. injection Hcall as <- <-. split.
  - intros response [= <-]. discriminate.
  - intros other Ho. rewrite Hdb. apply lookup_insert_ne. congruence.
Qed.

Lemma settings_action_failure_leaves_store_witness :
  let db := snd (getAppSettings "demo.myshopify.com" sample_db) in
  let call :=
    action sample_parse sample_parse sample_storable "demo.myshopify.com"
      sample_form_nan db in
  (forall response,
     fst call = Resolved response -> ActionData.success response = false ->
     snd call = db) /\
  (forall other, other <> "demo.myshopify.com" ->
     appSettings (snd call) !! other = appSettings db !! other).
Proof.
  exact (settings_action_failure_leaves_store sample_parse sample_parse sample_storable
           "demo.myshopify.com" sample_form_nan
           (snd (getAppSettings "demo.myshopify.com" sample_db))
           (fst (action sample_parse sample_parse sample_storable "demo.myshopify.com"
                   sample_form_nan (snd (getAppSettings "demo.myshopify.com" sample_db))))
           (snd (action sample_parse sample_parse sample_storable "demo.myshopify.com"
                   sample_form_nan (snd (getAppSettings "demo.myshopify.com" sample_db))))
           eq_refl).
Defined.

(** X10: a saved form is read back: when [action] answers with a success, the
    next [getAppSettings] for the shop returns a record with exactly the
    settings read from the form and writes nothing, and so does the [loader]
    of the settings page. *)
Theorem settings_update_round_trip parseInt parseFloat storable
    shop formData db response db' :
  action parseInt parseFloat storable shop formData db = (Resolved response, db') ->
  ActionData.success response = true ->
  exists row,
    getAppSettings shop db' = (Resolved row, db') /\
    asSettings row = submitted parseInt parseFloat formData /\
    loader shop db' =
      (Resolved {| settings := submitted parseInt parseFloat formData; error := None |}, db').
Proof.
  intros Hact Hok.
  pose proof (action_cases parseInt parseFloat storable shop formData db) as H.
  cbv zeta in H.
  destruct (strict_eq _ _); [|rewrite H in Hact; injection Hact as <- _; discriminate].
  destruct (_ || _); [rewrite H in Hact; injection Hact as <- _; discriminate|].
  destruct (_ >=? _); [rewrite H in Hact; injection Hact as <- _; discriminate|].
  destruct (storable _); [|rewrite H in Hact; injection Hact as <- _; discriminate].
  destruct H as (row & db0 & Hact0 & Hdb & Hrow).
  rewrite Hact0 in Hact. injection Hact as _ <-.
  assert (Hlook : appSettings db0 !! shop = Some row)
    by (rewrite Hdb; apply lookup_insert_eq).
  exists row. unfold getAppSettings, loader, try_catch, bind, findUnique, ret.
  rewrite Hlook, Hrow. auto.
Qed.

Lemma settings_update_round_trip_witness :
  let db' :=
    snd (action sample_parse sample_parse sample_storable "demo.myshopify.com"
           sample_form sample_db) in
  exists row,
    getAppSettings "demo.myshopify.com" db' = (Resolved row, db') /\
    asSettings row = submitted sample_parse sample_parse sample_form /\
    loader "demo.myshopify.com" db' =
      (Resolved {| settings := submitted sample_parse sample_parse sample_form;
                   error := None |}, db').
Proof.
  exact (settings_update_round_trip sample_parse sample_parse sample_storable
           "demo.myshopify.com" sample_form sample_db
           {| ActionData.success := true;
              ActionData.message := Some "Settings updated successfully!";
              ActionData.error := None |}
           (snd (action sample_parse sample_parse sample_storable "demo.myshopify.com"
                   sample_form sample_db))
           eq_refl eq_refl).
Defined.

(** X11: what [action] accepts: an answer with success comes only from a form
    with action = update_settings whose values the store accepts, and, the
    parsed day counts being numbers, with 1 <= stockCoverageDays <= 365 and
    lowStockThreshold < mediumStockThreshold. *)
Theorem settings_action_success_is_validated parseInt parseFloat storable
    shop formData db response db' :
  action parseInt parseFloat storable shop formData db = (Resolved response, db') ->
  ActionData.success response = true ->
  let s := submitted parseInt parseFloat formData in
  FormData_get formData "action" = Some "update_settings" /\
  storable s = true /\
  (is_num (stockCoverageDays s) ->
   (1 <=? stockCoverageDays s) = true /\ (stockCoverageDays s <=? 365) = true) /\
  (is_num (lowStockThreshold s) -> is_num (mediumStockThreshold s) ->
   (lowStockThreshold s <? mediumStockThreshold s) = true).
Proof.
  intros Hact Hok.
  pose proof (action_cases parseInt parseFloat storable shop formData db) as H.
  cbv zeta in *.
  destruct (strict_eq _ _) eqn:Ha; [|rewrite H in Hact; injection Hact as <- _; discriminate].
  destruct (_ || _) eqn:Hd; [rewrite H in Hact; injection Hact as <- _; discriminate|].
  destruct (_ >=? _) eqn:Ht; [rewrite H in Hact; injection Hact as <- _; discriminate|].
  destruct (storable _) eqn:Hs; [|rewrite H in Hact; injection Hact as <- _; discriminate].
  split.
  { unfold strict_eq in Ha. destruct (FormData_get formData "action") as [v|]; [|discriminate].
    apply String.eqb_eq in Ha. congruence. }
  split; [reflexivity|]. apply orb_false_iff in Hd as [Hd1 Hd2].
  split.
  - intros Nd. rewrite (ltb_val _ _ Nd is_num_1) in Hd1.
    assert (N365 : is_num 365) by discriminate.
    rewrite (ltb_val _ _ N365 Nd) in Hd2.
    rewrite (leb_val _ _ is_num_1 Nd), (leb_val _ _ Nd N365).
    apply Z.ltb_ge in Hd1, Hd2. split; apply Z.leb_le; assumption.
  - intros Nl Nm. rewrite (leb_val _ _ Nm Nl) in Ht. rewrite (ltb_val _ _ Nl Nm).
    apply Z.leb_gt in Ht. apply Z.ltb_lt. exact Ht.
Qed.

Lemma settings_action_success_is_validated_witness :
  FormData_get sample_form "action" = Some "update_settings" /\
  sample_storable (submitted sample_parse sample_parse sample_form) = true /\
  (is_num 45 -> (1 <=? 45) = true /\ (45 <=? 365) = true) /\
  (is_num 10 -> is_num 20 -> (10 <? 20) = true).
Proof.
  exact (settings_action_success_is_validated sample_parse sample_parse sample_storable
           "demo.myshopify.com" sample_form sample_db
           {| ActionData.success := true;
              ActionData.message := Some "Settings updated successfully!";
              ActionData.error := None |}
           (snd (action sample_parse sample_parse sample_storable "demo.myshopify.com"
                   sample_form sample_db))
           eq_refl eq_refl).
Defined.

(** X12: a valid form is saved: with action = update_settings,
    1 <= stockCoverageDays <= 365, lowStockThreshold < mediumStockThreshold
    and values the store accepts, [action] answers with the success message
    and the record of the shop holds the settings of the form. *)
Theorem settings_action_saves_valid_form parseInt parseFloat storable shop formData db :
  let s := submitted parseInt parseFloat formData in
  FormData_get formData "action" = Some "update_settings" ->
  (1 <=? stockCoverageDays s) = true -> (stockCoverageDays s <=? 365) = true ->
  (lowStockThreshold s <? mediumStockThreshold s) = true ->
  storable s = true ->
  exists row db',
    action parseInt parseFloat storable shop formData db =
      (Resolved {| ActionData.success := true;
                   ActionData.message := Some "Settings updated successfully!";
                   ActionData.error := None |}, db') /\
    appSettings db' !! shop = Some row /\
    asSettings row = s.
Proof.
  cbv zeta. intros Ha Hd1 Hd2 Ht Hs.
  pose proof (action_cases parseInt parseFloat storable shop formData db) as H.
  cbv zeta in H. rewrite Ha in H. cbn [strict_eq] in H.
  rewrite (proj2 (String.eqb_eq _ _) eq_refl) in H.
  apply leb_true in Hd1 as (_ & Nd & Vd1). apply leb_true in Hd2 as (_ & N365 & Vd2).
  apply ltb_true in Ht as (Nl & Nm & Vt).
  rewrite (ltb_val _ _ Nd is_num_1), (ltb_val _ _ N365 Nd) in H.
  rewrite (proj2 (Z.ltb_ge _ _) Vd1), (proj2 (Z.ltb_ge _ _) Vd2) in H. cbn [orb] in H.
  rewrite (leb_val _ _ Nm Nl), (proj2 (Z.leb_gt _ _) Vt), Hs in H.
  destruct H as (row & db' & Hact & Hdb & Hrow).
  exists row, db'. split; [exact Hact|]. split; [|exact Hrow].
  rewrite Hdb. apply lookup_insert_eq.
Qed.

Lemma settings_action_saves_valid_form_witness :
  exists row db',
    action sample_parse sample_parse sample_storable "demo.myshopify.com"
      sample_form sample_db =
      (Resolved {| ActionData.success := true;
                   ActionData.message := Some "Settings updated successfully!";
                   ActionData.error := None |}, db') /\
    appSettings db' !! "demo.myshopify.com" = Some row /\
    asSettings row = submitted sample_parse sample_parse sample_form.
Proof.
  exact (settings_action_saves_valid_form sample_parse sample_parse sample_storable
           "demo.myshopify.com" sample_form sample_db
           eq_refl eq_refl eq_refl eq_refl eq_refl).
Defined.

(** X13: the validation lets a threshold that is not a number through: with
    action = update_settings, stockCoverageDays within 1..365 and a
    lowStockThreshold or mediumStockThreshold that [parseInt] could not read
    (NaN), the threshold message is never given; the form goes to the store,
    and the answer is the success message when the store takes the values and
    'Failed to update settings' otherwise. *)
Theorem settings_action_nan_threshold_reaches_store parseInt parseFloat storable
    shop formData db :
  let s := submitted parseInt parseFloat formData in
  FormData_get formData "action" = Some "update_settings" ->
  (1 <=? stockCoverageDays s) = true -> (stockCoverageDays s <=? 365) = true ->
  is_nan (lowStockThreshold s) || is_nan (mediumStockThreshold s) = true ->
  exists response db',
    action parseInt parseFloat storable shop formData db = (Resolved response, db') /\
    ActionData.success response = storable s /\
    ActionData.error response =
      (if storable s then None else Some "Failed to update settings").
Proof.
  cbv zeta. intros Ha Hd1 Hd2 Hnan.
  pose proof (action_cases parseInt parseFloat storable shop formData db) as H.
  cbv zeta in H. rewrite Ha in H. cbn [strict_eq] in H.
  rewrite (proj2 (String.eqb_eq _ _) eq_refl) in H.
  apply leb_true in Hd1 as (_ & Nd & Vd1). apply leb_true in Hd2 as (_ & N365 & Vd2).
  rewrite (ltb_val _ _ Nd is_num_1), (ltb_val _ _ N365 Nd) in H.
  rewrite (proj2 (Z.ltb_ge _ _) Vd1), (proj2 (Z.ltb_ge _ _) Vd2) in H. cbn [orb] in H.
  match type of H with (if ?c then _ else _) => destruct c eqn:Ht end.
  { exfalso. apply leb_true in Ht as (Nm & Nl & _).
    apply is_nan_false in Nm, Nl. rewrite Nm, Nl in Hnan. discriminate. }
  destruct (storable _).
  - destruct H as (row & db' & Hact & _). eexists _, _. split; [exact Hact|]. split; reflexivity.
  - eexists _, _. split; [exact H|]. split; reflexivity.
Qed.

Lemma settings_action_nan_threshold_reaches_store_witness :
  exists response db',
    action sample_parse sample_parse sample_storable "demo.myshopify.com"
      sample_form_nan sample_db = (Resolved response, db') /\
    ActionData.success response = false /\
    ActionData.error response = Some "Failed to update settings".
Proof.
  exact (settings_action_nan_threshold_reaches_store sample_parse sample_parse
           sample_storable "demo.myshopify.com" sample_form_nan sample_db
           eq_refl eq_refl eq_refl eq_refl).
Defined.

(** ** Part IX: the purchase orders page *)

(** [Math.round] on the usual corner cases, and the rounding of a velocity
    to two decimals. *)
Example Math_round_samples :
  Math_round 2.5 = 3 /\ Math_round (-2.5) = -2 /\ Math_round (-0.5) = neg_zero /\
  Math_round 0.5 = 1 /\ Math_round 0.49999999999999994 = 0 /\
  Math_round (-0.2) = neg_zero /\ Math_round 1.4 = 1 /\ Math_round (-1.6) = -2 /\
  Math_round 4503599627370495.5 = 4503599627370496 /\
  Math_round 9007199254740991 = 9007199254740991 /\
  Math_round nan = nan /\ Math_round infinity = infinity /\
  Math_round neg_zero = neg_zero /\ Math_round (0.022222 * 100) / 100 = 0.02.
Proof. repeat split; vm_compute; reflexivity. Qed.

(** *** The JavaScript [Map] *)

Lemma Map_get_set_eq {V} (m : JsMap V) k v : Map_get (Map_set m k v) k = Some v.
Proof.
  induction m as [|[k' v'] m IH]; cbn.
  - rewrite String.eqb_refl. reflexivity.
  - destruct (String.eqb_spec k' k) as [->|Hne]; cbn.
    + rewrite String.eqb_refl. reflexivity.
    + destruct (String.eqb_spec k' k); [contradiction | exact IH].
Qed.

Lemma Map_get_set_ne {V} (m : JsMap V) k k' v :
  k <> k' -> Map_get (Map_set m k v) k' = Map_get m k'.
Proof.
  intros Hne. induction m as [|[k0 v0] m IH]; cbn.
  - destruct (String.eqb_spec k k'); [contradiction | reflexivity].
  - destruct (String.eqb_spec k0 k) as [->|Hne0]; cbn.
    + destruct (String.eqb_spec k k'); [contradiction | reflexivity].
    + rewrite IH. reflexivity.
Qed.

Lemma Map_get_None {V} (m : JsMap V) k : Map_get m k = None <-> ~ In k (map fst m).
Proof.
  induction m as [|[k' v'] m IH]; cbn.
  - tauto.
  - destruct (String.eqb_spec k' k) as [->|Hne].
    + split; [discriminate | intros H; exfalso; apply H; left; reflexivity].
    + rewrite IH. tauto.
Qed.

Lemma Map_set_keys {V} (m : JsMap V) k v k' :
  In k' (map fst (Map_set m k v)) <-> k' = k \/ In k' (map fst m).
Proof.
  induction m as [|[k0 v0] m IH]; cbn.
  - intuition congruence.
  - destruct (String.eqb_spec k0 k) as [->|Hne]; cbn.
    + intuition congruence.
    + rewrite IH. intuition congruence.
Qed.

Lemma Map_set_NoDup {V} (m : JsMap V) k v :
  List.NoDup (map fst m) -> List.NoDup (map fst (Map_set m k v)).
Proof.
  induction m as [|[k0 v0] m IH]; cbn; intros Hnd.
  - apply List.NoDup_cons; [intros [] | apply List.NoDup_nil].
  - apply List.NoDup_cons_iff in Hnd as [Hnin Hnd].
    destruct (String.eqb_spec k0 k) as [->|Hne]; cbn.
    + apply List.NoDup_cons; assumption.
    + apply List.NoDup_cons; [|apply IH; exact Hnd].
      rewrite Map_set_keys. intros [->|Hin]; [congruence | contradiction].
Qed.

Lemma includes_In array x : includes array x = true <-> In x array.
Proof.
  unfold includes. rewrite existsb_exists. split.
  - intros (y & Hin & Heq). apply String.eqb_eq in Heq. subst. exact Hin.
  - intros Hin. exists x. split; [exact Hin | apply String.eqb_refl].
Qed.

(** *** The products of the purchase orders page *)

Lemma addVariant_inv parseFloat product state variant :
  let state' := addVariant parseFloat product state variant in
  (List.NoDup (map fst (fst state)) -> List.NoDup (map fst (fst state'))) /\
  (forall k, In k (map fst (fst state')) <->
             In k (map fst (fst state)) \/
             (k <> "" /\ Variant.sku variant = Some k)) /\
  (forall k, In k (snd state') <->
             In k (snd state) \/ (k <> "" /\ Variant.sku variant = Some k)).
Proof.
  destruct state as [inventoryMap allSkus]. unfold addVariant.
  destruct (Variant.sku variant) as [sku|]; cbn [fst snd].
  - destruct (String.eqb_spec sku "") as [->|Hne]; cbn [negb fst snd].
    + split; [auto|]. split; intros k; intuition congruence.
    + split; [apply Map_set_NoDup|]. split; intros k.
      * rewrite Map_set_keys. intuition congruence.
      * rewrite in_app_iff. cbn. intuition congruence.
  - split; [auto|]. split; intros k; intuition congruence.
Qed.

Lemma addVariants_inv parseFloat product variants state :
  let state' := fold_left (addVariant parseFloat product) variants state in
  (List.NoDup (map fst (fst state)) -> List.NoDup (map fst (fst state'))) /\
  (forall k, In k (map fst (fst state')) <->
             In k (map fst (fst state)) \/
             (k <> "" /\ exists variant, In variant variants /\ Variant.sku variant = Some k)) /\
  (forall k, In k (snd state') <->
             In k (snd state) \/
             (k <> "" /\ exists variant, In variant variants /\ Variant.sku variant = Some k)).
Proof.
  revert state. induction variants as [|variant variants IH]; intros state; cbn [fold_left].
  - split; [auto|]. split; intros k; split; auto; intros [H|(_ & v & [] & _)]; exact H.
  - destruct (IH (addVariant parseFloat product state variant)) as (IH1 & IH2 & IH3).
    destruct (addVariant_inv parseFloat product state variant) as (A1 & A2 & A3).
    cbv zeta in *. split; [auto|]. split; intros k.
    + rewrite IH2, A2. split.
      * intros [[H|[Hk Hs]]|(Hk & v & Hv & Hs)]; eauto 8 using in_eq, in_cons.
      * intros [H|(Hk & v & [<-|Hv] & Hs)]; eauto 8.
    + rewrite IH3, A3. split.
      * intros [[H|[Hk Hs]]|(Hk & v & Hv & Hs)]; eauto 8 using in_eq, in_cons.
      * intros [H|(Hk & v & [<-|Hv] & Hs)]; eauto 8.
Qed.

Lemma processProducts_from parseFloat products state :
  let state' :=
    fold_left
      (fun state product =>
         fold_left (addVariant parseFloat product) (Product.variants product) state)
      products state in
  (List.NoDup (map fst (fst state)) -> List.NoDup (map fst (fst state'))) /\
  (forall k, In k (map fst (fst state')) <->
             In k (map fst (fst state)) \/ listed products k) /\
  (forall k, In k (snd state') <-> In k (snd state) \/ listed products k).
Proof.
  revert state. induction products as [|product products IH]; intros state; cbn [fold_left].
  - split; [auto|].
    split; intros k; split; auto; intros [H|(_ & p & v & [] & _)]; exact H.
  - destruct (IH (fold_left (addVariant parseFloat product) (Product.variants product) state))
      as (IH1 & IH2 & IH3).
    destruct (addVariants_inv parseFloat product (Product.variants product) state)
      as (A1 & A2 & A3).
    cbv zeta in *. split; [auto|]. unfold listed in *. split; intros k.
    + rewrite IH2, A2. split.
      * intros [[H|(Hk & v & Hv & Hs)]|(Hk & p & v & Hp & Hv & Hs)];
          eauto 10 using in_eq, in_cons.
      * intros [H|(Hk & p & v & [<-|Hp] & Hv & Hs)]; eauto 10.
    + rewrite IH3, A3. split.
      * intros [[H|(Hk & v & Hv & Hs)]|(Hk & p & v & Hp & Hv & Hs)];
          eauto 10 using in_eq, in_cons.
      * intros [H|(Hk & p & v & [<-|Hp] & Hv & Hs)]; eauto 10.
Qed.

Lemma processProducts_spec parseFloat products :
  List.NoDup (map fst (fst (processProducts parseFloat products))) /\
  (forall k, In k (map fst (fst (processProducts parseFloat products))) <-> listed products k) /\
  (forall k, In k (snd (processProducts parseFloat products)) <-> listed products k).
Proof.
  destruct (processProducts_from parseFloat products ([], [])) as (H1 & H2 & H3).
  cbv zeta in *. cbn [fst snd map] in *. unfold processProducts.
  split; [apply H1; apply List.NoDup_nil|].
  split; intros k; [rewrite H2 | rewrite H3]; cbn; tauto.
Qed.

(** *** The sales of the purchase orders page *)

Lemma addLineItems_get allSkus lineItems salesMap sku :
  Map_get (fold_left (addLineItem allSkus) lineItems salesMap) sku <> None ->
  Map_get salesMap sku <> None \/
  (In sku allSkus /\
   exists lineItem, In lineItem lineItems /\ LineItem.sku lineItem = Some sku).
Proof.
  revert salesMap. induction lineItems as [|li lis IH]; intros salesMap; cbn [fold_left].
  - auto.
  - intros H. apply IH in H as [H|(Hin & l & Hl & Hs)]; [|right; eauto using in_cons].
    unfold addLineItem in H.
    destruct (LineItem.sku li) as [k|] eqn:Hk; [|auto].
    destruct (negb (String.eqb k "") && includes allSkus k) eqn:Hc; [|auto].
    destruct (String.eqb_spec k sku) as [->|Hne].
    + right. apply andb_true_iff in Hc as [_ Hc]. apply includes_In in Hc.
      split; [exact Hc|]. exists li. split; [left; reflexivity | exact Hk].
    + rewrite Map_get_set_ne in H by exact Hne. auto.
Qed.

Lemma processOrders_from threeMonthsAgo allSkus orders salesMap sku :
  Map_get
    (fold_left
       (fun salesMap order =>
          if Order.createdAt order >=? threeMonthsAgo then
            fold_left (addLineItem allSkus) (Order.lineItems order) salesMap
          else salesMap)
       orders salesMap) sku <> None ->
  Map_get salesMap sku <> None \/
  (In sku allSkus /\ sold_since threeMonthsAgo orders sku).
Proof.
  revert salesMap. induction orders as [|order orders IH]; intros salesMap; cbn [fold_left].
  - auto.
  - intros H. apply IH in H as [H|(Hin & o & l & Ho & Hd & Hl & Hs)].
    + destruct (Order.createdAt order >=? threeMonthsAgo) eqn:Hd; [|auto].
      apply addLineItems_get in H as [H|(Hin & l & Hl & Hs)]; [auto|].
      right. split; [exact Hin|]. exists order, l. auto using in_eq.
    + right. split; [exact Hin|]. exists o, l. auto using in_cons.
Qed.

Lemma processOrders_get threeMonthsAgo allSkus orders sku :
  Map_get (processOrders threeMonthsAgo allSkus orders) sku <> None ->
  In sku allSkus /\ sold_since threeMonthsAgo orders sku.
Proof.
  intros H. apply processOrders_from in H as [H|H]; [|exact H].
  exfalso. apply H. reflexivity.
Qed.

(** *** A product with no recorded sales *)

Lemma unsold_product settings (salesMap : JsMap float) sku inventoryInfo :
  Map_get salesMap sku = None ->
  let item := productForPurchase settings salesMap (sku, inventoryInfo) in
  ProductData.suggestedQuantity item = 0 /\ ProductData.stockStatus item = "good".
Proof.
  intros Hget. cbv zeta. unfold productForPurchase. rewrite Hget.
  cbn [or_number ProductData.suggestedQuantity ProductData.stockStatus].
  change (0 / 90) with 0. split.
  - apply quantity_zero. reflexivity.
  - rewrite status_cases. change (daysOfStock (InventoryInfo.available inventoryInfo) 0) with infinity.
    rewrite !ltb_inf_l. reflexivity.
Qed.

Lemma addLineItems_fold allSkus lineItems (salesMap : JsMap float) sku :
  Map_get (fold_left (addLineItem allSkus) lineItems salesMap) sku =
  if negb (String.eqb sku "") && includes allSkus sku then
    fold_left addQuantity
      (map LineItem.quantity
         (List.filter (fun lineItem => strict_eq (LineItem.sku lineItem) sku) lineItems))
      (Map_get salesMap sku)
  else Map_get salesMap sku.
Proof.
  revert salesMap. induction lineItems as [|li lis IH]; intros salesMap; cbn [fold_left].
  - cbn. destruct (_ && _); reflexivity.
  - rewrite IH. cbn [List.filter]. unfold addLineItem.
    destruct (LineItem.sku li) as [k|] eqn:Hk; cbn [strict_eq].
    + destruct (String.eqb_spec k sku) as [->|Hne].
      * destruct (negb (String.eqb sku "") && includes allSkus sku) eqn:Hc; [|reflexivity].
        cbn [map fold_left]. rewrite Map_get_set_eq. reflexivity.
      * destruct (negb (String.eqb k "") && includes allSkus k).
        -- rewrite Map_get_set_ne by exact Hne. reflexivity.
        -- reflexivity.
    + reflexivity.
Qed.

Lemma processOrders_fold threeMonthsAgo allSkus orders (salesMap : JsMap float) sku :
  Map_get
    (fold_left
       (fun salesMap order =>
          if Order.createdAt order >=? threeMonthsAgo then
            fold_left (addLineItem allSkus) (Order.lineItems order) salesMap
          else salesMap)
       orders salesMap) sku =
  if negb (String.eqb sku "") && includes allSkus sku then
    fold_left addQuantity (quantitiesSold threeMonthsAgo orders sku) (Map_get salesMap sku)
  else Map_get salesMap sku.
Proof.
  revert salesMap. induction orders as [|order orders IH]; intros salesMap;
    cbn [fold_left quantitiesSold flat_map].
  - destruct (_ && _); reflexivity.
  - rewrite IH. fold (quantitiesSold threeMonthsAgo orders sku).
    destruct (Order.createdAt order >=? threeMonthsAgo).
    + rewrite addLineItems_fold.
      destruct (negb (String.eqb sku "") && includes allSkus sku); [|reflexivity].
      rewrite fold_left_app. reflexivity.
    + reflexivity.
Qed.

Lemma sRN_count z :
  (0 <= z < 2 ^ 53 * unit_val)%Z -> (unit_val | z)%Z -> sRN z (-1074) = z.
Proof.
  intros Hz [k ->]. pose proof unit_val_pos.
  destruct (Z.eq_dec k 0) as [->|Hk]; [apply sRN_0|].
  unfold sRN. destruct (Z.ltb_spec (k * unit_val) 0); [lia|].
  apply RN_int. nia.
Qed.

Lemma or_number_val x : is_num x -> is_num (or_number (Some x) 0) /\ val (or_number (Some x) 0) = val x.
Proof.
  intros Nx. unfold or_number. rewrite (proj2 (is_nan_false x) Nx). cbn [orb].
  destruct (x =? 0) eqn:Hz; [|auto].
  apply eqb_true in Hz as (_ & _ & Hz). split; [exact is_num_0 | congruence].
Qed.

Lemma count_val q :
  (0 <=? q) && (Math_ceil q =? q) = true ->
  is_num q /\ (0 <= val q)%Z /\ (unit_val | val q)%Z.
Proof.
  intros H. apply andb_true_iff in H as [H0 Hw].
  apply leb_true in H0 as (_ & Nq & V0). rewrite val_0 in V0.
  apply eqb_true in Hw as (_ & _ & Hw). destruct (ceil_val _ Nq) as [_ Vc].
  repeat split; try assumption. rewrite <- Hw, Vc. apply ceilZ_spec.
Qed.

Lemma sum_vals_counts quantities :
  counts quantities = true -> (0 <= sum_vals quantities)%Z /\ (unit_val | sum_vals quantities)%Z.
Proof.
  unfold counts, sum_vals. induction quantities as [|q qs IH]; cbn [forallb map fold_right].
  - intros _. split; [lia | apply Z.divide_0_r].
  - intros H. apply andb_true_iff in H as [Hq Hqs].
    destruct (count_val q Hq) as (_ & V0 & W). destruct (IH Hqs) as [S0 SW].
    split; [lia | apply Z.divide_add_r; assumption].
Qed.

(** The running total of counts is their exact sum. *)
Lemma addQuantity_exact quantities total :
  counts quantities = true ->
  is_num total -> (0 <= val total)%Z -> (unit_val | val total)%Z ->
  (val total + sum_vals quantities < 2 ^ 53 * unit_val)%Z ->
  exists sales,
    fold_left addQuantity quantities (Some total) = Some sales /\
    is_num sales /\ val sales = (val total + sum_vals quantities)%Z.
Proof.
  revert total. induction quantities as [|q qs IH]; intros total Hc Nt Vt Wt Hb.
  - exists total. cbn. unfold sum_vals. cbn. split; [reflexivity|]. split; [assumption | lia].
  - pose proof Hc as Hc'. unfold counts in Hc'. cbn [forallb] in Hc'.
    apply andb_true_iff in Hc' as [Hq Hqs]. fold (counts qs) in Hqs.
    destruct (count_val q Hq) as (Nq & Vq & Wq).
    destruct (sum_vals_counts qs Hqs) as [S0 _].
    assert (Hs : sum_vals (q :: qs) = (val q + sum_vals qs)%Z) by reflexivity.
    rewrite Hs in Hb. pose proof unit_val_pos. pose proof inf_val_pos.
    assert (Hinf : (2 ^ 53 * unit_val < inf_val)%Z).
    { rewrite inf_val_unit. assert (2 ^ 53 < 2 ^ 1024)%Z by (apply Z.pow_lt_mono_r; lia). nia. }
    destruct (or_number_val total Nt) as [Nt' Vt'].
    destruct (add_fin (or_number (Some total) 0) q
                ltac:(split; [assumption | lia]) ltac:(split; [assumption | lia])) as [Na Va].
    rewrite Vt', sRN_count in Va by (try apply Z.divide_add_r; assumption || lia).
    cbn [fold_left]. change (addQuantity (Some total) q) with (Some (or_number (Some total) 0 + q)).
    destruct (IH (or_number (Some total) 0 + q) Hqs Na ltac:(lia)
                ltac:(rewrite Va; apply Z.divide_add_r; assumption) ltac:(lia))
      as (sales & Hf & Ns & Vs).
    exists sales. split; [exact Hf|]. split; [exact Ns|]. rewrite Vs, Va, Hs. lia.
Qed.

(** X14: the purchase list has one row per SKU: the rows of
    [productsForPurchase] carry pairwise distinct ids, the ids are exactly the
    non-empty SKUs of the variants of the products, and on every row the sku
    is the id (the 'N/A' fallback is never used), nothing is selected and the
    order quantity starts at the suggested quantity. *)
Theorem productsForPurchase_one_row_per_sku parseFloat settings products threeMonthsAgo orders :
  let rows := productsForPurchase parseFloat settings products threeMonthsAgo orders in
  List.NoDup (map ProductData.id rows) /\
  (forall sku, In sku (map ProductData.id rows) <-> listed products sku) /\
  (forall item, In item rows ->
     ProductData.sku item = ProductData.id item /\
     ProductData.selected item = false /\
     ProductData.orderQuantity item = ProductData.suggestedQuantity item).
Proof.
  cbv zeta. unfold productsForPurchase.
  destruct (processProducts_spec parseFloat products) as (Hnd & Hkeys & _).
  destruct (processProducts parseFloat products) as [inventoryMap allSkus].
  cbn [fst snd] in *.
  set (salesMap := if (0 <? length allSkus)%nat then _ else _).
  assert (Hids : map ProductData.id
                   (map (productForPurchase (asSettings settings) salesMap) inventoryMap)
                 = map fst inventoryMap).
  { rewrite map_map. apply map_ext. intros [sku info]. reflexivity. }
  rewrite Hids. split; [exact Hnd|]. split; [exact Hkeys|].
  intros item Hin. apply in_map_iff in Hin as ([sku info] & <- & Hin).
  assert (Hk : listed products sku).
  { apply Hkeys. apply in_map_iff. exists (sku, info). auto. }
  destruct Hk as [Hne _]. cbn.
  destruct sku; [contradiction | auto].
Qed.

(** X15: a product that was not sold is never proposed: whatever vendor is
    selected, every product that [productsNeedingReorder] shows from the list
    of the loader has a line item in an order placed since [threeMonthsAgo];
    a product without such a sale gets the suggested quantity 0 and the status
    'good', even with no stock at all. *)
Theorem proposed_products_have_recent_sales
    parseFloat settings products threeMonthsAgo orders selectedVendor item :
  In item
    (productsNeedingReorder
       (filteredProducts selectedVendor
          (productsForPurchase parseFloat settings products threeMonthsAgo orders))) ->
  sold_since threeMonthsAgo orders (ProductData.id item).
Proof.
  unfold productsNeedingReorder. intros Hin.
  apply filter_In in Hin as [Hin Hkeep].
  assert (Hin' : In item (productsForPurchase parseFloat settings products threeMonthsAgo orders)).
  { unfold filteredProducts in Hin. destruct (String.eqb selectedVendor "all"); [exact Hin|].
    apply filter_In in Hin. tauto. }
  clear Hin. unfold productsForPurchase in Hin'.
  destruct (processProducts parseFloat products) as [inventoryMap allSkus].
  apply in_map_iff in Hin' as ([sku info] & <- & Hin).
  set (salesMap := if (0 <? length allSkus)%nat then _ else _) in *.
  destruct (Map_get salesMap sku) as [sold|] eqn:Hget.
  - assert (Hsome : Map_get salesMap sku <> None) by congruence.
    unfold salesMap in Hsome. destruct (0 <? length allSkus)%nat.
    + apply processOrders_get in Hsome as [_ Hs]. exact Hs.
    + exfalso. apply Hsome. reflexivity.
  - destruct (unsold_product (asSettings settings) salesMap sku info Hget) as [Hq Hs].
    cbv zeta in Hq, Hs. rewrite Hq, Hs in Hkeep. discriminate.
Qed.

Lemma proposed_products_have_recent_sales_witness :
  sold_since 1000 sample_orders "W-1".
Proof.
  exact (proposed_products_have_recent_sales sample_parse sample_settings sample_products
           1000 sample_orders "Acme"
           (productForPurchase (asSettings sample_settings) [("W-1", 90)]
              ("W-1",
               {| InventoryInfo.available := 5; InventoryInfo.price := 0.25;
                  InventoryInfo.title := "Widget"; InventoryInfo.vendor := "Acme";
                  InventoryInfo.variantId := "v1"; InventoryInfo.productId := "p1" |}))
           (or_introl eq_refl)).
Defined.

(** X16: more sales never lower the suggestion: for two sales figures of a SKU
    with 0 <= sales1 <= sales2 (finite), a finite stock >= 0,
    stockCoverageDays >= 1 and reorderPoint in [0,1], the row computed from
    the larger figure has a suggested quantity at least as large, is 'low'
    whenever the other is, and the other is 'good' whenever it is. *)
Theorem productForPurchase_monotone_in_sales settings
    (salesMap1 salesMap2 : JsMap float) sku inventoryInfo :
  let sales1 := or_number (Map_get salesMap1 sku) 0 in
  let sales2 := or_number (Map_get salesMap2 sku) 0 in
  let item1 := productForPurchase settings salesMap1 (sku, inventoryInfo) in
  let item2 := productForPurchase settings salesMap2 (sku, inventoryInfo) in
  (0 <=? sales1) = true -> (sales1 <=? sales2) = true -> is_finite sales2 = true ->
  (0 <=? InventoryInfo.available inventoryInfo) = true ->
  is_finite (InventoryInfo.available inventoryInfo) = true ->
  (1 <=? stockCoverageDays settings) = true ->
  (0 <=? reorderPoint settings) = true -> (reorderPoint settings <=? 1) = true ->
  (ProductData.suggestedQuantity item1 <=? ProductData.suggestedQuantity item2) = true /\
  (ProductData.stockStatus item1 = "low" -> ProductData.stockStatus item2 = "low") /\
  (ProductData.stockStatus item2 = "good" -> ProductData.stockStatus item1 = "good").
Proof.
  cbv zeta. intros H0 H12 F2 Hc Fc Hd Hr0 Hr1.
  unfold productForPurchase.
  cbn [ProductData.suggestedQuantity ProductData.stockStatus].
  destruct (velocity_mono _ _ H0 H12 F2) as [Hv0 Hv12].
  split; [apply quantity_mono_velocity; assumption|].
  set (v1 := or_number (Map_get salesMap1 sku) 0 / 90) in *.
  set (v2 := or_number (Map_get salesMap2 sku) 0 / 90) in *.
  set (c := InventoryInfo.available inventoryInfo) in *.
  apply leb_true in Hc as (_ & _ & V0). rewrite val_0 in V0.
  apply leb_true in Hv0 as (_ & N1 & V1). rewrite val_0 in V1.
  apply leb_true in Hv12 as (_ & N2 & V12).
  pose proof (is_finite_is_fin _ Fc) as F.
  destruct (days_mono c c v2 v1 F F ltac:(lia) N2 N1 ltac:(lia)) as (Nd2 & Nd1 & Vd).
  apply status_order; assumption.
Qed.

Lemma productForPurchase_monotone_in_sales_witness :
  let info :=
    {| InventoryInfo.available := 5; InventoryInfo.price := 0.25;
       InventoryInfo.title := "Widget"; InventoryInfo.vendor := "Acme";
       InventoryInfo.variantId := "v1"; InventoryInfo.productId := "p1" |} in
  let item1 := productForPurchase defaultSettings [("W-1", 45)] ("W-1", info) in
  let item2 := productForPurchase defaultSettings [("W-1", 90)] ("W-1", info) in
  (ProductData.suggestedQuantity item1 <=? ProductData.suggestedQuantity item2) = true /\
  (ProductData.stockStatus item1 = "low" -> ProductData.stockStatus item2 = "low") /\
  (ProductData.stockStatus item2 = "good" -> ProductData.stockStatus item1 = "good").
Proof.
  exact (productForPurchase_monotone_in_sales defaultSettings [("W-1", 45)] [("W-1", 90)]
           "W-1"
           {| InventoryInfo.available := 5; InventoryInfo.price := 0.25;
              InventoryInfo.title := "Widget"; InventoryInfo.vendor := "Acme";
              InventoryInfo.variantId := "v1"; InventoryInfo.productId := "p1" |}
           eq_refl eq_refl eq_refl eq_refl eq_refl eq_refl eq_refl eq_refl).
Defined.

(** X17: the sales figure of a SKU is the running total of its own line
    items: in the map that [processOrders] builds, a SKU that is empty or not
    among [allSkus] has no entry, and any other SKU holds
    (total || 0) + quantity folded over the quantities of the line items that
    carry it in the orders placed since [threeMonthsAgo]; the line items of
    other SKUs and of older orders do not change it. *)
Theorem processOrders_totals_per_sku threeMonthsAgo allSkus orders sku :
  Map_get (processOrders threeMonthsAgo allSkus orders) sku =
  if negb (String.eqb sku "") && includes allSkus sku then
    fold_left addQuantity (quantitiesSold threeMonthsAgo orders sku) None
  else None.
Proof. unfold processOrders. apply processOrders_fold. Qed.

(** X18: counted sales are exact: when the quantities sold of a listed SKU are
    whole numbers >= 0 whose sum is below 2^53, the sales figure
    salesMap.get(sku) || 0 is exactly that sum, with no rounding. *)
Theorem sales_of_counts_are_exact threeMonthsAgo allSkus orders sku :
  negb (String.eqb sku "") && includes allSkus sku = true ->
  counts (quantitiesSold threeMonthsAgo orders sku) = true ->
  (sum_vals (quantitiesSold threeMonthsAgo orders sku) <? 2 ^ 53 * unit_val)%Z = true ->
  let salesLast90Days :=
    or_number (Map_get (processOrders threeMonthsAgo allSkus orders) sku) 0 in
  is_num salesLast90Days /\
  val salesLast90Days = sum_vals (quantitiesSold threeMonthsAgo orders sku).
Proof.
  intros Hsku Hc Hb. cbv zeta. apply Z.ltb_lt in Hb.
  unfold processOrders. rewrite processOrders_fold, Hsku. cbn [Map_get].
  set (qs := quantitiesSold threeMonthsAgo orders sku) in *.
  destruct qs as [|q qs'] eqn:Hqs.
  - cbn. split; [exact is_num_0 | reflexivity].
  - cbn [fold_left]. change (addQuantity None q) with (Some (0 + q)).
    pose proof Hc as Hc'. unfold counts in Hc'. cbn [forallb] in Hc'.
    apply andb_true_iff in Hc' as [Hq Hqs']. fold (counts qs') in Hqs'.
    destruct (count_val q Hq) as (Nq & Vq & Wq).
    destruct (sum_vals_counts qs' Hqs') as [S0 _].
    assert (Hs : sum_vals (q :: qs') = (val q + sum_vals qs')%Z) by reflexivity.
    rewrite Hs in *. pose proof unit_val_pos. pose proof inf_val_pos.
    assert (Hinf : (2 ^ 53 * unit_val < inf_val)%Z).
    { rewrite inf_val_unit. assert (2 ^ 53 < 2 ^ 1024)%Z by (apply Z.pow_lt_mono_r; lia). nia. }
    assert (F0 : is_fin 0) by (split; [exact is_num_0 | rewrite val_0; lia]).
    destruct (add_fin 0 q F0 ltac:(split; [assumption | lia])) as [Na Va].
    rewrite val_0, Z.add_0_l, sRN_count in Va by (assumption || lia).
    destruct (addQuantity_exact qs' (0 + q) Hqs' Na ltac:(lia)
                ltac:(rewrite Va; assumption) ltac:(lia)) as (sales & Hf & Ns & Vs).
    rewrite Hf. destruct (or_number_val sales Ns) as [No Vo].
    split; [exact No|]. etransitivity; [exact Vo|]. rewrite Vs, Va. reflexivity.
Qed.

Lemma sales_of_counts_are_exact_witness :
  let salesLast90Days :=
    or_number (Map_get (processOrders 1000 ["W-1"; "W-2"] sample_orders) "W-1") 0 in
  is_num salesLast90Days /\
  val salesLast90Days = sum_vals (quantitiesSold 1000 sample_orders "W-1").
Proof.
  exact (sales_of_counts_are_exact 1000 ["W-1"; "W-2"] sample_orders "W-1"
           eq_refl eq_refl eq_refl).
Defined.

(** ** Part X: the dashboard *)

(** [sort] and [slice] on small arrays: ascending and descending order, equal
    elements kept in their order. *)
Example Array_sort_samples :
  Array_sort (fun a b => a - b) [3; 1; 2; 1] = [1; 1; 2; 3] /\
  Array_sort (fun a b => b - a) [3; 1; 2] = [3; 2; 1] /\
  Array_sort (fun a b => fst a - fst b) [(2, "a"); (1, "b"); (2, "c"); (1, "d")] =
    [(1, "b"); (1, "d"); (2, "a"); (2, "c")] /\
  Array_slice0 2 [5; 4; 3] = [5; 4] /\ Array_slice0 5 [5; 4; 3] = [5; 4; 3].
Proof. repeat split; vm_compute; reflexivity. Qed.

(** *** Sorting with a difference as the comparator *)

Lemma sRN_sign z : (sRN z (-1074) <? 0)%Z = (z <? 0)%Z.
Proof.
  assert (R1 : RN 1 (-1074) = 1%Z)
    by exact (RN_canonical 1 (-1074) ltac:(lia) ltac:(reflexivity) ltac:(lia)).
  unfold sRN. destruct (Z.ltb_spec z 0) as [Hneg|Hpos].
  - pose proof (RN_mono0 1 (- z) (-1074) ltac:(lia) ltac:(lia)).
    apply Z.ltb_lt. lia.
  - pose proof (RN_mono0 0 z (-1074) ltac:(lia) ltac:(lia)) as H. rewrite RN_0 in H.
    apply Z.ltb_ge. exact H.
Qed.

(** The sign of a difference tells which number is smaller, infinities
    included; the difference of two equal infinities is NaN, which is not
    below 0. *)
Lemma sub_lt0 x y : is_num x -> is_num y -> (x - y <? 0) = (val x <? val y)%Z.
Proof.
  intros Nx Ny. pose proof inf_val_pos.
  pose proof (val_bounds x) as Bx. pose proof (val_bounds y) as By.
  destruct (Z.eq_dec (val x) inf_val) as [Xi|Xi];
    [|destruct (Z.eq_dec (val x) (- inf_val)) as [Xn|Xn]];
    (destruct (Z.eq_dec (val y) inf_val) as [Yi|Yi];
     [|destruct (Z.eq_dec (val y) (- inf_val)) as [Yn|Yn]]).
  all: try (rewrite ltb_spec, sub_spec; unfold val, is_num in *;
            try rewrite (shape_inf _ (is_num_valid x Nx) Xi) in *;
            try rewrite (shape_ninf _ (is_num_valid x Nx) Xn) in *;
            try rewrite (shape_inf _ (is_num_valid y Ny) Yi) in *;
            try rewrite (shape_ninf _ (is_num_valid y Ny) Yn) in *;
            change (Prim2SF 0) with (S754_zero false);
            destruct (Prim2SF x) as [sx|sx| |sx mx ex];
            destruct (Prim2SF y) as [sy|sy| |sy my ey];
            cbn [SFval cond_Zopp] in *;
            try (exfalso; apply Nx; reflexivity); try (exfalso; apply Ny; reflexivity);
            try (destruct sx; cbn [cond_Zopp] in *; lia);
            try (destruct sy; cbn [cond_Zopp] in *; lia);
            cbn; symmetry; first [apply Z.ltb_lt; lia | apply Z.ltb_ge; lia]).
  destruct (sub_fin x y ltac:(split; [assumption | lia]) ltac:(split; [assumption | lia]))
    as [Nd Vd].
  rewrite (ltb_val _ _ Nd is_num_0), val_0, Vd, sRN_sign.
  destruct (Z.ltb_spec (val x - val y) 0); destruct (Z.ltb_spec (val x) (val y));
    try reflexivity; lia.
Qed.

Lemma Array_insert_perm {A} (compareFn : A -> A -> float) x l :
  Permutation (x :: l) (Array_insert compareFn x l).
Proof.
  induction l as [|y l IH]; cbn [Array_insert].
  - apply Permutation_refl.
  - destruct (compareFn x y <? 0); [apply Permutation_refl|].
    eapply perm_trans; [apply perm_swap | apply perm_skip; exact IH].
Qed.

Lemma Array_sort_from_perm {A} (compareFn : A -> A -> float) l sorted :
  Permutation (sorted ++ l)
    (fold_left (fun sorted x => Array_insert compareFn x sorted) l sorted).
Proof.
  revert sorted. induction l as [|x l IH]; intros sorted; cbn [fold_left].
  - rewrite app_nil_r. apply Permutation_refl.
  - eapply perm_trans; [|apply IH].
    eapply perm_trans; [apply Permutation_sym, Permutation_middle|].
    change (x :: sorted ++ l) with ((x :: sorted) ++ l).
    apply Permutation_app_tail. apply Array_insert_perm.
Qed.

Lemma Array_sort_perm {A} (compareFn : A -> A -> float) l :
  Permutation l (Array_sort compareFn l).
Proof. apply (Array_sort_from_perm compareFn l []). Qed.

Lemma Array_insert_sorted {A} (compareFn : A -> A -> float) (key : A -> Z) x l :
  (forall y, In y l -> (compareFn x y <? 0) = (key x <? key y)%Z) ->
  StronglySorted (fun a b => (key a <= key b)%Z) l ->
  StronglySorted (fun a b => (key a <= key b)%Z) (Array_insert compareFn x l).
Proof.
  intros Hc Hs. induction l as [|y l IH]; cbn [Array_insert].
  - constructor; [constructor | constructor].
  - apply StronglySorted_inv in Hs as [Hs Hy].
    rewrite (Hc y (or_introl eq_refl)).
    destruct (Z.ltb_spec (key x) (key y)) as [Hlt|Hge].
    + constructor; [constructor; assumption|].
      constructor; [lia|]. rewrite List.Forall_forall in Hy |- *.
      intros z Hz. specialize (Hy z Hz). lia.
    + constructor; [apply IH; [intros z Hz; apply Hc; right; exact Hz | exact Hs]|].
      rewrite List.Forall_forall in Hy |- *. intros z Hz.
      apply (Permutation_in _ (Permutation_sym (Array_insert_perm compareFn x l))) in Hz.
      destruct Hz as [<-|Hz]; [lia | apply Hy; exact Hz].
Qed.

Lemma Array_sort_from_sorted {A} (compareFn : A -> A -> float) (key : A -> Z) l sorted :
  (forall a b, In a (sorted ++ l) -> In b (sorted ++ l) ->
     (compareFn a b <? 0) = (key a <? key b)%Z) ->
  StronglySorted (fun a b => (key a <= key b)%Z) sorted ->
  StronglySorted (fun a b => (key a <= key b)%Z)
    (fold_left (fun sorted x => Array_insert compareFn x sorted) l sorted).
Proof.
  revert sorted. induction l as [|x l IH]; intros sorted Hc Hs; cbn [fold_left].
  - exact Hs.
  - apply IH.
    + intros a b Ha Hb. apply Hc.
      * apply in_app_iff in Ha as [Ha|Ha]; [|apply in_app_iff; right; right; exact Ha].
        apply (Permutation_in _ (Permutation_sym (Array_insert_perm compareFn x sorted))) in Ha.
        apply in_app_iff. destruct Ha as [<-|Ha]; [right; left; reflexivity | left; exact Ha].
      * apply in_app_iff in Hb as [Hb|Hb]; [|apply in_app_iff; right; right; exact Hb].
        apply (Permutation_in _ (Permutation_sym (Array_insert_perm compareFn x sorted))) in Hb.
        apply in_app_iff. destruct Hb as [<-|Hb]; [right; left; reflexivity | left; exact Hb].
    + apply Array_insert_sorted; [|exact Hs].
      intros y Hy. apply Hc; apply in_app_iff; [right; left; reflexivity | left; exact Hy].
Qed.

(** A comparator whose sign follows a key sorts by that key. *)
Lemma Array_sort_sorted {A} (compareFn : A -> A -> float) (key : A -> Z) l :
  (forall a b, In a l -> In b l -> (compareFn a b <? 0) = (key a <? key b)%Z) ->
  StronglySorted (fun a b => (key a <= key b)%Z) (Array_sort compareFn l).
Proof.
  intros Hc. apply Array_sort_from_sorted; [exact Hc | constructor].
Qed.

Lemma StronglySorted_weaken {A} (R1 R2 : A -> A -> Prop) l :
  (forall a b, In a l -> In b l -> R1 a b -> R2 a b) ->
  StronglySorted R1 l -> StronglySorted R2 l.
Proof.
  intros Hw Hs. induction Hs as [|a l Hs IH Ha]; [constructor|].
  constructor.
  - apply IH. intros x y Hx Hy. apply Hw; right; assumption.
  - rewrite List.Forall_forall in Ha |- *. intros y Hy.
    apply Hw; [left; reflexivity | right; exact Hy | apply Ha; exact Hy].
Qed.

Lemma StronglySorted_app_inv {A} (R : A -> A -> Prop) l1 l2 :
  StronglySorted R (l1 ++ l2) ->
  StronglySorted R l1 /\ forall a b, In a l1 -> In b l2 -> R a b.
Proof.
  induction l1 as [|x l1 IH]; cbn [app]; intros Hs.
  - split; [constructor | intros a b []].
  - apply StronglySorted_inv in Hs as [Hs Hx]. destruct (IH Hs) as [IH1 IH2].
    rewrite List.Forall_forall in Hx. split.
    + constructor; [exact IH1|]. rewrite List.Forall_forall. intros y Hy.
      apply Hx. apply in_app_iff. left. exact Hy.
    + intros a b [<-|Ha] Hb; [apply Hx, in_app_iff; right; exact Hb | apply IH2; assumption].
Qed.

(** *** The bands of the dashboard *)

Lemma filter_split {A} (p q r : A -> bool) (l : list A) :
  (forall x, p x = q x || r x) -> (forall x, q x && r x = false) ->
  length (List.filter p l) = (length (List.filter q l) + length (List.filter r l))%nat.
Proof.
  intros Hp Hd. induction l as [|x l IH]; [reflexivity|].
  cbn [List.filter]. rewrite Hp. specialize (Hd x).
  destruct (q x), (r x); cbn [orb length] in *; try discriminate; lia.
Qed.

Lemma filter_length_ext {A} (p q : A -> bool) (l : list A) :
  (forall x, p x = q x) -> length (List.filter p l) = length (List.filter q l).
Proof. intros H. rewrite (List.filter_ext p q H). reflexivity. Qed.

(** Below 7 days, and from 7 to below 14 days, split the days below 14, also
    when the days are not a number. *)
Lemma bands d :
  (d <? 14) = (d <? 7) || ((d >=? 7) && (d <? 14)) /\
  (d <? 7) && ((d >=? 7) && (d <? 14)) = false /\
  ((d >=? 7) && (d <? 14)) = negb (d <? 7) && (d <? 14).
Proof.
  assert (N7 : is_num 7) by discriminate. assert (N14 : is_num 14) by discriminate.
  assert (H714 : (val 7 < val 14)%Z) by reflexivity.
  destruct (d <? 14) eqn:H14.
  - apply ltb_true in H14 as (Nd & _ & V14).
    rewrite (ltb_val _ _ Nd N7), (leb_val _ _ N7 Nd).
    destruct (Z.ltb_spec (val d) (val 7)); destruct (Z.leb_spec (val 7) (val d));
      try lia; repeat split; reflexivity.
  - rewrite !andb_false_r, orb_false_r.
    destruct (d <? 7) eqn:H7; [|repeat split; reflexivity].
    apply ltb_true in H7 as (Nd & _ & V7).
    rewrite (ltb_val _ _ Nd N14) in H14. apply Z.ltb_ge in H14. lia.
Qed.

Lemma lowStockItems_perm combinedData :
  Permutation (List.filter (fun item => itemDays item <? 14) combinedData)
    (lowStockItems combinedData).
Proof. apply Array_sort_perm. Qed.

(** X19: the store health of the dashboard follows the low-stock list: the
    products counted as critical (below 7 days of stock) and as warning (from
    7 to below 14 days) are, together, as many as the low-stock items; the
    health is 'excellent' exactly when there is no low-stock item and
    'critical' exactly when some product has less than 7 days of stock. *)
Theorem storeHealth_follows_lowStockItems combinedData :
  length (lowStockItems combinedData) =
    (criticalItems combinedData + warningItems combinedData)%nat /\
  (storeHealth combinedData = "excellent" <-> lowStockItems combinedData = []) /\
  (storeHealth combinedData = "critical" <->
   exists item, In item combinedData /\ (itemDays item <? 7) = true).
Proof.
  assert (Hlen : length (lowStockItems combinedData) =
                 (criticalItems combinedData + warningItems combinedData)%nat).
  { rewrite <- (Permutation_length (lowStockItems_perm combinedData)).
    unfold criticalItems, warningItems. apply filter_split.
    - intros item. cbv zeta. apply bands.
    - intros item. cbv zeta. apply bands. }
  split; [exact Hlen|]. unfold storeHealth. split.
  - destruct (Nat.ltb_spec 0 (criticalItems combinedData)) as [Hc|Hc].
    { split; [discriminate|]. intros H. rewrite H in Hlen. cbn in Hlen. lia. }
    destruct (Nat.ltb_spec 3 (warningItems combinedData)) as [Hw|Hw].
    { split; [discriminate|]. intros H. rewrite H in Hlen. cbn in Hlen. lia. }
    destruct (Nat.ltb_spec 0 (warningItems combinedData)) as [Hw0|Hw0].
    { split; [discriminate|]. intros H. rewrite H in Hlen. cbn in Hlen. lia. }
    split; [|reflexivity]. intros _.
    destruct (lowStockItems combinedData); [reflexivity | cbn in Hlen; lia].
  - unfold criticalItems.
    set (critical := fun item : InventoryData.t => _ <? 7).
    destruct (Nat.ltb_spec 0 (length (List.filter critical combinedData))) as [Hc|Hc].
    + split; [intros _|reflexivity].
      destruct (List.filter critical combinedData) as [|item rest] eqn:Hf; [cbn in Hc; lia|].
      assert (Hin : In item (List.filter critical combinedData)) by (rewrite Hf; left; reflexivity).
      apply filter_In in Hin as [Hin Hcrit]. exists item. split; [exact Hin | exact Hcrit].
    + split.
      * destruct (_ <? _)%nat; [discriminate|]. destruct (_ <? _)%nat; discriminate.
      * intros (item & Hin & Hcrit). exfalso.
        assert (Hf : In item (List.filter critical combinedData))
          by (apply filter_In; split; [exact Hin | exact Hcrit]).
        destruct (List.filter critical combinedData); [destruct Hf | cbn in Hc; lia].
Qed.

(** X20: the dashboard counts with the default thresholds, whatever the shop
    has configured: its critical items are the products that [getStockStatus]
    calls 'low' under the default settings (7 and 14 days), its warning items
    the ones it calls 'medium'. *)
Theorem dashboard_counts_use_default_thresholds combinedData :
  let status item :=
    getStockStatus (InventoryData.currentStock item) (InventoryData.salesVelocity item)
      defaultSettings in
  criticalItems combinedData =
    length (List.filter (fun item => String.eqb (status item) "low") combinedData) /\
  warningItems combinedData =
    length (List.filter (fun item => String.eqb (status item) "medium") combinedData).
Proof.
  cbv zeta. unfold criticalItems, warningItems. split; apply filter_length_ext; intros item.
  - rewrite status_cases. unfold daysOfStock. cbn [lowStockThreshold mediumStockThreshold defaultSettings].
    destruct (_ <? 7); [reflexivity|]. destruct (_ <? 14); reflexivity.
  - cbv zeta. rewrite (proj2 (proj2 (bands _))).
    rewrite status_cases. unfold daysOfStock. cbn [lowStockThreshold mediumStockThreshold defaultSettings].
    destruct (_ <? 7); [reflexivity|]. destruct (_ <? 14); reflexivity.
Qed.

(** X21: the low-stock list holds exactly the products with less than 14
    days of stock, the most urgent first: it is a rearrangement of these
    products in which the days of stock never decrease from one item to any
    later one. *)
Theorem lowStockItems_most_urgent_first combinedData :
  Permutation (List.filter (fun item => itemDays item <? 14) combinedData)
    (lowStockItems combinedData) /\
  StronglySorted (fun a b => (itemDays a <=? itemDays b) = true)
    (lowStockItems combinedData).
Proof.
  split; [apply lowStockItems_perm|].
  assert (Hnum : forall item, In item (lowStockItems combinedData) -> is_num (itemDays item)).
  { intros item Hin.
    apply (Permutation_in _ (Permutation_sym (lowStockItems_perm combinedData))) in Hin.
    apply filter_In in Hin as [_ H14]. apply ltb_true in H14. tauto. }
  apply (StronglySorted_weaken (fun a b => (val (itemDays a) <= val (itemDays b))%Z)).
  - intros a b Ha Hb Hle. rewrite (leb_val _ _ (Hnum a Ha) (Hnum b Hb)).
    apply Z.leb_le. exact Hle.
  - unfold lowStockItems. apply (Array_sort_sorted _ (fun item => val (itemDays item))).
    intros a b Ha Hb. cbv zeta. apply sub_lt0.
    + apply filter_In in Ha as [_ H14]. apply ltb_true in H14. tauto.
    + apply filter_In in Hb as [_ H14]. apply ltb_true in H14. tauto.
Qed.

(** X22: the top sellers are the best-selling products: at most 5, each with
    sales above 0, in an order in which the sales never increase; and every
    product with sales above 0 that is left out sells no more than each of
    the 5 that are listed. *)
Theorem topSellingItems_are_the_best_sellers combinedData :
  let top := topSellingItems combinedData in
  (length top <= 5)%nat /\
  (forall item, In item top ->
     In item combinedData /\ (InventoryData.salesLast90Days item >? 0) = true) /\
  StronglySorted
    (fun a b => (InventoryData.salesLast90Days b <=? InventoryData.salesLast90Days a) = true)
    top /\
  (forall item, In item combinedData ->
     (InventoryData.salesLast90Days item >? 0) = true ->
     In item top \/
     (length top = 5%nat /\
      forall listed, In listed top ->
        (InventoryData.salesLast90Days item <=? InventoryData.salesLast90Days listed) = true)).
Proof.
  cbv zeta. unfold topSellingItems, Array_slice0.
  set (sold := List.filter (fun item => InventoryData.salesLast90Days item >? 0) combinedData).
  set (compareFn := fun a b : InventoryData.t =>
         InventoryData.salesLast90Days b - InventoryData.salesLast90Days a).
  set (sorted := Array_sort compareFn sold).
  pose proof (Array_sort_perm compareFn sold) as Hperm. fold sorted in Hperm.
  assert (Hsold : forall item, In item sorted <->
            In item combinedData /\ (InventoryData.salesLast90Days item >? 0) = true).
  { intros item. split.
    - intros Hin. apply (Permutation_in _ (Permutation_sym Hperm)) in Hin.
      apply filter_In in Hin. exact Hin.
    - intros Hin. apply (Permutation_in _ Hperm). apply filter_In. exact Hin. }
  assert (Hnum : forall item, In item sorted -> is_num (InventoryData.salesLast90Days item)).
  { intros item Hin. apply Hsold in Hin as [_ Hpos]. apply ltb_true in Hpos. tauto. }
  assert (Hsorted : StronglySorted
            (fun a b => (InventoryData.salesLast90Days b <=? InventoryData.salesLast90Days a) = true)
            sorted).
  { apply (StronglySorted_weaken
             (fun a b => (- val (InventoryData.salesLast90Days a)
                          <= - val (InventoryData.salesLast90Days b))%Z)).
    - intros a b Ha Hb Hle. rewrite (leb_val _ _ (Hnum b Hb) (Hnum a Ha)).
      apply Z.leb_le. lia.
    - apply (Array_sort_sorted _ (fun item => (- val (InventoryData.salesLast90Days item))%Z)).
      intros a b Ha Hb. unfold compareFn.
      assert (Na : is_num (InventoryData.salesLast90Days a)).
      { apply filter_In in Ha as [_ Hpos]. apply ltb_true in Hpos. tauto. }
      assert (Nb : is_num (InventoryData.salesLast90Days b)).
      { apply filter_In in Hb as [_ Hpos]. apply ltb_true in Hpos. tauto. }
      rewrite (sub_lt0 _ _ Nb Na).
      destruct (Z.ltb_spec (val (InventoryData.salesLast90Days b))
                           (val (InventoryData.salesLast90Days a)));
        destruct (Z.ltb_spec (- val (InventoryData.salesLast90Days a))
                             (- val (InventoryData.salesLast90Days b)));
        try reflexivity; lia. }
  rewrite <- (firstn_skipn 5 sorted) in Hsorted.
  apply StronglySorted_app_inv in Hsorted as [Htop Hrest].
  split; [apply firstn_le_length|].
  split; [intros item Hin; apply Hsold; rewrite <- (firstn_skipn 5 sorted);
          apply in_app_iff; left; exact Hin|].
  split; [exact Htop|].
  intros item Hin Hpos.
  assert (Hs : In item sorted) by (apply Hsold; split; assumption).
  rewrite <- (firstn_skipn 5 sorted) in Hs. apply in_app_iff in Hs as [Hs|Hs]; [left; exact Hs|].
  right. split.
  - apply firstn_length_le.
    destruct (Nat.le_gt_cases 5 (length sorted)) as [Hle|Hgt]; [exact Hle|].
    rewrite skipn_all2 in Hs by lia. destruct Hs.
  - intros listed Hl. exact (Hrest listed item Hl Hs).
Qed.
